(** * checkout-sdk-js: payment strategies and the embedded checkout

    A shallow embedding of

    - [SquareV2PaymentStrategy]: [execute], with [_processWithVaultedInstrument],
      [_getSquareCardIdOrThrow] and [_shouldVerify], [finalize], and, in a
      module of their own, [initialize] and [deinitialize];
    - [WepayPaymentStrategy]: [initialize] and [execute], over a parent class
      that is a parameter;
    - the embedded-checkout bundle: the storage wrapper, the message listener
      and poster, the loading indicator, the iframe creator and the
      [EmbeddedCheckout] controller with [attach] and [detach].

    Promises are modelled by how they settle. In the payment strategies the
    calls that leave the strategy (vendor SDK, order service) are answered by
    an environment and recorded in a trace; in the embedded checkout the
    browser and the controller are one state that the operations transform. *)

From Stdlib Require Import ZArith String List Lia.
From stdpp Require Import base option list strings gmap.

Local Open Scope string_scope.
Local Open Scope list_scope.

(** ** Promises *)

(** How a promise ends: it resolves, it rejects, or it never settles. *)
Inductive Settled (E A : Type) : Type :=
  | Resolved (a : A)
  | Rejected (e : E)
  | Pending.
Arguments Resolved {E A} a.
Arguments Rejected {E A} e.
Arguments Pending {E A}.

Definition is_resolved {E A} (s : Settled E A) : bool :=
  match s with Resolved _ => true | _ => false end.

(** JavaScript truthiness of the values the code tests. *)
Definition truthy_string (s : string) : bool :=
  match s with EmptyString => false | _ => true end.

Definition truthy_opt_string (o : option string) : bool :=
  match o with Some s => truthy_string s | None => false end.

Definition truthy_opt_bool (o : option bool) : bool :=
  match o with Some b => b | None => false end.

(** ** SquareV2PaymentStrategy *)

Module SquareV2.

Inductive SquareIntent := CHARGE | STORE.

Inductive Error :=
  | PaymentArgumentInvalidError (fields : list string)
  | OrderFinalizationNotRequiredError
  | MissingDataError
  | TypeError
  | ExternalError (tag : string).

(** The fields of [paymentData] the strategy reads; [None] is a property
    that is not there. *)
Record PaymentData := {
  instrumentId : option string;
  shouldSaveInstrument : option bool;
  shouldSetAsDefaultInstrument : option bool
}.

Record OrderPaymentRequestBody := {
  methodId : string;
  gatewayId : option string;
  paymentData : option PaymentData
}.

Record OrderRequestBody := {
  useStoreCredit : option bool;
  payment : option OrderPaymentRequestBody
}.

(** [JSON.stringify] of the nonce object built when verification is on;
    [PlainNonce] is the nonce string as the tokenizer returned it. *)
Inductive Nonce :=
  | PlainNonce (nonce : string)
  | VerifiedNonce (nonce token : string)
  | VerifiedStoreNonce (nonce store_card_nonce token store_card_token : string).

Inductive FormattedPayload :=
  | credit_card_token (token : Nonce)
      (vault_payment_instrument set_as_default_stored_instrument : bool)
  | bigpay_token (token : option string) (three_d_secure : option string)
      (vault_payment_instrument set_as_default_stored_instrument : bool).

(** [{ ...payment, paymentData: { formattedPayload } }] *)
Record SubmittedPayment := {
  sp_methodId : string;
  sp_gatewayId : option string;
  sp_formattedPayload : FormattedPayload
}.

Record SquareInitializationData := { cardId : option string }.

Record PaymentMethod := { initializationData : option SquareInitializationData }.

(** The selectors returned by [loadPaymentMethod]. *)
Record Selectors := {
  getPaymentMethodOrThrow : string -> Error + PaymentMethod
}.

(** Calls that leave the strategy. *)
Inductive Call :=
  | SubmitOrder
  | Tokenize
  | VerifyBuyer (nonce : string) (intent : SquareIntent)
  | LoadPaymentMethod (methodId : string) (method : string) (bigpayToken : option string)
  | SubmitPayment (p : SubmittedPayment).

Definition is_tokenize (c : Call) : bool :=
  match c with Tokenize => true | _ => false end.

(** Tokenization and buyer verification: the vendor SDK. *)
Definition is_vendor_call (c : Call) : bool :=
  match c with Tokenize | VerifyBuyer _ _ => true | _ => false end.

(** The collaborators: each answer may depend on the calls made so far.
    [storeFeatures] is [getStoreConfigOrThrow().checkoutSettings.features],
    [None] when the store config is missing (the getter throws). *)
Record Env := {
  submitOrder_answer : list Call -> Settled Error unit;
  tokenize_answer : list Call -> Settled Error string;
  verifyBuyer_answer : list Call -> string -> SquareIntent -> Settled Error string;
  loadPaymentMethod_answer : list Call -> string -> option string -> Settled Error Selectors;
  submitPayment_answer : list Call -> SubmittedPayment -> Settled Error unit;
  storeFeatures : option (gmap string bool)
}.

(** An async computation: given the collaborators and the calls made before
    it, how it settles and the calls it made. *)
Definition Async (A : Type) : Type := Env -> list Call -> Settled Error A * list Call.

Definition ret {A} (a : A) : Async A := fun _ _ => (Resolved a, []).
Definition throw {A} (e : Error) : Async A := fun _ _ => (Rejected e, []).

Definition bind {A B} (m : Async A) (k : A -> Async B) : Async B :=
  fun env h =>
    match m env h with
    | (Resolved a, t1) => let '(r, t2) := k a env (h ++ t1) in (r, t1 ++ t2)
    | (Rejected e, t1) => (Rejected e, t1)
    | (Pending, t1) => (Pending, t1)
    end.

Notation "'await' x <- m ; k" := (bind m (fun x => k))
  (at level 10, x name, m at level 100, k at level 200).
Notation "'await_' m ; k" := (bind m (fun _ => k))
  (at level 10, m at level 100, k at level 200).

Definition call {A} (c : Call) (answer : Env -> list Call -> Settled Error A) : Async A :=
  fun env h => (answer env h, [c]).

Definition submitOrder : Async unit := call SubmitOrder submitOrder_answer.
Definition tokenize : Async string := call Tokenize tokenize_answer.
Definition verifyBuyer (nonce : string) (intent : SquareIntent) : Async string :=
  call (VerifyBuyer nonce intent) (fun env h => verifyBuyer_answer env h nonce intent).
Definition loadPaymentMethod (methodId : string) (bigpayToken : option string) : Async Selectors :=
  call (LoadPaymentMethod methodId methodId bigpayToken)
       (fun env h => loadPaymentMethod_answer env h methodId bigpayToken).
Definition submitPayment (p : SubmittedPayment) : Async unit :=
  call (SubmitPayment p) (fun env h => submitPayment_answer env h p).

Definition feature_3ds : string := "PROJECT-3828.add_3ds_support_on_squarev2".

Definition _shouldVerify : Async bool :=
  fun env _ =>
    match storeFeatures env with
    | None => (Rejected MissingDataError, [])
    | Some features => (Resolved (truthy_opt_bool (features !! feature_3ds)), [])
    end.

(** [const { cardId } = initializationData || {}] *)
Definition cardId_of (method : PaymentMethod) : option string :=
  match initializationData method with
  | Some d => cardId d
  | None => None
  end.

Definition _getSquareCardIdOrThrow (methodId : string) (instrumentId : option string)
  : Async string :=
  await state <- loadPaymentMethod methodId instrumentId;
  match getPaymentMethodOrThrow state methodId with
  | inl e => throw e
  | inr method =>
      let cardId := cardId_of method in
      if truthy_opt_string cardId then ret (default "" cardId)
      else throw (PaymentArgumentInvalidError ["cardId"])
  end.

Section Strategy.

(** The type guards come from payment-integration-api. When the first one
    accepts a missing [paymentData], reading the flags off it is a
    [TypeError]. *)
Variable isHostedInstrumentLike : option PaymentData -> bool.
Variable isVaultedInstrument : PaymentData -> bool.

(** [submitPaymentPayload] of [_processWithVaultedInstrument], inside
    [{ ...payment, paymentData }]. *)
Definition vaulted_payment (payment : OrderPaymentRequestBody)
    (instrumentId verificationToken : option string)
    (shouldSaveInstrument shouldSetAsDefaultInstrument : bool) : SubmittedPayment :=
  {| sp_methodId := methodId payment;
     sp_gatewayId := gatewayId payment;
     sp_formattedPayload :=
       bigpay_token instrumentId
         (if truthy_opt_string verificationToken then verificationToken else None)
         shouldSaveInstrument shouldSetAsDefaultInstrument |}.

Definition _processWithVaultedInstrument (payment : OrderPaymentRequestBody)
    (shouldSaveInstrument shouldSetAsDefaultInstrument : option bool) : Async unit :=
  let shouldSaveInstrument := default false shouldSaveInstrument in
  let shouldSetAsDefaultInstrument := default false shouldSetAsDefaultInstrument in
  match paymentData payment with
  | None => ret tt
  | Some paymentData =>
      if negb (isVaultedInstrument paymentData) then ret tt
      else
        let instrumentId := instrumentId paymentData in
        await verify <- _shouldVerify;
        await verificationToken <-
          (if verify : bool then
             await cardId <- _getSquareCardIdOrThrow (methodId payment) instrumentId;
             await token <- verifyBuyer cardId CHARGE;
             ret (Some token)
           else ret None);
        submitPayment
          (vaulted_payment payment instrumentId verificationToken
             shouldSaveInstrument shouldSetAsDefaultInstrument)
  end.

(** The flags [execute] reads off the payment data. *)
Definition instrument_flags (paymentData : option PaymentData)
  : option (option bool * option bool) :=
  if isHostedInstrumentLike paymentData then
    match paymentData with
    | Some d => Some (shouldSaveInstrument d, shouldSetAsDefaultInstrument d)
    | None => None
    end
  else Some (Some false, Some false).

Definition execute (req : OrderRequestBody) : Async unit :=
  match payment req with
  | None => throw (PaymentArgumentInvalidError ["payment"])
  | Some payment =>
      let paymentData := paymentData payment in
      await flags <-
        (match instrument_flags paymentData with
         | Some flags => ret flags
         | None => throw TypeError
         end);
      let '(shouldSaveInstrument, shouldSetAsDefaultInstrument) := flags in
      await_ submitOrder;
      if match paymentData with Some d => isVaultedInstrument d | None => false end then
        _processWithVaultedInstrument payment shouldSaveInstrument shouldSetAsDefaultInstrument
      else
        await nonce <- tokenize;
        await verify <- _shouldVerify;
        await nonce' <-
          (if verify : bool then
             if truthy_opt_bool shouldSaveInstrument then
               await storeCardNonce <- tokenize;
               await token <- verifyBuyer nonce CHARGE;
               await store_card_token <- verifyBuyer storeCardNonce STORE;
               ret (VerifiedStoreNonce nonce storeCardNonce token store_card_token)
             else
               await token <- verifyBuyer nonce CHARGE;
               ret (VerifiedNonce nonce token)
           else ret (PlainNonce nonce));
        submitPayment {|
          sp_methodId := methodId payment;
          sp_gatewayId := gatewayId payment;
          sp_formattedPayload :=
            credit_card_token nonce'
              (truthy_opt_bool shouldSaveInstrument)
              (truthy_opt_bool shouldSetAsDefaultInstrument) |}
  end.

Definition finalize : Async unit := throw OrderFinalizationNotRequiredError.

End Strategy.

(** The two vault flags of a payload, and the token of a card payload. *)
Definition vault_flags (p : FormattedPayload) : bool * bool :=
  match p with
  | credit_card_token _ vault set_default | bigpay_token _ _ vault set_default =>
      (vault, set_default)
  end.

Definition card_token (p : FormattedPayload) : option Nonce :=
  match p with
  | credit_card_token token _ _ => Some token
  | bigpay_token _ _ _ _ => None
  end.

End SquareV2.

(** ** SquareV2PaymentStrategy: [initialize] and [deinitialize] *)

Module SquareV2Initialization.

Inductive Error :=
  | InvalidArgumentError (message : string)
  | PaymentMethodInvalidError
  | MissingDataError
  | ExternalError (tag : string).

(** [options.squarev2]: the strategy reads [containerId] and hands the
    object to the payment processor. *)
Record SquareV2PaymentInitializeOptions := { containerId : option string }.

Record PaymentInitializeOptions := {
  methodId : string;
  squarev2 : option SquareV2PaymentInitializeOptions
}.

Record SquarePaymentMethodInitializationData := {
  applicationId : option string;
  locationId : option string
}.

Record PaymentMethodConfig := { testMode : option bool }.

Record PaymentMethod := {
  config : PaymentMethodConfig;
  initializationData : option SquarePaymentMethodInitializationData
}.

(** Calls to the payment processor. *)
Inductive Call :=
  | ProcessorInitialize (applicationId : string) (locationId : option string)
      (testMode : option bool)
  | InitializeCard (options : SquareV2PaymentInitializeOptions)
  | Deinitialize.

(** The state of the checkout and the answers of the processor, given the
    calls made so far. *)
Record Env := {
  getPaymentMethodOrThrow : string -> Error + PaymentMethod;
  initialize_answer :
    list Call -> string -> option string -> option bool -> Settled Error unit;
  initializeCard_answer :
    list Call -> SquareV2PaymentInitializeOptions -> Settled Error unit;
  deinitialize_answer : list Call -> Settled Error unit
}.

Definition Async (A : Type) : Type := Env -> list Call -> Settled Error A * list Call.

Definition double_quote : string := String (Ascii.ascii_of_nat 34) EmptyString.

Definition containerId_missing : Error :=
  InvalidArgumentError
    ("Unable to proceed because " +:+ double_quote +:+ "containerId" +:+ double_quote
       +:+ " argument is not provided.").

(** [options?.squarev2?.containerId], with the options it was read from. *)
Definition given_containerId (options : option PaymentInitializeOptions)
  : option (PaymentInitializeOptions * SquareV2PaymentInitializeOptions) :=
  match options with
  | Some o =>
      match squarev2 o with
      | Some sq => if truthy_opt_string (containerId sq) then Some (o, sq) else None
      | None => None
      end
  | None => None
  end.

Definition initialize (options : option PaymentInitializeOptions) : Async unit :=
  fun env h =>
    match given_containerId options with
    | None => (Rejected containerId_missing, [])
    | Some (o, squarev2) =>
        match getPaymentMethodOrThrow env (methodId o) with
        | inl e => (Rejected e, [])
        | inr method =>
            let applicationId := initializationData method ≫= applicationId in
            let locationId := initializationData method ≫= locationId in
            let testMode := testMode (config method) in
            if truthy_opt_string applicationId then
              let applicationId := default "" applicationId in
              let first := ProcessorInitialize applicationId locationId testMode in
              match initialize_answer env h applicationId locationId testMode with
              | Resolved _ =>
                  (initializeCard_answer env (h ++ [first]) squarev2,
                   [first; InitializeCard squarev2])
              | Rejected e => (Rejected e, [first])
              | Pending => (Pending, [first])
              end
            else (Rejected PaymentMethodInvalidError, [])
        end
    end.

Definition deinitialize : Async unit :=
  fun env h => (deinitialize_answer env h, [Deinitialize]).

End SquareV2Initialization.

(** ** WepayPaymentStrategy *)

Module Wepay.

(** Plain JavaScript values: the order payload is handled as an untyped
    object by [merge]. Properties keep their insertion order. *)
#[local] Unset Elimination Schemes.
Inductive JsVal :=
  | JUndefined
  | JNull
  | JBool (b : bool)
  | JNumber (n : Z)
  | JString (s : string)
  | JObject (props : list (string * JsVal)).
#[local] Set Elimination Schemes.

Fixpoint get_prop (k : string) (props : list (string * JsVal)) : option JsVal :=
  match props with
  | [] => None
  | (k', v) :: rest => if String.eqb k k' then Some v else get_prop k rest
  end.

Fixpoint set_prop (k : string) (v : JsVal) (props : list (string * JsVal))
  : list (string * JsVal) :=
  match props with
  | [] => [(k, v)]
  | (k', v') :: rest =>
      if String.eqb k k' then (k, v) :: rest else (k', v') :: set_prop k v rest
  end.

(** [object.key] of any value; a property that is not there reads
    [undefined]. *)
Definition prop (k : string) (v : JsVal) : JsVal :=
  match v with
  | JObject props => default JUndefined (get_prop k props)
  | _ => JUndefined
  end.

(** lodash [merge(object, source)] on plain objects: source properties are
    merged into [object] recursively; a source property that is [undefined]
    is skipped when the key exists in [object]. *)
Fixpoint merge_props (object : list (string * JsVal)) (source : JsVal) {struct source}
  : list (string * JsVal) :=
  match source with
  | JObject sprops =>
      (fix go (object : list (string * JsVal)) (sps : list (string * JsVal)) {struct sps}
         : list (string * JsVal) :=
         match sps with
         | [] => object
         | (k, sv) :: rest =>
             go (match sv with
                 | JObject _ =>
                     set_prop k
                       (JObject (merge_props
                                   (match get_prop k object with
                                    | Some (JObject o) => o
                                    | _ => []
                                    end) sv))
                       object
                 | JUndefined =>
                     match get_prop k object with
                     | Some _ => object
                     | None => set_prop k JUndefined object
                     end
                 | _ => set_prop k sv object
                 end) rest
         end) object sprops
  | _ => object
  end.

(** One round of the loop of [merge_props]. *)
Definition merge_step (object : list (string * JsVal)) (k : string) (sv : JsVal)
  : list (string * JsVal) :=
  match sv with
  | JObject _ =>
      set_prop k
        (JObject (merge_props
                    (match get_prop k object with
                     | Some (JObject o) => o
                     | _ => []
                     end) sv))
        object
  | JUndefined =>
      match get_prop k object with
      | Some _ => object
      | None => set_prop k JUndefined object
      end
  | _ => set_prop k sv object
  end.

(** [merge({}, a, b)] *)
Definition merge (a b : JsVal) : JsVal :=
  JObject (merge_props (merge_props [] a) b).

Inductive Error :=
  | PaymentArgumentInvalidError (fields : list string)
  | OrderFinalizationNotRequiredError
  | NotInitializedError
  | ExternalError (tag : string).

(** Calls that leave the strategy: the risk client (vendor SDK) and the
    order service. *)
Inductive Call :=
  | RiskInitialize
  | GetRiskToken
  | SubmitOrder (order : JsVal)
  | SubmitPayment (payment : JsVal).

(** A method either throws or returns a promise. *)
Inductive Completion (A : Type) :=
  | Thrown (e : Error)
  | Returned (promise : Settled Error A).
Arguments Thrown {A} e.
Arguments Returned {A} promise.

(** What the collaborators answer, given the calls made so far; the risk
    client answers at once, with an exception ([inl], [Some]) or a value. *)
Record Env := {
  riskInitialize_answer : list Call -> option Error;
  getRiskToken_answer : list Call -> Error + string;
  submitOrder_answer : list Call -> JsVal -> Settled Error unit;
  submitPayment_answer : list Call -> JsVal -> Settled Error unit
}.

Definition Action (A : Type) : Type := Env -> list Call -> Completion A * list Call.

(** The third argument of [merge] in [execute]. *)
Definition riskTokenPatch (token : string) : JsVal :=
  JObject [("payment",
    JObject [("paymentData",
      JObject [("extraData",
        JObject [("riskToken", JString token)])])])].

Section Strategy.

(** The parent class, [CreditCardPaymentStrategy]. *)
Variable super_initialize : JsVal -> Action unit.
Variable super_execute : JsVal -> option JsVal -> Action unit.

Definition initialize (options : JsVal) : Action unit :=
  fun env h =>
    match riskInitialize_answer env h with
    | Some e => (Thrown e, [RiskInitialize])
    | None =>
        let '(r, t) := super_initialize options env (h ++ [RiskInitialize]) in
        (r, RiskInitialize :: t)
    end.

Definition execute (payload : JsVal) (options : option JsVal) : Action unit :=
  fun env h =>
    match getRiskToken_answer env h with
    | inl e => (Thrown e, [GetRiskToken])
    | inr token =>
        let payloadWithToken := merge payload (riskTokenPatch token) in
        let '(r, t) := super_execute payloadWithToken options env (h ++ [GetRiskToken]) in
        (r, GetRiskToken :: t)
    end.

End Strategy.

(** Modelled from the spec: [CreditCardPaymentStrategy.execute], the parent
    class's method, which is not under src. Section 4.1: execute validates
    that a payment payload is present (missing payment data: argument error)
    and submits the order, then the payment, to the order service. *)
Definition CreditCardPaymentStrategy_execute (payload : JsVal) (options : option JsVal)
  : Action unit :=
  fun env h =>
    match prop "payment" payload with
    | JUndefined | JNull => (Thrown (PaymentArgumentInvalidError ["payment"]), [])
    | payment =>
        match submitOrder_answer env h payload with
        | Resolved _ =>
            (Returned (submitPayment_answer env (h ++ [SubmitOrder payload]) payment),
             [SubmitOrder payload; SubmitPayment payment])
        | Rejected e => (Returned (Rejected e), [SubmitOrder payload])
        | Pending => (Returned Pending, [SubmitOrder payload])
        end
    end.

(** Modelled from the spec: [finalize] is inherited from the parent class,
    which is not under src. Sections 4.1 and 8: finalize always rejects with
    the finalization-not-required error. *)
Definition CreditCardPaymentStrategy_finalize : Action unit :=
  fun _ _ => (Returned (Rejected OrderFinalizationNotRequiredError), []).

(** [WepayPaymentStrategy] does not override [finalize]. *)
Definition finalize : Action unit := CreditCardPaymentStrategy_finalize.

(** *** Objects and paths *)

(** An object holds each key once, at every depth: what the list of
    properties of a JavaScript object always satisfies. *)
Fixpoint unique_keys (v : JsVal) : bool :=
  match v with
  | JObject props =>
      (fix go (ps : list (string * JsVal)) : bool :=
         match ps with
         | [] => true
         | (k, x) :: rest =>
             match get_prop k rest with
             | Some _ => false
             | None => unique_keys x && go rest
             end
         end) props
  | _ => true
  end.

Fixpoint JsVal_size (v : JsVal) : nat :=
  match v with
  | JObject props =>
      S ((fix go (ps : list (string * JsVal)) : nat :=
            match ps with
            | [] => 0
            | (_, x) :: rest => JsVal_size x + go rest
            end) props)
  | _ => 1
  end.

(** [v.k1.k2...] *)
Definition get_path (path : list string) (v : JsVal) : JsVal :=
  foldl (fun x k => prop k x) v path.

(** [{ k1: { k2: ... leaf } }] *)
Definition chain (path : list string) (leaf : JsVal) : JsVal :=
  foldr (fun k v => JObject [(k, v)]) leaf path.

Definition riskToken_path : list string :=
  ["payment"; "paymentData"; "extraData"; "riskToken"].

End Wepay.

(** ** The embedded checkout *)

Module EmbeddedCheckout.

(** *** Data *)

Inductive EmbeddedCheckoutEventType :=
  | CheckoutComplete | CheckoutError | CheckoutLoaded | FrameError | FrameLoaded | SignedOut.

Definition type_name (t : EmbeddedCheckoutEventType) : string :=
  match t with
  | CheckoutComplete => "CHECKOUT_COMPLETE"
  | CheckoutError => "CHECKOUT_ERROR"
  | CheckoutLoaded => "CHECKOUT_LOADED"
  | FrameError => "FRAME_ERROR"
  | FrameLoaded => "FRAME_LOADED"
  | SignedOut => "SIGNED_OUT"
  end.

Definition all_types : list EmbeddedCheckoutEventType :=
  [CheckoutComplete; CheckoutError; CheckoutLoaded; FrameError; FrameLoaded; SignedOut].

Global Instance EmbeddedCheckoutEventType_eq_dec : EqDecision EmbeddedCheckoutEventType.
Proof. solve_decision. Defined.

Inductive NotEmbeddableErrorType := MissingContainer | MissingContent | UnknownError.

Inductive Error :=
  | StandardError (message : string)
  | NotEmbeddableError (message : string) (subtype : NotEmbeddableErrorType)
  | InvalidLoginTokenError (message : string)
  | ForeignError (message : string)
  | TypeError (message : string)
  | NoReason.

Definition error_message (e : Error) : string :=
  match e with
  | StandardError m | NotEmbeddableError m _ | InvalidLoginTokenError m
  | ForeignError m | TypeError m => m
  | NoReason => ""
  end.

(** [new NotEmbeddableError(message, subtype)] *)
Definition new_NotEmbeddableError (message : string) (subtype : option NotEmbeddableErrorType)
  : Error :=
  NotEmbeddableError
    (if truthy_string message then message else "Unable to embed the checkout form.")
    (default UnknownError subtype).

(** [new InvalidLoginTokenError(response)]: the message is the title of the
    response body, or, when that is empty or missing, the default message of
    [RequestError]. *)
Definition new_InvalidLoginTokenError (title : string) : Error :=
  InvalidLoginTokenError
    (if truthy_string title then title else "An unexpected error has occurred.").

(** [error instanceof NotEmbeddableError && error.subtype === MissingContent] *)
Definition is_missing_content (e : Error) : bool :=
  match e with NotEmbeddableError _ MissingContent => true | _ => false end.

(** What [parseUrl] returns for an absolute URL. *)
Record Url := { href : string; origin : string; pathname : string }.

(** The data of a message: the events of the protocol, and whatever else
    arrives ([OtherData]: no payload; [type] is [None] when the data has no
    type property, as with the resizer's own string messages). Data that is
    [null], on which both handlers throw before they do anything, is left
    out. *)
Inductive EventData :=
  | CheckoutCompleteEvent
  | CheckoutErrorEvent (payload : Error)
  | CheckoutLoadedEvent
  | FrameErrorEvent (payload : Error)
  | FrameLoadedEvent (contentId : option string)
  | SignedOutEvent
  | OtherData (type : option string).

(** [data.type] *)
Definition data_type (d : EventData) : option string :=
  match d with
  | CheckoutCompleteEvent => Some (type_name CheckoutComplete)
  | CheckoutErrorEvent _ => Some (type_name CheckoutError)
  | CheckoutLoadedEvent => Some (type_name CheckoutLoaded)
  | FrameErrorEvent _ => Some (type_name FrameError)
  | FrameLoadedEvent _ => Some (type_name FrameLoaded)
  | SignedOutEvent => Some (type_name SignedOut)
  | OtherData t => t
  end.

(** [isIframeEvent(object, type)]: [object.type === type] *)
Definition isIframeEvent (d : EventData) (type : option string) : bool :=
  bool_decide (data_type d = type).

(** A value used as a property name: [undefined] names the property
    "undefined". *)
Definition property_key (t : option string) : string := default "undefined" t.

Definition recognized (t : option string) : bool :=
  match t with
  | Some s => bool_decide (s ∈ type_name <$> all_types)
  | None => false
  end.

Record MessageEvent := { msg_origin : string; msg_data : EventData }.

Record EmbeddedCheckoutOptions := {
  url : Url;
  containerId : string;
  styles : option string;
  onComplete : option nat;
  onError : option nat;
  onLoad : option nat;
  onFrameLoad : option nat;
  onSignOut : option nat
}.

(** The functions registered with the message listener: callbacks of the
    host page, named by a number, and the closure of the constructor that
    calls [_configureStyles]. *)
Inductive Listener :=
  | HostCallback (id : nat)
  | ConfigureStyles.

Global Instance Listener_eq_dec : EqDecision Listener.
Proof. solve_decision. Defined.

Record Resizer := { heightCalculationMethod : string; closed : bool }.

Record IFrame := {
  src : Url;
  display_none : bool;
  parentNode : option string;
  iFrameResizer : option Resizer
}.

(** Values in local storage, by what [JSON.parse] makes of the stored
    string; [Unparsable] makes it throw. *)
Inductive JsonValue :=
  | JsonNull | JsonBool (b : bool) | JsonNumber (n : Z) | JsonString (s : string) | JsonCompound.

Inductive Stored := Parsable (v : JsonValue) | Unparsable.

Definition truthy_json (v : JsonValue) : bool :=
  match v with
  | JsonNull => false
  | JsonBool b => b
  | JsonNumber n => negb (n =? 0)%Z
  | JsonString s => truthy_string s
  | JsonCompound => true
  end.

Definition truthy_item (o : option JsonValue) : bool :=
  match o with Some v => truthy_json v | None => false end.

(** What the host page and the network see. *)
Inductive Effect :=
  | Invoked (callback : nat) (event : EventData)
  | Posted (frame : nat) (targetOrigin : string) (styles : string)
  | IndicatorShown
  | IndicatorHidden
  | LocationReplaced (target : string)
  | HttpPost (target : string).

(** What stays fixed while the controller lives. *)
Record Page := {
  self : nat;
  options : EmbeddedCheckoutOptions;
  location_href : string;
  elements : gset string;
  creatorTimeout : option Z;
  encodeURIComponent : string -> string
}.

(** The mutable state: the controller and its collaborators, and the
    browser. *)
Record World := mkWorld {
  _isAttached : bool;
  _iframe : option nat;
  _isListening : bool;
  _listeners : gmap string (list Listener);
  _targetWindow : option nat;
  localStorage : gmap string Stored;
  frames : gmap nat IFrame;
  next_frame : nat;
  body_hidden : bool;
  effects : list Effect
}.

Definition set_isAttached (b : bool) (w : World) : World :=
  mkWorld b (_iframe w) (_isListening w) (_listeners w) (_targetWindow w)
    (localStorage w) (frames w) (next_frame w) (body_hidden w) (effects w).
Definition set_iframe (f : option nat) (w : World) : World :=
  mkWorld (_isAttached w) f (_isListening w) (_listeners w) (_targetWindow w)
    (localStorage w) (frames w) (next_frame w) (body_hidden w) (effects w).
Definition set_isListening (b : bool) (w : World) : World :=
  mkWorld (_isAttached w) (_iframe w) b (_listeners w) (_targetWindow w)
    (localStorage w) (frames w) (next_frame w) (body_hidden w) (effects w).
Definition set_listeners (l : gmap string (list Listener)) (w : World) : World :=
  mkWorld (_isAttached w) (_iframe w) (_isListening w) l (_targetWindow w)
    (localStorage w) (frames w) (next_frame w) (body_hidden w) (effects w).
Definition set_targetWindow (t : option nat) (w : World) : World :=
  mkWorld (_isAttached w) (_iframe w) (_isListening w) (_listeners w) t
    (localStorage w) (frames w) (next_frame w) (body_hidden w) (effects w).
Definition set_localStorage (s : gmap string Stored) (w : World) : World :=
  mkWorld (_isAttached w) (_iframe w) (_isListening w) (_listeners w) (_targetWindow w)
    s (frames w) (next_frame w) (body_hidden w) (effects w).
Definition set_frames (f : gmap nat IFrame) (w : World) : World :=
  mkWorld (_isAttached w) (_iframe w) (_isListening w) (_listeners w) (_targetWindow w)
    (localStorage w) f (next_frame w) (body_hidden w) (effects w).
Definition set_next_frame (n : nat) (w : World) : World :=
  mkWorld (_isAttached w) (_iframe w) (_isListening w) (_listeners w) (_targetWindow w)
    (localStorage w) (frames w) n (body_hidden w) (effects w).
Definition set_body_hidden (b : bool) (w : World) : World :=
  mkWorld (_isAttached w) (_iframe w) (_isListening w) (_listeners w) (_targetWindow w)
    (localStorage w) (frames w) (next_frame w) b (effects w).
Definition emit (e : Effect) (w : World) : World :=
  mkWorld (_isAttached w) (_iframe w) (_isListening w) (_listeners w) (_targetWindow w)
    (localStorage w) (frames w) (next_frame w) (body_hidden w) (effects w ++ [e]).

(** *** Promises over the world *)

Definition Promise (A : Type) : Type := World -> Settled Error A * World.

Definition resolve {A} (a : A) : Promise A := fun w => (Resolved a, w).

(** [p.then(k)] *)
Definition then_ {A B} (p : Promise A) (k : A -> Promise B) : Promise B :=
  fun w =>
    match p w with
    | (Resolved a, w') => k a w'
    | (Rejected e, w') => (Rejected e, w')
    | (Pending, w') => (Pending, w')
    end.

(** [p.catch(k)] *)
Definition catch_ {A} (p : Promise A) (k : Error -> Promise A) : Promise A :=
  fun w =>
    match p w with
    | (Resolved a, w') => (Resolved a, w')
    | (Rejected e, w') => k e w'
    | (Pending, w') => (Pending, w')
    end.

(** A method either throws or returns a promise. *)
Inductive Completion (A : Type) :=
  | Thrown (e : Error)
  | Returned (promise : Settled Error A).
Arguments Thrown {A} e.
Arguments Returned {A} promise.

(** A throw inside a [then] callback rejects the chain. *)
Definition settle {A} (c : Completion A) : Settled Error A :=
  match c with Thrown e => Rejected e | Returned p => p end.

(** *** BrowserStorage *)

Definition namespace : string := "BigCommerce.EmbeddedCheckout".

Definition withNamespace (key : string) : string := namespace +:+ "." +:+ key.

Definition removeItem (key : string) (w : World) : World :=
  set_localStorage (delete (withNamespace key) (localStorage w)) w.

(** When the stored string does not parse, the catch clause hands
    [removeItem] a key that already carries the namespace. *)
Definition getItem (key : string) (w : World) : option JsonValue * World :=
  match localStorage w !! withNamespace key with
  | None => (None, w)
  | Some (Parsable v) => (Some v, w)
  | Some Unparsable => (None, removeItem (withNamespace key) w)
  end.

Definition setItem (key : string) (v : JsonValue) (w : World) : World :=
  set_localStorage (<[withNamespace key := Parsable v]> (localStorage w)) w.

Definition getItemOnce (key : string) (w : World) : option JsonValue * World :=
  let '(e, w) := getItem key w in (e, removeItem key w).

Section Controller.

Variable page : Page.

(** *** IframeEventListener *)

Definition _sourceOrigin : string := origin (url (options page)).

Definition listen (w : World) : World :=
  if _isListening w then w else set_isListening true w.

Definition stopListen (w : World) : World :=
  if _isListening w then set_isListening false w else w.

Definition addListener (type : string) (l : Listener) (w : World) : World :=
  set_listeners (<[type := default [] (_listeners w !! type) ++ [l]]> (_listeners w)) w.

(** [indexOf] then [splice(i, 1)] *)
Fixpoint remove_first (l : Listener) (ls : list Listener) : list Listener :=
  match ls with
  | [] => []
  | x :: rest => if decide (x = l) then rest else x :: remove_first l rest
  end.

Definition removeListener (type : string) (l : Listener) (w : World) : World :=
  match _listeners w !! type with
  | Some n => set_listeners (<[type := remove_first l n]> (_listeners w)) w
  | None => w
  end.

(** *** IframeEventPoster *)

Definition setTarget (window : nat) (w : World) : World := set_targetWindow (Some window) w.

(** [post] of the style message; with no target window it throws, which
    [_configureStyles] never meets: it sets the target first. *)
Definition post (styles : string) (w : World) : World :=
  match _targetWindow w with
  | Some window => emit (Posted window _sourceOrigin styles) w
  | None => w
  end.

(** [iframe.contentWindow]: there while the element is in the document. *)
Definition contentWindow (f : nat) (w : World) : option nat :=
  match frames w !! f with
  | Some fr => match parentNode fr with Some _ => Some f | None => None end
  | None => None
  end.

(** *** EmbeddedCheckout._configureStyles *)

Definition _configureStyles (w : World) : World :=
  match _iframe w with
  | Some f =>
      match contentWindow f w with
      | Some window =>
          match styles (options page) with
          | Some st => post st (setTarget window w)
          | None => w
          end
      | None => w
      end
  | None => w
  end.

(** *** Dispatch *)

Definition call_listener (d : EventData) (w : World) (l : Listener) : World :=
  match l with
  | HostCallback id => emit (Invoked id d) w
  | ConfigureStyles => _configureStyles w
  end.

(** [trigger]: the listeners stored under [event.type], in the order of the
    array. (For a type that names a property of [Object.prototype] the code
    finds a function there and [forEach] throws; no listener is called
    either.) *)
Definition trigger (d : EventData) (w : World) : World :=
  match _listeners w !! property_key (data_type d) with
  | Some ls => foldl (call_listener d) w ls
  | None => w
  end.

Definition _handleMessage (e : MessageEvent) (w : World) : World :=
  if String.eqb (msg_origin e) _sourceOrigin
     && isIframeEvent (msg_data e) (data_type (msg_data e))
  then trigger (msg_data e) w
  else w.

(** A message event reaches [_handleMessage] while it is registered on the
    window. *)
Definition deliver (e : MessageEvent) (w : World) : World :=
  if _isListening w then _handleMessage e w else w.

(** *** LoadingIndicator *)

Definition show (parentId : string) (w : World) : Error + World :=
  if truthy_string parentId then
    if bool_decide (parentId ∈ elements page) then inr (emit IndicatorShown w)
    else inl (StandardError
                "Unable to attach the loading indicator because the parent ID is not valid.")
  else inr (emit IndicatorShown w).

Definition hide (w : World) : World := emit IndicatorHidden w.

(** *** ResizableIframeCreator *)

(** [void 0 === timeout ? 6e4 : timeout], in milliseconds *)
Definition timeout_ms : Z := default 60000%Z (creatorTimeout page).

Definition content_not_loaded : Error :=
  new_NotEmbeddableError
    "Unable to embed the iframe because the content could not be loaded." None.

Definition container_not_found : Error :=
  new_NotEmbeddableError
    "Unable to embed the iframe because the container element could not be found."
    (Some MissingContainer).

(** The element [createFrame] makes: hidden, under the container. *)
Definition new_frame (src : Url) (containerId : string) : IFrame :=
  {| src := src; display_none := true; parentNode := Some containerId;
     iFrameResizer := None |}.

Definition without_parent (fr : IFrame) : IFrame :=
  {| src := src fr; display_none := display_none fr; parentNode := None;
     iFrameResizer := iFrameResizer fr |}.

(** [iframe.style.display = ''] and [iframeResizer(options, iframe)] *)
Definition with_resizer (contentId : option string) (fr : IFrame) : IFrame :=
  {| src := src fr; display_none := false; parentNode := parentNode fr;
     iFrameResizer := Some {|
       heightCalculationMethod :=
         if truthy_opt_string contentId then "taggedElement" else "lowestElement";
       closed := false |} |}.

Definition with_closed_resizer (fr : IFrame) : IFrame :=
  {| src := src fr; display_none := display_none fr; parentNode := parentNode fr;
     iFrameResizer :=
       match iFrameResizer fr with
       | Some r => Some {| heightCalculationMethod := heightCalculationMethod r;
                           closed := true |}
       | None => None
       end |}.

Definition removeChild (f : nat) (w : World) : World :=
  set_frames (alter without_parent f (frames w)) w.

Definition install_resizer (f : nat) (contentId : option string) (w : World) : World :=
  set_frames (alter (with_resizer contentId) f (frames w)) w.

Definition close_resizer (f : nat) (w : World) : World :=
  set_frames (alter with_closed_resizer f (frames w)) w.

(** The message handler of [_toResizableFrame]: [None] leaves the promise
    waiting, [Some r] settles it (the handler and the timer are removed
    first). A frame-error message without a payload makes the handler throw
    after that removal, so the promise stays pending. *)
Definition on_frame_message (f : nat) (srcOrigin : string) (e : MessageEvent) (w : World)
  : option (Settled Error nat) * World :=
  if String.eqb (msg_origin e) srcOrigin then
    if isIframeEvent (msg_data e) (Some (type_name FrameError)) then
      match msg_data e with
      | FrameErrorEvent payload =>
          (Some (Rejected (new_NotEmbeddableError (error_message payload) (Some MissingContent))),
           w)
      | _ => (Some Pending, w)
      end
    else if isIframeEvent (msg_data e) (Some (type_name FrameLoaded)) then
      (Some (Resolved f),
       install_resizer f
         (match msg_data e with FrameLoadedEvent c => c | _ => None end) w)
    else (None, w)
  else (None, w).

(** The race of [_toResizableFrame]. [arrivals] are the message events in
    the order they reach the window, each with the time in milliseconds since
    the timer was set; the timer fires before the first message that arrives
    at or after [timeout], or when no message is left. Handlers registered on
    the window earlier ([_handleMessage]) see each message first. Messages
    after the promise has settled are not followed: when the timer fires the
    handler stays on the window, and what it does later it does to the
    element that [createFrame] has removed (a frame-loaded message displays
    that element again and gives it a resizer, out of the document). So of a
    later [createFrame] the model tells what becomes of the new element and
    of the elements in the document, not of the elements removed before. *)
Fixpoint _toResizableFrame (f : nat) (srcOrigin : string) (timeout : Z)
    (arrivals : list (Z * MessageEvent)) (w : World) : Settled Error nat * World :=
  match arrivals with
  | [] => (Rejected content_not_loaded, w)
  | (t, e) :: rest =>
      if (timeout <=? t)%Z then (Rejected content_not_loaded, w)
      else
        match on_frame_message f srcOrigin e (deliver e w) with
        | (Some r, w') => (r, w')
        | (None, w') => _toResizableFrame f srcOrigin timeout rest w'
        end
  end.

Definition createFrame (src : Url) (containerId : string)
    (arrivals : list (Z * MessageEvent)) (w : World) : Completion nat * World :=
  if bool_decide (containerId ∈ elements page) then
    let f := next_frame w in
    let w1 :=
      set_next_frame (S f) (set_frames (<[f := new_frame src containerId]> (frames w)) w) in
    match _toResizableFrame f (origin src) timeout_ms arrivals w1 with
    | (Rejected e, w2) => (Returned (Rejected e), removeChild f w2)
    | (r, w2) => (Returned r, w2)
    end
  else (Thrown container_not_found, w).

(** *** EmbeddedCheckout *)

(** What the surroundings do during one [attach]: the answer to the login
    request (rejected with the title of the response body) and the messages
    that arrive while the frame loads. *)
Record AttachEnv := {
  login_answer : Settled string Url;
  arrivals : list (Z * MessageEvent)
}.

Definition add_option_listener (t : EmbeddedCheckoutEventType) (callback : option nat)
    (w : World) : World :=
  match callback with
  | Some id => addListener (type_name t) (HostCallback id) w
  | None => w
  end.

(** The constructor, on a page whose local storage holds [storage]. *)
Definition construct (storage : gmap string Stored) : World :=
  let o := options page in
  addListener (type_name FrameLoaded) ConfigureStyles
    (add_option_listener SignedOut (onSignOut o)
      (add_option_listener FrameLoaded (onFrameLoad o)
        (add_option_listener CheckoutLoaded (onLoad o)
          (add_option_listener CheckoutError (onError o)
            (add_option_listener CheckoutComplete (onComplete o)
              (mkWorld false None false ∅ None storage ∅ 0 false [])))))).

Definition _attemptLogin (login : Settled string Url) : Promise Url :=
  fun w =>
    let u := url (options page) in
    if String.prefix "/login/token" (pathname u) then
      let w := emit (HttpPost (href u)) w in
      match login with
      | Resolved redirectUrl => (Resolved redirectUrl, w)
      | Rejected title => (Rejected (new_InvalidLoginTokenError title), w)
      | Pending => (Pending, w)
      end
    else (Resolved u, w).

Definition allow_cookie_url : string :=
  origin (url (options page)) +:+ "/embedded-checkout/allow-cookie?returnUrl="
    +:+ encodeURIComponent page (location_href page).

Definition _allowCookie : Promise unit :=
  fun w =>
    let '(allowed, w) := getItem "isCookieAllowed" w in
    if truthy_item allowed then
      (Resolved tt, setItem "canRetryAllowCookie" (JsonBool true) w)
    else
      let w := removeItem "canRetryAllowCookie" w in
      let w := setItem "isCookieAllowed" (JsonBool true) w in
      let w := set_body_hidden true w in
      let w := emit (LocationReplaced allow_cookie_url) w in
      (Pending, w).

Definition _retryAllowCookie (error : Error) : Promise unit :=
  fun w =>
    let '(canRetry, w) := getItem "canRetryAllowCookie" w in
    if truthy_item canRetry && is_missing_content error then
      _allowCookie (removeItem "isCookieAllowed" (removeItem "canRetryAllowCookie" w))
    else (Rejected NoReason, w).

(** The handler that [attach] gives to [catch]. *)
Definition on_attach_failure (e : Error) : Promise unit :=
  fun w =>
    catch_ (_retryAllowCookie e)
      (fun _ w => (Rejected e, hide (trigger (FrameErrorEvent e) w)))
      (set_isAttached false w).

(** The promise chain of [attach]. *)
Definition attach_chain (env : AttachEnv) : Promise nat :=
  then_
    (catch_
       (then_
          (then_
             (then_ _allowCookie (fun _ => _attemptLogin (login_answer env)))
             (fun u w =>
                let '(c, w') := createFrame u (containerId (options page)) (arrivals env) w in
                (settle c, w')))
          (fun f w => (Resolved tt, hide (_configureStyles (set_iframe (Some f) w)))))
       on_attach_failure)
    (fun _ => resolve (self page)).

Definition attach (env : AttachEnv) (w : World) : Completion nat * World :=
  if _isAttached w then (Returned (Resolved (self page)), w)
  else
    match show (containerId (options page)) (listen (set_isAttached true w)) with
    | inl e => (Thrown e, listen (set_isAttached true w))
    | inr w1 => let '(r, w2) := attach_chain env w1 in (Returned r, w2)
    end.

(** [detach] returns nothing; [Some e] is the exception it throws. Closing
    the resizer of an element that has none is a [TypeError]. *)
Definition detach (w : World) : option Error * World :=
  if _isAttached w then
    let w := stopListen (set_isAttached false w) in
    match _iframe w with
    | Some f =>
        match frames w !! f with
        | Some fr =>
            match parentNode fr with
            | Some _ =>
                match iFrameResizer fr with
                | Some _ => (None, close_resizer f (removeChild f w))
                | None =>
                    (Some (TypeError "Cannot read properties of undefined (reading 'close')"),
                     removeChild f w)
                end
            | None => (None, w)
            end
        | None => (None, w)
        end
    | None => (None, w)
    end
  else (None, w).

(** [embedCheckout(options)] on a freshly loaded page. (The creator it makes
    has no options: there [creatorTimeout page] is [None].) *)
Definition embedCheckout (storage : gmap string Stored) (env : AttachEnv)
  : Completion nat * World :=
  attach env (construct storage).

(** *** Sequences of calls *)

Inductive Op :=
  | Attach (env : AttachEnv)
  | Detach.

(** The caller makes its next call once [attach] has settled; an [attach]
    that stays pending ends the sequence. *)
Fixpoint run (ops : list Op) (w : World) : World :=
  match ops with
  | [] => w
  | Detach :: rest => run rest (detach w).2
  | Attach env :: rest =>
      match attach env w with
      | (Returned Pending, w') => w'
      | (_, w') => run rest w'
      end
  end.

(** *** Registrations *)

Inductive ListenerOp :=
  | AddListener (t : EmbeddedCheckoutEventType) (l : Listener)
  | RemoveListener (t : EmbeddedCheckoutEventType) (l : Listener).

Definition apply_op (w : World) (op : ListenerOp) : World :=
  match op with
  | AddListener t l => addListener (type_name t) l w
  | RemoveListener t l => removeListener (type_name t) l w
  end.

(** The listeners registered for [t] after [ops], oldest first: what the
    calls say, without the table of [IframeEventListener]. *)
Definition registered_step (t : EmbeddedCheckoutEventType) (acc : list Listener)
    (op : ListenerOp) : list Listener :=
  match op with
  | AddListener t' l => if decide (t' = t) then acc ++ [l] else acc
  | RemoveListener t' l => if decide (t' = t) then remove_first l acc else acc
  end.

Definition registered (t : EmbeddedCheckoutEventType) (ops : list ListenerOp)
  : list Listener :=
  foldl (registered_step t) [] ops.

(** The registrations the constructor of [EmbeddedCheckout] makes. *)
Definition constructor_ops : list ListenerOp :=
  let o := options page in
  let opt t (c : option nat) :=
    match c with Some id => [AddListener t (HostCallback id)] | None => [] end in
  opt CheckoutComplete (onComplete o) ++ opt CheckoutError (onError o)
  ++ opt CheckoutLoaded (onLoad o) ++ opt FrameLoaded (onFrameLoad o)
  ++ opt SignedOut (onSignOut o) ++ [AddListener FrameLoaded ConfigureStyles].

(** The iframe elements that are in the document. *)
Definition live_frames (w : World) : gmap nat IFrame :=
  filter (fun kv => is_Some (parentNode kv.2)) (frames w).

(** A message that the handler of [_toResizableFrame] acts on. *)
Definition decisive (srcOrigin : string) (e : MessageEvent) : bool :=
  String.eqb (msg_origin e) srcOrigin
  && (isIframeEvent (msg_data e) (Some (type_name FrameError))
      || isIframeEvent (msg_data e) (Some (type_name FrameLoaded))).

(** Messages that arrive before the timer fires and leave the promise
    waiting. *)
Definition quiet (srcOrigin : string) (timeout : Z) (arrivals : list (Z * MessageEvent))
  : Prop :=
  Forall (fun te => (te.1 < timeout)%Z /\ decisive srcOrigin te.2 = false) arrivals.

End Controller.

(** *** What the controller may do to the page *)

(** A callback is called with an event under whose type it is registered;
    styles are posted to the origin of the checkout; the page is sent to the
    allow-cookie address only; a request goes to the checkout URL, and only
    when that is a login URL. *)
Definition permitted (page : Page) (listeners : gmap string (list Listener)) (e : Effect)
  : bool :=
  match e with
  | Invoked id d =>
      bool_decide (HostCallback id ∈ default [] (listeners !! property_key (data_type d)))
  | Posted _ targetOrigin st =>
      bool_decide (targetOrigin = origin (url (options page)))
      && bool_decide (styles (options page) = Some st)
  | IndicatorShown | IndicatorHidden => true
  | LocationReplaced target => bool_decide (target = allow_cookie_url page)
  | HttpPost target =>
      bool_decide (target = href (url (options page)))
      && String.prefix "/login/token" (pathname (url (options page)))
  end.

(** [w'] comes from [w] by permitted effects; the listener is as it was. *)
Definition acts (page : Page) (w w' : World) : Prop :=
  _isListening w' = _isListening w /\ _listeners w' = _listeners w
  /\ exists l, effects w' = effects w ++ l
               /\ forallb (permitted page (_listeners w)) l = true.

(** The controller's iframe is an element that was created, and while it is
    in the document it has its resizer. *)
Definition iframe_ready (w : World) : Prop :=
  forall f, _iframe w = Some f ->
    (f < next_frame w)%nat
    /\ forall fr, frames w !! f = Some fr -> is_Some (parentNode fr) ->
         is_Some (iFrameResizer fr).

(** The callback of the options that the constructor registers for a type. *)
Definition callback_for (o : EmbeddedCheckoutOptions) (t : EmbeddedCheckoutEventType)
  : option nat :=
  match t with
  | CheckoutComplete => onComplete o
  | CheckoutError => onError o
  | CheckoutLoaded => onLoad o
  | FrameLoaded => onFrameLoad o
  | SignedOut => onSignOut o
  | FrameError => None
  end.

(** *** Invariant *)

(** The part of the world that frames and attachment depend on. *)
Definition view (w : World) : bool * option nat * nat * gmap nat IFrame :=
  (_isAttached w, _iframe w, next_frame w, frames w).

(** Every frame in the document is the controller's [_iframe], it has its
    resizer, and the controller is attached; frame numbers stay below
    [next_frame]. *)
Definition Inv (w : World) : Prop :=
  (forall f fr, frames w !! f = Some fr -> is_Some (parentNode fr) ->
     _isAttached w = true /\ _iframe w = Some f /\ is_Some (iFrameResizer fr))
  /\ (forall f, is_Some (frames w !! f) -> (f < next_frame w)%nat).

Definition at_most_one_live (w : World) : Prop :=
  forall f1 f2 fr1 fr2,
    frames w !! f1 = Some fr1 -> is_Some (parentNode fr1) ->
    frames w !! f2 = Some fr2 -> is_Some (parentNode fr2) -> f1 = f2.

Definition none_live (w : World) : Prop :=
  forall f fr, frames w !! f = Some fr -> parentNode fr = None.

End EmbeddedCheckout.

(** ** Two sentences as the specification words them *)

Module AsSpecified.
Import EmbeddedCheckout.

(** Section 4.2: with the flag unset the check arms the retry flag, sets the
    allowed flag and navigates, and never resolves; with the flag set it
    sets the retry flag and resolves without navigating. *)
Definition allowCookie_as_specified (page : Page) (w : World) : Prop :=
  let r := _allowCookie page w in
  if truthy_item (getItem "isCookieAllowed" w).1 then
    r.1 = Resolved tt
    /\ truthy_item (getItem "canRetryAllowCookie" r.2).1 = true
    /\ effects r.2 = effects w
  else
    r.1 = Pending
    /\ truthy_item (getItem "canRetryAllowCookie" r.2).1 = true
    /\ truthy_item (getItem "isCookieAllowed" r.2).1 = true
    /\ effects r.2 = effects w ++ [LocationReplaced (allow_cookie_url page)].

(** Section 8: with no payment in the request, execute fails with an
    argument-invalid error and nothing has left the strategy. *)
Definition wepay_rejects_before_any_call
    (super_execute : Wepay.JsVal -> option Wepay.JsVal -> Wepay.Action unit)
    (env : Wepay.Env) (h : list Wepay.Call) (props : list (string * Wepay.JsVal)) : Prop :=
  let r := Wepay.execute super_execute (Wepay.JObject props) None env h in
  r.2 = []
  /\ exists fields,
       r.1 = Wepay.Thrown (Wepay.PaymentArgumentInvalidError fields)
       \/ r.1 = Wepay.Returned (Rejected (Wepay.PaymentArgumentInvalidError fields)).

End AsSpecified.

(** ** Sample inputs *)

Module Samples.

(** *** SquareV2 *)

Definition isHostedInstrumentLike (d : option SquareV2.PaymentData) : bool :=
  match d with Some _ => true | None => false end.

Definition isVaultedInstrument (d : SquareV2.PaymentData) : bool :=
  match SquareV2.instrumentId d with Some _ => true | None => false end.

Definition square_selectors (card : option string) : SquareV2.Selectors :=
  {| SquareV2.getPaymentMethodOrThrow := fun _ =>
       inr {| SquareV2.initializationData := Some {| SquareV2.cardId := card |} |} |}.

Definition square_env (card : option string) : SquareV2.Env :=
  {| SquareV2.submitOrder_answer := fun _ => Resolved tt;
     SquareV2.tokenize_answer := fun _ => Resolved "cnon:card-nonce-ok";
     SquareV2.verifyBuyer_answer := fun _ _ _ => Resolved "verf:token";
     SquareV2.loadPaymentMethod_answer := fun _ _ _ => Resolved (square_selectors card);
     SquareV2.submitPayment_answer := fun _ _ => Resolved tt;
     SquareV2.storeFeatures := Some {[ SquareV2.feature_3ds := true ]} |}.

(** A checkout whose store configuration has not been loaded. *)
Definition square_env_without_config : SquareV2.Env :=
  {| SquareV2.submitOrder_answer := fun _ => Resolved tt;
     SquareV2.tokenize_answer := fun _ => Resolved "cnon:card-nonce-ok";
     SquareV2.verifyBuyer_answer := fun _ _ _ => Resolved "verf:token";
     SquareV2.loadPaymentMethod_answer := fun _ _ _ => Resolved (square_selectors None);
     SquareV2.submitPayment_answer := fun _ _ => Resolved tt;
     SquareV2.storeFeatures := None |}.

Definition vaulted_data : SquareV2.PaymentData :=
  {| SquareV2.instrumentId := Some "bigpay-123";
     SquareV2.shouldSaveInstrument := None;
     SquareV2.shouldSetAsDefaultInstrument := None |}.

Definition card_data : SquareV2.PaymentData :=
  {| SquareV2.instrumentId := None;
     SquareV2.shouldSaveInstrument := Some true;
     SquareV2.shouldSetAsDefaultInstrument := Some false |}.

Definition square_payment (d : SquareV2.PaymentData) : SquareV2.OrderPaymentRequestBody :=
  {| SquareV2.methodId := "squarev2"; SquareV2.gatewayId := None;
     SquareV2.paymentData := Some d |}.

Definition square_request (d : SquareV2.PaymentData) : SquareV2.OrderRequestBody :=
  {| SquareV2.useStoreCredit := Some false; SquareV2.payment := Some (square_payment d) |}.

Definition square_request_without_payment : SquareV2.OrderRequestBody :=
  {| SquareV2.useStoreCredit := Some false; SquareV2.payment := None |}.

(** The payment that [execute] submits for [card_data] with [square_env]. *)
Definition saved_card_payment : SquareV2.SubmittedPayment :=
  {| SquareV2.sp_methodId := "squarev2"; SquareV2.sp_gatewayId := None;
     SquareV2.sp_formattedPayload :=
       SquareV2.credit_card_token
         (SquareV2.VerifiedStoreNonce "cnon:card-nonce-ok" "cnon:card-nonce-ok"
            "verf:token" "verf:token") true false |}.

(** Two runs of [execute]: a card to be saved, and a vaulted instrument. *)
Definition saved_card_run : Settled SquareV2.Error unit * list SquareV2.Call :=
  SquareV2.execute isHostedInstrumentLike isVaultedInstrument (square_request card_data)
    (square_env None) [].

Definition vaulted_run : Settled SquareV2.Error unit * list SquareV2.Call :=
  SquareV2.execute isHostedInstrumentLike isVaultedInstrument (square_request vaulted_data)
    (square_env (Some "ccof:card-on-file")) [].

Definition square_init_options : SquareV2Initialization.PaymentInitializeOptions :=
  {| SquareV2Initialization.methodId := "squarev2";
     SquareV2Initialization.squarev2 :=
       Some {| SquareV2Initialization.containerId := Some "card-container" |} |}.

Definition square_init_env : SquareV2Initialization.Env :=
  {| SquareV2Initialization.getPaymentMethodOrThrow := fun _ =>
       inr {| SquareV2Initialization.config :=
                {| SquareV2Initialization.testMode := Some true |};
              SquareV2Initialization.initializationData :=
                Some {| SquareV2Initialization.applicationId := Some "sq0idp-app";
                        SquareV2Initialization.locationId := Some "LOC1" |} |};
     SquareV2Initialization.initialize_answer := fun _ _ _ _ => Resolved tt;
     SquareV2Initialization.initializeCard_answer := fun _ _ => Resolved tt;
     SquareV2Initialization.deinitialize_answer := fun _ => Resolved tt |}.

(** *** Wepay *)

Definition wepay_env : Wepay.Env :=
  {| Wepay.riskInitialize_answer := fun _ => None;
     Wepay.getRiskToken_answer := fun _ => inr "risk-token-1";
     Wepay.submitOrder_answer := fun _ _ => Resolved tt;
     Wepay.submitPayment_answer := fun _ _ => Resolved tt |}.

Definition wepay_payload_without_payment : list (string * Wepay.JsVal) :=
  [("useStoreCredit", Wepay.JBool false)].

(** A request whose payment carries a stale risk token. *)
Definition wepay_payload : list (string * Wepay.JsVal) :=
  [("useStoreCredit", Wepay.JBool false);
   ("payment",
    Wepay.JObject
      [("methodId", Wepay.JString "wepay");
       ("paymentData",
        Wepay.JObject
          [("ccNumber", Wepay.JString "4111111111111111");
           ("extraData", Wepay.JObject [("riskToken", Wepay.JString "stale")])])])].

(** *** The embedded checkout *)

Import EmbeddedCheckout.

Definition checkout_url : Url :=
  {| href := "https://store.example/checkout"; origin := "https://store.example";
     pathname := "/checkout" |}.

Definition checkout_options : EmbeddedCheckoutOptions :=
  {| url := checkout_url; containerId := "checkout"; styles := Some "body{}";
     onComplete := Some 1; onError := Some 2; onLoad := Some 3; onFrameLoad := Some 4;
     onSignOut := Some 5 |}.

Definition host_page : Page :=
  {| self := 7; options := checkout_options; location_href := "https://host.example/cart";
     elements := {[ "checkout" ]}; creatorTimeout := None;
     encodeURIComponent := fun s => s |}.

Definition frame_loaded : MessageEvent :=
  {| msg_origin := "https://store.example"; msg_data := FrameLoadedEvent None |}.

Definition frame_error : MessageEvent :=
  {| msg_origin := "https://store.example";
     msg_data := FrameErrorEvent (ForeignError "The cart is empty") |}.



Definition resizer_chatter : MessageEvent :=
  {| msg_origin := "https://store.example"; msg_data := OtherData None |}.

Definition stranger : MessageEvent :=
  {| msg_origin := "https://evil.example"; msg_data := FrameLoadedEvent None |}.

Definition loads : AttachEnv :=
  {| login_answer := Pending; arrivals := [(40%Z, resizer_chatter); (120%Z, frame_loaded)] |}.

Definition misses_content : AttachEnv :=
  {| login_answer := Pending; arrivals := [(120%Z, frame_error)] |}.

Definition never_loads : AttachEnv :=
  {| login_answer := Pending; arrivals := [(40%Z, resizer_chatter)] |}.

(** Local storage after the cookie redirect. *)
Definition cookie_allowed : gmap string Stored :=
  {[ withNamespace "isCookieAllowed" := Parsable (JsonBool true) ]}.

(** A page on which somebody listens for frame errors. *)
Definition with_error_listener (storage : gmap string Stored) : World :=
  addListener (type_name FrameError) (HostCallback 9) (construct host_page storage).

Definition bare_world : World := mkWorld false None false ∅ None ∅ ∅ 0 false [].

(** Local storage with an entry that does not parse. *)
Definition corrupted_world : World :=
  mkWorld false None false ∅ None {[ withNamespace "isCookieAllowed" := Unparsable ]}
    ∅ 0 false [].

Definition checkout_complete : MessageEvent :=
  {| msg_origin := "https://store.example"; msg_data := CheckoutCompleteEvent |}.

(** A checkout that is entered through a login token. *)
Definition login_url : Url :=
  {| href := "https://store.example/login/token/abc123";
     origin := "https://store.example"; pathname := "/login/token/abc123" |}.

Definition login_page : Page :=
  {| self := 7;
     options :=
       {| url := login_url; containerId := "checkout"; styles := None;
          onComplete := Some 1; onError := Some 2; onLoad := None; onFrameLoad := None;
          onSignOut := None |};
     location_href := "https://host.example/cart";
     elements := {[ "checkout" ]}; creatorTimeout := None;
     encodeURIComponent := fun s => s |}.

Definition login_rejected : AttachEnv :=
  {| login_answer := Rejected "The login token is not valid"; arrivals := [] |}.

(** The host page before the container element exists. *)
Definition page_without_container : Page :=
  {| self := 7; options := checkout_options; location_href := "https://host.example/cart";
     elements := ∅; creatorTimeout := None; encodeURIComponent := fun s => s |}.

(** The controller after an [attach] that resolved. *)
Definition attached_world : World :=
  (attach host_page loads (construct host_page cookie_allowed)).2.

Definition sample_registrations : list ListenerOp :=
  [AddListener FrameLoaded (HostCallback 4); AddListener CheckoutComplete (HostCallback 1);
   AddListener FrameLoaded (HostCallback 6); RemoveListener FrameLoaded (HostCallback 4);
   AddListener FrameLoaded (HostCallback 8)].

End Samples.

(** * Proofs *)

(** ** SquareV2PaymentStrategy *)

Module SquareV2Facts.
Import SquareV2.

Ltac unfold_async :=
  unfold execute, instrument_flags, _processWithVaultedInstrument, vaulted_payment,
    _getSquareCardIdOrThrow, _shouldVerify,
    finalize, submitOrder, tokenize, verifyBuyer, loadPaymentMethod, submitPayment,
    call, bind, ret, throw in *.

Ltac split_async := repeat (simpl in *; case_match; simplify_eq/=).

Ltac no_unit := repeat match goal with u : unit |- _ => destruct u end.

Lemma square_execute_without_payment hosted vaulted env h req :
  payment req = None ->
  execute hosted vaulted req env h = (Rejected (PaymentArgumentInvalidError ["payment"]), []).
Proof. intros H. unfold execute. rewrite H. reflexivity. Qed.

Lemma execute_vendor_after_order hosted vaulted env h req i c :
  (execute hosted vaulted req env h).2 !! i = Some c ->
  is_vendor_call c = true ->
  (execute hosted vaulted req env h).2 !! 0%nat = Some SubmitOrder
  /\ (0 < i)%nat
  /\ submitOrder_answer env h = Resolved tt.
Proof.
  unfold_async. intros Hi Hc.
  split_async;
    repeat (destruct i as [|i]; simplify_eq/=); try done;
    no_unit; rewrite ?app_nil_r in *; split_and!; (done || lia).
Qed.

Section Vaulted.

Variable hosted : option PaymentData -> bool.
Variable vaulted : PaymentData -> bool.
Variables (env : Env) (h : list Call) (req : OrderRequestBody).
Variables (p : OrderPaymentRequestBody) (d : PaymentData).
Hypothesis Hpayment : payment req = Some p.
Hypothesis Hdata : paymentData p = Some d.
Hypothesis Hvaulted : vaulted d = true.

Lemma vaulted_no_tokenize :
  Forall (fun c => is_tokenize c = false) (execute hosted vaulted req env h).2.
Proof.
  unfold_async. rewrite Hpayment, Hdata, Hvaulted.
  split_async; repeat constructor.
Qed.

Lemma vaulted_submits_bigpay sp :
  SubmitPayment sp ∈ (execute hosted vaulted req env h).2 ->
  sp_methodId sp = methodId p /\ sp_gatewayId sp = gatewayId p
  /\ exists three_d_secure vault set_default,
       sp_formattedPayload sp = bigpay_token (instrumentId d) three_d_secure vault set_default.
Proof.
  unfold_async. rewrite Hpayment, Hdata, Hvaulted.
  split_async; intros Hin;
    repeat (apply elem_of_cons in Hin as [Hin|Hin]; simplify_eq/=);
    try (by apply elem_of_nil in Hin);
    split_and!; eauto.
Qed.

Lemma vaulted_resolved_submitted :
  (execute hosted vaulted req env h).1 = Resolved tt ->
  exists sp, last (execute hosted vaulted req env h).2 = Some (SubmitPayment sp).
Proof.
  unfold_async. rewrite Hpayment, Hdata, Hvaulted.
  split_async; intros Hr; simplify_eq/=; eauto.
Qed.

Lemma vaulted_lookup_first features :
  submitOrder_answer env h = Resolved tt ->
  storeFeatures env = Some features ->
  features !! feature_3ds = Some true ->
  exists rest,
    (execute hosted vaulted req env h).2 =
      SubmitOrder :: LoadPaymentMethod (methodId p) (methodId p) (instrumentId d) :: rest
    /\ Forall (fun c => match c with
                        | VerifyBuyer _ _ | SubmitPayment _ => True
                        | _ => False
                        end) rest.
Proof.
  unfold_async. rewrite Hpayment, Hdata, Hvaulted.
  intros Ho Hs Hf.
  split_async; rewrite ?app_nil_r in *; simplify_eq/=;
    try (rewrite Hf in *; done); try congruence;
    (eexists; split; [reflexivity|]);
    repeat (constructor; simpl; try exact I).
Qed.

Lemma vaulted_without_cardId features state method :
  submitOrder_answer env h = Resolved tt ->
  storeFeatures env = Some features ->
  features !! feature_3ds = Some true ->
  loadPaymentMethod_answer env (h ++ [SubmitOrder]) (methodId p) (instrumentId d)
    = Resolved state ->
  getPaymentMethodOrThrow state (methodId p) = inr method ->
  truthy_opt_string (cardId_of method) = false ->
  execute hosted vaulted req env h =
    (Rejected (PaymentArgumentInvalidError ["cardId"]),
     [SubmitOrder; LoadPaymentMethod (methodId p) (methodId p) (instrumentId d)]).
Proof.
  unfold_async. rewrite Hpayment, Hdata, Hvaulted.
  intros Ho Hs Hf Hl Hg Hc.
  split_async; rewrite ?app_nil_r in *; simplify_eq/=;
    try (rewrite Hf in *; done); congruence.
Qed.

Let save : bool :=
  default false (if hosted (Some d) then shouldSaveInstrument d else Some false).
Let set_default : bool :=
  default false (if hosted (Some d) then shouldSetAsDefaultInstrument d else Some false).

Lemma vaulted_without_verification features :
  submitOrder_answer env h = Resolved tt ->
  storeFeatures env = Some features ->
  truthy_opt_bool (features !! feature_3ds) = false ->
  execute hosted vaulted req env h =
    (submitPayment_answer env (h ++ [SubmitOrder])
       (vaulted_payment p (instrumentId d) None save set_default),
     [SubmitOrder;
      SubmitPayment (vaulted_payment p (instrumentId d) None save set_default)]).
Proof.
  unfold_async. unfold vaulted_payment, instrument_flags, save, set_default.
  rewrite Hpayment, Hdata, Hvaulted.
  intros Ho Hs Hf.
  destruct (hosted (Some d)); simpl; rewrite ?app_nil_r, Ho; simpl;
    rewrite Hs, Hf; simpl; rewrite ?app_nil_r;
    by destruct (submitPayment_answer _ _ _).
Qed.

Lemma vaulted_with_verification features state method token :
  submitOrder_answer env h = Resolved tt ->
  storeFeatures env = Some features ->
  features !! feature_3ds = Some true ->
  loadPaymentMethod_answer env (h ++ [SubmitOrder]) (methodId p) (instrumentId d)
    = Resolved state ->
  getPaymentMethodOrThrow state (methodId p) = inr method ->
  truthy_opt_string (cardId_of method) = true ->
  verifyBuyer_answer env
    (h ++ [SubmitOrder; LoadPaymentMethod (methodId p) (methodId p) (instrumentId d)])
    (default "" (cardId_of method)) CHARGE = Resolved token ->
  let calls :=
    [SubmitOrder; LoadPaymentMethod (methodId p) (methodId p) (instrumentId d);
     VerifyBuyer (default "" (cardId_of method)) CHARGE] in
  execute hosted vaulted req env h =
    (submitPayment_answer env (h ++ calls)
       (vaulted_payment p (instrumentId d) (Some token) save set_default),
     calls
     ++ [SubmitPayment (vaulted_payment p (instrumentId d) (Some token) save set_default)]).
Proof.
  unfold_async. unfold vaulted_payment, instrument_flags, save, set_default.
  rewrite Hpayment, Hdata, Hvaulted.
  intros Ho Hs Hf Hl Hg Hc Hv.
  destruct (hosted (Some d)); simpl; rewrite ?app_nil_r, Ho; simpl;
    rewrite Hs, Hf; simpl; rewrite ?app_nil_r, Hl; simpl; rewrite Hg, Hc; simpl;
    rewrite ?app_nil_r, <- ?app_assoc; simpl; rewrite Hv; simpl;
    rewrite ?app_nil_r, <- ?app_assoc; simpl;
    by destruct (truthy_string token), (submitPayment_answer _ _ _).
Qed.

End Vaulted.

End SquareV2Facts.

(** ** WepayPaymentStrategy *)

Module WepayFacts.
Import Wepay.

Lemma merge_props_nil object : merge_props object (JObject []) = object.
Proof. reflexivity. Qed.

Lemma merge_props_cons object k sv rest :
  merge_props object (JObject ((k, sv) :: rest))
  = merge_props (merge_step object k sv) (JObject rest).
Proof. reflexivity. Qed.

Lemma get_set_prop_eq k v props : get_prop k (set_prop k v props) = Some v.
Proof.
  induction props as [|[k' v'] rest IH]; simpl.
  - by rewrite String.eqb_refl.
  - destruct (String.eqb_spec k k') as [->|Hne]; simpl.
    + by rewrite String.eqb_refl.
    + destruct (String.eqb_spec k k'); [done | exact IH].
Qed.

Lemma get_set_prop_ne k k' v props :
  k <> k' -> get_prop k (set_prop k' v props) = get_prop k props.
Proof.
  intros Hne. induction props as [|[k2 v2] rest IH]; simpl.
  - destruct (String.eqb_spec k k'); [done | reflexivity].
  - destruct (String.eqb_spec k' k2) as [->|Hne2]; simpl.
    + destruct (String.eqb_spec k k2); [done | reflexivity].
    + destruct (String.eqb_spec k k2); [reflexivity | exact IH].
Qed.

Lemma get_merge_step_ne k k' sv object :
  k <> k' -> get_prop k (merge_step object k' sv) = get_prop k object.
Proof.
  intros Hne. destruct sv; simpl; rewrite ?get_set_prop_ne by done; try done.
  destruct (get_prop k' object); [done | by rewrite get_set_prop_ne].
Qed.

Lemma prop_set_prop k v props : prop k (JObject (set_prop k v props)) = v.
Proof. unfold prop. by rewrite get_set_prop_eq. Qed.

(** [merge] adds no key that neither side has. *)
Lemma get_merge_props_None k sps : forall object,
  get_prop k object = None -> get_prop k sps = None ->
  get_prop k (merge_props object (JObject sps)) = None.
Proof.
  induction sps as [|[k' sv] rest IH]; intros object Ho Hs.
  - exact Ho.
  - rewrite merge_props_cons. simpl in Hs.
    destruct (String.eqb_spec k k') as [->|Hne]; [done|].
    apply IH; [by rewrite get_merge_step_ne | done].
Qed.

(** The token ends up under payment.paymentData.extraData.riskToken whatever
    the payload holds. *)
Lemma merge_riskToken props token :
  prop "riskToken"
    (prop "extraData"
       (prop "paymentData"
          (prop "payment" (merge (JObject props) (riskTokenPatch token)))))
  = JString token.
Proof.
  unfold merge, riskTokenPatch.
  rewrite merge_props_cons, merge_props_nil.
  unfold merge_step at 1. rewrite prop_set_prop.
  rewrite merge_props_cons, merge_props_nil.
  unfold merge_step at 1. rewrite prop_set_prop.
  rewrite merge_props_cons, merge_props_nil.
  unfold merge_step at 1. rewrite prop_set_prop.
  rewrite merge_props_cons, merge_props_nil.
  unfold merge_step at 1. by rewrite prop_set_prop.
Qed.

(** A payload without a payment reaches the parent with one: the object
    that holds only the token. *)
Lemma merge_absent_payment props token :
  get_prop "payment" props = None ->
  prop "payment" (merge (JObject props) (riskTokenPatch token))
  = JObject [("paymentData",
      JObject [("extraData", JObject [("riskToken", JString token)])])].
Proof.
  intros Habs. unfold merge, riskTokenPatch.
  rewrite merge_props_cons, merge_props_nil. unfold merge_step.
  rewrite (get_merge_props_None "payment" props [] eq_refl Habs).
  unfold prop. by rewrite get_set_prop_eq.
Qed.

Lemma execute_trace_head super payload options env h :
  (execute super payload options env h).2 !! 0%nat = Some GetRiskToken.
Proof.
  unfold execute. destruct (getRiskToken_answer env h); [done|].
  by destruct (super _ _ _ _).
Qed.

End WepayFacts.

(** ** The embedded checkout *)

Module EmbeddedCheckoutFacts.
Import EmbeddedCheckout.

(** *** Storage *)

Lemma key_allowed_retry : withNamespace "isCookieAllowed" <> withNamespace "canRetryAllowCookie".
Proof. by vm_compute. Qed.

Lemma key_twice_allowed k : withNamespace (withNamespace k) <> withNamespace "isCookieAllowed".
Proof. unfold withNamespace, namespace. simpl. intros H. simplify_eq. Qed.

(** Reading an item changes nothing but, for an unparsable item, the
    storage. *)
Lemma getItem_fields k w :
  let w' := (getItem k w).2 in
  _isAttached w' = _isAttached w /\ _iframe w' = _iframe w
  /\ _isListening w' = _isListening w /\ _listeners w' = _listeners w
  /\ _targetWindow w' = _targetWindow w /\ frames w' = frames w
  /\ next_frame w' = next_frame w /\ body_hidden w' = body_hidden w
  /\ effects w' = effects w.
Proof. unfold getItem. repeat case_match; simpl; done. Qed.

Lemma getItem_after_removeItem k w : (getItem k (removeItem k w)).1 = None.
Proof. unfold getItem, removeItem. simpl. by rewrite lookup_delete_eq. Qed.

(** The lookup that [getItem] leaves behind for the two flags. *)
Lemma getItem_storage_flag k k' w :
  withNamespace (withNamespace k) <> withNamespace k' ->
  localStorage (getItem k w).2 !! withNamespace k' = localStorage w !! withNamespace k'.
Proof.
  intros Hne. unfold getItem. repeat case_match; simpl; try done.
  by rewrite lookup_delete_ne.
Qed.

Section AllowCookie.

Variable page : Page.
Variable w : World.

Lemma allowCookie_unset :
  truthy_item (getItem "isCookieAllowed" w).1 = false ->
  let r := _allowCookie page w in
  r.1 = Pending
  /\ (getItem "canRetryAllowCookie" r.2).1 = None
  /\ (getItem "isCookieAllowed" r.2).1 = Some (JsonBool true)
  /\ body_hidden r.2 = true
  /\ effects r.2 = effects w ++ [LocationReplaced
       (origin (url (options page)) +:+ "/embedded-checkout/allow-cookie?returnUrl="
          +:+ encodeURIComponent page (location_href page))]
  /\ frames r.2 = frames w /\ _isAttached r.2 = _isAttached w.
Proof.
  intros Hunset. unfold _allowCookie.
  destruct (getItem_fields "isCookieAllowed" w) as (?&?&?&?&?&?&?&?&He).
  destruct (getItem "isCookieAllowed" w) as [allowed w0] eqn:Hget. simpl in *.
  rewrite Hunset. simpl.
  split_and!; try done.
  - unfold getItem, setItem, removeItem; simpl.
    rewrite lookup_insert_ne by (apply key_allowed_retry).
    by rewrite lookup_delete_eq.
  - unfold getItem, setItem; simpl. by rewrite lookup_insert_eq.
  - by rewrite He.
Qed.

Lemma allowCookie_set :
  truthy_item (getItem "isCookieAllowed" w).1 = true ->
  let r := _allowCookie page w in
  r.1 = Resolved tt
  /\ (getItem "canRetryAllowCookie" r.2).1 = Some (JsonBool true)
  /\ truthy_item (getItem "isCookieAllowed" r.2).1 = true
  /\ body_hidden r.2 = body_hidden w
  /\ effects r.2 = effects w
  /\ frames r.2 = frames w /\ _isAttached r.2 = _isAttached w.
Proof.
  intros Hset. unfold _allowCookie.
  destruct (getItem_fields "isCookieAllowed" w) as (?&?&?&?&?&?&?&?&He).
  assert (Hl := getItem_storage_flag "isCookieAllowed" "isCookieAllowed" w
                  (key_twice_allowed _)).
  destruct (getItem "isCookieAllowed" w) as [allowed w0] eqn:Hget. simpl in *.
  rewrite Hset. simpl.
  split_and!; try done.
  - unfold getItem, setItem; simpl. by rewrite lookup_insert_eq.
  - unfold getItem, setItem; simpl.
    rewrite lookup_insert_ne by (intros Heq; symmetry in Heq; by apply key_allowed_retry in Heq).
    rewrite Hl. unfold getItem in Hget.
    destruct (localStorage w !! withNamespace "isCookieAllowed") as [[v|]|];
      simplify_eq/=; done.
Qed.

End AllowCookie.

(** *** What an operation does to the frames and to the controller's flags *)

Section Views.

Variable page : Page.

Lemma view_getItem k w : view (getItem k w).2 = view w.
Proof. unfold getItem. by repeat case_match. Qed.

Lemma view_configureStyles w : view (_configureStyles page w) = view w.
Proof. unfold _configureStyles, post, setTarget. by repeat case_match. Qed.

Lemma view_call_listener d w l : view (call_listener page d w l) = view w.
Proof. destruct l; [done | apply view_configureStyles]. Qed.

Lemma view_foldl_listeners d ls : forall w,
  view (foldl (call_listener page d) w ls) = view w.
Proof.
  induction ls as [|l ls IH]; intros w; [done|].
  simpl. rewrite IH. apply view_call_listener.
Qed.

Lemma view_trigger d w : view (trigger page d w) = view w.
Proof. unfold trigger. case_match; [apply view_foldl_listeners | done]. Qed.

Lemma view_deliver e w : view (deliver page e w) = view w.
Proof.
  unfold deliver, _handleMessage. repeat case_match; try done; apply view_trigger.
Qed.

Lemma view_hide w : view (hide w) = view w.
Proof. reflexivity. Qed.

Lemma view_stopListen w : view (stopListen w) = view w.
Proof. unfold stopListen. by case_match. Qed.

Lemma view_install_resizer f c w :
  view (install_resizer f c w)
  = (_isAttached w, _iframe w, next_frame w, alter (with_resizer c) f (frames w)).
Proof. reflexivity. Qed.

(** What the handler of [_toResizableFrame] does with one message. *)
Lemma on_frame_message_cases f o e w :
  let r := on_frame_message f o e w in
  (r = (None, w) /\ decisive o e = false)
  \/ (decisive o e = true
      /\ ((exists r', r = (Some r', w) /\ is_resolved r' = false)
          \/ (exists c, r = (Some (Resolved f), install_resizer f c w)))).
Proof.
  unfold on_frame_message, decisive.
  destruct (String.eqb (msg_origin e) o); cbn [andb orb]; [|by left].
  destruct (isIframeEvent (msg_data e) (Some (type_name FrameError))); cbn [andb orb].
  - right. split; [done|]. left. destruct (msg_data e); eauto.
  - destruct (isIframeEvent (msg_data e) (Some (type_name FrameLoaded))); cbn [andb orb].
    + right. split; [done|]. right. eauto.
    + by left.
Qed.

Lemma toResizableFrame_view f o T arrivals : forall w,
  let r := _toResizableFrame page f o T arrivals w in
  (is_resolved r.1 = false /\ view r.2 = view w)
  \/ (r.1 = Resolved f
      /\ exists c, view r.2 = (_isAttached w, _iframe w, next_frame w,
                               alter (with_resizer c) f (frames w))).
Proof.
  induction arrivals as [|[t e] rest IH]; intros w; simpl; [by left|].
  case_match; [by left|].
  pose proof (view_deliver e w) as Hd.
  destruct (on_frame_message_cases f o e (deliver page e w))
    as [[-> _]|[_ [(r'&->&Hr')|(c&->)]]]; simpl.
  - destruct (IH (deliver page e w)) as [[Hr Hv]|(Hr&c&Hv)].
    + left. by rewrite Hv.
    + right. split; [done|]. exists c. rewrite Hv.
      unfold view in Hd. by injection Hd as -> -> -> ->.
  - left. done.
  - right. split; [done|]. exists c. rewrite view_install_resizer.
    unfold view in Hd. by injection Hd as -> -> -> ->.
Qed.

Lemma createFrame_view u cid arrivals w :
  let r := createFrame page u cid arrivals w in
  let n := next_frame w in
  ((cid ∉ elements page) /\ r = (Thrown container_not_found, w))
  \/ ((cid ∈ elements page)
      /\ ((exists e, r.1 = Returned (Rejected e)
            /\ view r.2 = (_isAttached w, _iframe w, S n,
                            <[n := without_parent (new_frame u cid)]> (frames w)))
          \/ (r.1 = Returned Pending
              /\ view r.2 = (_isAttached w, _iframe w, S n,
                              <[n := new_frame u cid]> (frames w)))
          \/ (r.1 = Returned (Resolved n)
              /\ exists c, view r.2 = (_isAttached w, _iframe w, S n,
                              <[n := with_resizer c (new_frame u cid)]> (frames w))))).
Proof.
  unfold createFrame. case_bool_decide; [right; split; [done|] | by left].
  match goal with |- context [_toResizableFrame page ?f ?o ?T arrivals ?w1] =>
    destruct (toResizableFrame_view f o T arrivals w1) as [[Hr Hv]|(Hr&c&Hv)];
    destruct (_toResizableFrame page f o T arrivals w1) as [[g|e|] w2] eqn:Hw
  end; simpl in *; try done.
  - left. exists e. split; [done|].
    unfold view in *. injection Hv as Ha Hi Hn Hf. simpl.
    by rewrite Ha, Hi, Hn, Hf, alter_insert_eq.
  - right; left. done.
  - right; right. simplify_eq. split; [done|]. exists c.
    by rewrite Hv, alter_insert_eq.
Qed.

Lemma view_attemptLogin l w : view (_attemptLogin page l w).2 = view w.
Proof. unfold _attemptLogin. by repeat case_match. Qed.

Lemma view_allowCookie w : view (_allowCookie page w).2 = view w.
Proof.
  unfold _allowCookie. pose proof (view_getItem "isCookieAllowed" w).
  destruct (getItem "isCookieAllowed" w). by case_match.
Qed.

Lemma view_retryAllowCookie e w : view (_retryAllowCookie page e w).2 = view w.
Proof.
  unfold _retryAllowCookie. pose proof (view_getItem "canRetryAllowCookie" w) as H.
  destruct (getItem "canRetryAllowCookie" w) as [c w0]. simpl in H.
  case_match; [|done]. by rewrite view_allowCookie.
Qed.

(** The retry navigates or declines: it never resolves. *)
Lemma retryAllowCookie_outcome e w :
  let r := _retryAllowCookie page e w in
  (r.1 = Pending /\ truthy_item (getItem "canRetryAllowCookie" w).1 = true
     /\ is_missing_content e = true
     /\ effects r.2 = effects w ++ [LocationReplaced (allow_cookie_url page)])
  \/ (r = (Rejected NoReason, (getItem "canRetryAllowCookie" w).2)
      /\ (truthy_item (getItem "canRetryAllowCookie" w).1 = false
          \/ is_missing_content e = false)).
Proof.
  unfold _retryAllowCookie.
  destruct (getItem_fields "canRetryAllowCookie" w) as (?&?&?&?&?&?&?&?&He).
  destruct (getItem "canRetryAllowCookie" w) as [c w0]. simpl in *.
  destruct (truthy_item c) eqn:Hc, (is_missing_content e) eqn:Hm; simpl;
    try (right; split; [done | by auto]).
  left. unfold _allowCookie.
  rewrite (surjective_pairing (getItem _ _)).
  rewrite (getItem_after_removeItem "isCookieAllowed"). simpl.
  destruct (getItem_fields "isCookieAllowed"
              (removeItem "isCookieAllowed" (removeItem "canRetryAllowCookie" w0)))
    as (?&?&?&?&?&?&?&?&He').
  split_and!; try done. simpl in *. by rewrite He', He.
Qed.

Lemma on_attach_failure_view e w :
  let r := on_attach_failure page e w in
  (r.1 = Pending \/ r.1 = Rejected e)
  /\ view r.2 = (false, _iframe w, next_frame w, frames w).
Proof.
  unfold on_attach_failure, catch_.
  pose proof (view_retryAllowCookie e (set_isAttached false w)) as Hv.
  destruct (retryAllowCookie_outcome e (set_isAttached false w)) as [(Hp&_)|[Hr _]].
  - destruct (_retryAllowCookie page e (set_isAttached false w)) as [r w1].
    simpl in *. subst r. split; [by left | done].
  - rewrite Hr. cbn [fst snd]. split; [by right|].
    by rewrite view_hide, view_trigger, view_getItem.
Qed.

Lemma attach_chain_view env w :
  let r := attach_chain page env w in
  let n := next_frame w in
  let cid := containerId (options page) in
  (r.1 = Pending /\ view r.2 = view w)
  \/ (is_resolved r.1 = false
      /\ view r.2 = (false, _iframe w, n, frames w))
  \/ (is_resolved r.1 = false
      /\ exists u, view r.2 = (false, _iframe w, S n,
                               <[n := without_parent (new_frame u cid)]> (frames w)))
  \/ (r.1 = Pending
      /\ exists u, view r.2 = (_isAttached w, _iframe w, S n,
                               <[n := new_frame u cid]> (frames w)))
  \/ (r.1 = Resolved (self page)
      /\ exists u c, view r.2 = (_isAttached w, Some n, S n,
                                 <[n := with_resizer c (new_frame u cid)]> (frames w))).
Proof.
  unfold attach_chain, then_, catch_, resolve.
  pose proof (view_allowCookie w) as H1.
  destruct (_allowCookie page w) as [[[]|e1|] w1]; simpl in H1.
  2:{ right; left. destruct (on_attach_failure_view e1 w1) as [Ho Hv].
      destruct (on_attach_failure page e1 w1) as [r w']. simpl in Ho, Hv.
      unfold view in H1. injection H1 as _ Hi Hn Hp.
      destruct Ho; subst r; simpl; (split; [done|]); by rewrite Hv, Hi, Hn, Hp. }
  2:{ left. done. }
  pose proof (view_attemptLogin (login_answer env) w1) as H2.
  destruct (_attemptLogin page (login_answer env) w1) as [[u|e2|] w2]; simpl in H2.
  2:{ right; left. destruct (on_attach_failure_view e2 w2) as [Ho Hv].
      destruct (on_attach_failure page e2 w2) as [r w']. simpl in Ho, Hv.
      rewrite H1 in H2. unfold view in H2. injection H2 as _ Hi Hn Hp.
      destruct Ho; subst r; simpl; (split; [done|]); by rewrite Hv, Hi, Hn, Hp. }
  2:{ left. simpl. by rewrite H2. }
  rewrite H1 in H2. unfold view in H2. injection H2 as Ha Hi Hn Hp.
  destruct (createFrame_view u (containerId (options page)) (arrivals env) w2)
    as [[_ Hr]|[_ [(e&Hr&Hv)|[[Hr Hv]|(Hr&c&Hv)]]]];
    destruct (createFrame page u (containerId (options page)) (arrivals env) w2)
      as [k w3]; simpl in Hr; try simpl in Hv; simplify_eq; simpl.
  - right; left. destruct (on_attach_failure_view container_not_found w2) as [Ho Hv].
    destruct (on_attach_failure page container_not_found w2) as [r w']. simpl in Ho, Hv.
    destruct Ho; subst r; simpl; (split; [done|]); by rewrite Hv, Hi, Hn, Hp.
  - right; right; left. destruct (on_attach_failure_view e w3) as [Ho Hv'].
    destruct (on_attach_failure page e w3) as [r w']. simpl in Ho, Hv'.
    unfold view in Hv. injection Hv as _ Hi3 Hn3 Hp3.
    destruct Ho; subst r; simpl; (split; [done|]); exists u;
      by rewrite Hv', Hi3, Hn3, Hp3, Hi, Hn, Hp.
  - right; right; right; left. split; [done|]. exists u. by rewrite Hv, Ha, Hi, Hn, Hp.
  - right; right; right; right. split; [done|]. exists u, c.
    rewrite view_hide.
    pose proof (view_configureStyles (set_iframe (Some (next_frame w2)) w3)) as Hc.
    rewrite Hc. unfold view in *. injection Hv as Ha3 _ Hn3 Hp3.
    simpl. by rewrite Ha3, Hn3, Hp3, Ha, Hn, Hp.
Qed.

End Views.

(** *** One frame at a time *)

Lemma Inv_at_most_one w : Inv w -> at_most_one_live w.
Proof.
  intros [H _] f1 f2 fr1 fr2 H1 L1 H2 L2.
  destruct (H _ _ H1 L1) as (_&E1&_). destruct (H _ _ H2 L2) as (_&E2&_). congruence.
Qed.

Lemma Inv_detached_none_live w : Inv w -> _isAttached w = false -> none_live w.
Proof.
  intros [H _] Ha f fr Hf. destruct (parentNode fr) eqn:Hp; [|done].
  destruct (H f fr Hf) as (?&_); [by rewrite Hp | congruence].
Qed.

Lemma size_live_frames w : at_most_one_live w -> (size (live_frames w) <= 1)%nat.
Proof.
  intros Hone. unfold live_frames.
  set (m := filter _ (frames w)).
  destruct (decide (m = ∅)) as [->|Hne]; [by rewrite map_size_empty; lia|].
  apply map_choose in Hne as (i & x & Hi).
  assert (m = {[ i := x ]}) as ->; [|by rewrite map_size_singleton].
  apply map_eq. intros j.
  destruct (decide (i = j)) as [->|Hij].
  - by rewrite lookup_singleton_eq.
  - rewrite lookup_singleton_ne by done.
    destruct (m !! j) as [y|] eqn:Hj; [|done].
    exfalso. apply Hij.
    apply map_lookup_filter_Some in Hi as [Hi Li].
    apply map_lookup_filter_Some in Hj as [Hj Lj]. simpl in *.
    by apply (Hone i j x y).
Qed.

Lemma none_live_empty w : none_live w -> live_frames w = ∅.
Proof.
  intros Hnone. unfold live_frames. apply map_empty. intros f.
  apply map_lookup_filter_None. right. intros fr Hf [c Hc]. simpl in *.
  rewrite (Hnone f fr Hf) in Hc. done.
Qed.

Section OneFrame.

Variable page : Page.

Lemma Inv_construct storage : Inv (construct page storage).
Proof.
  assert (frames (construct page storage) = ∅) as Hp.
  { unfold construct, add_option_listener, addListener.
    by repeat case_match. }
  split; intros f; rewrite Hp, lookup_empty; [done | by intros [? ?]].
Qed.

Lemma attach_inv env w :
  Inv w ->
  let r := attach page env w in
  (r.1 <> Returned Pending -> Inv r.2) /\ at_most_one_live r.2.
Proof.
  intros HI. unfold attach.
  destruct (_isAttached w) eqn:Ha; simpl.
  { split; [done | by apply Inv_at_most_one]. }
  pose proof (Inv_detached_none_live w HI Ha) as Hno.
  destruct HI as [_ Hfresh].
  set (w0 := listen (set_isAttached true w)).
  assert (view w0 = (true, _iframe w, next_frame w, frames w)) as Hv0.
  { unfold w0, listen. by case_match. }
  assert (forall w', frames w' = frames w -> next_frame w' = next_frame w -> Inv w')
    as Hsame.
  { intros w' Hf Hn. unfold Inv. rewrite Hf, Hn. split; [|done].
    intros f fr Hfr [c Hc]. rewrite (Hno f fr Hfr) in Hc. done. }
  destruct (show page (containerId (options page)) w0) as [e|w1] eqn:Hshow; simpl.
  { unfold view in Hv0. injection Hv0 as _ _ Hn Hf.
    split; [intros _|apply Inv_at_most_one]; by apply Hsame. }
  assert (view w1 = view w0) as Hv1.
  { unfold show in Hshow. repeat case_match; by simplify_eq. }
  rewrite Hv0 in Hv1.
  pose proof (attach_chain_view page env w1) as Hchain.
  destruct (attach_chain page env w1) as [r w2]. simpl in *.
  unfold view in Hv1. injection Hv1 as Ha1 Hi1 Hn1 Hp1.
  unfold view in Hchain. rewrite Ha1, Hi1, Hn1, Hp1 in Hchain.
  assert (forall (x : IFrame) f fr,
            <[next_frame w := x]> (frames w) !! f = Some fr -> is_Some (parentNode fr) ->
            f = next_frame w /\ fr = x) as Honly.
  { intros x f fr. destruct (decide (next_frame w = f)) as [->|Hne].
    - rewrite lookup_insert_eq. intros; by simplify_eq.
    - rewrite lookup_insert_ne by done. intros Hf [c Hc].
      rewrite (Hno f fr Hf) in Hc. done. }
  assert (forall (x : IFrame) f,
            is_Some (<[next_frame w := x]> (frames w) !! f) -> (f < S (next_frame w))%nat)
    as Hfresh'.
  { intros x f. destruct (decide (next_frame w = f)) as [->|Hne]; [lia|].
    rewrite lookup_insert_ne by done. intros Hf. apply Hfresh in Hf. lia. }
  destruct Hchain as [[Hr Hv]|[[Hr Hv]|[(Hr&u&Hv)|[(Hr&u&Hv)|(Hr&u&c&Hv)]]]];
    injection Hv as Ha2 Hi2 Hn2 Hf2.
  - subst r. split; [done|]. by apply Inv_at_most_one, Hsame.
  - split; [intros _|apply Inv_at_most_one]; by apply Hsame.
  - assert (Inv w2) as HI2.
    { unfold Inv. rewrite Hf2, Hn2. split; [|by apply Hfresh'].
      intros f fr Hf Hl. destruct (Honly _ _ _ Hf Hl) as [_ ->].
      by destruct Hl. }
    split; [done | by apply Inv_at_most_one].
  - subst r. split; [done|].
    unfold at_most_one_live. rewrite Hf2.
    intros f1 f2 fr1 fr2 H1 L1 H2 L2.
    destruct (Honly _ _ _ H1 L1) as [-> _]. by destruct (Honly _ _ _ H2 L2) as [-> _].
  - assert (Inv w2) as HI2.
    { unfold Inv. rewrite Hf2, Hn2, Ha2, Hi2. split; [|by apply Hfresh'].
      intros f fr Hf Hl. destruct (Honly _ _ _ Hf Hl) as [-> ->].
      split_and!; [done | done | by eexists]. }
    split; [done | by apply Inv_at_most_one].
Qed.

(** From a state that satisfies the invariant [detach] does not throw, and
    afterwards no frame is in the document. *)
Lemma detach_inv w :
  Inv w ->
  (detach w).1 = None /\ Inv (detach w).2 /\ none_live (detach w).2
  /\ _isAttached (detach w).2 = false.
Proof.
  intros HI. unfold detach. destruct (_isAttached w) eqn:Ha.
  2:{ simpl. split_and!; try done. by apply Inv_detached_none_live. }
  set (w1 := stopListen (set_isAttached false w)).
  assert (view w1 = (false, _iframe w, next_frame w, frames w)) as Hv1.
  { unfold w1. by rewrite view_stopListen. }
  unfold view in Hv1. injection Hv1 as Ha1 Hi1 Hn1 Hf1.
  destruct HI as [Hlive Hfresh].
  assert (forall w', frames w' = frames w -> next_frame w' = next_frame w ->
            _isAttached w' = false -> none_live w ->
            Inv w' /\ none_live w' /\ _isAttached w' = false) as Hsame.
  { intros w' Hf Hn Ha' Hnone. split_and!; [|by unfold none_live; rewrite Hf | done].
    unfold Inv. rewrite Hf, Hn. split; [|done].
    intros f fr Hfr [c Hc]. rewrite (Hnone f fr Hfr) in Hc. done. }
  rewrite Hi1, Hf1.
  destruct (_iframe w) as [f|] eqn:Hi.
  2:{ split; [done|]. apply Hsame; try done.
      intros g fr Hg. destruct (parentNode fr) eqn:Hp; [|done].
      destruct (Hlive g fr Hg) as (_&?&_); [by rewrite Hp | done]. }
  destruct (frames w !! f) as [fr|] eqn:Hf.
  2:{ split; [done|]. apply Hsame; try done.
      intros g fr Hg. destruct (parentNode fr) eqn:Hp; [|done].
      destruct (Hlive g fr Hg) as (_&?&_); [by rewrite Hp | congruence]. }
  destruct (parentNode fr) as [c0|] eqn:Hpar.
  2:{ split; [done|]. apply Hsame; try done.
      intros g fr' Hg. destruct (parentNode fr') eqn:Hp; [|done].
      destruct (Hlive g fr' Hg) as (_&?&_); [by rewrite Hp | congruence]. }
  destruct (Hlive f fr Hf) as (_&_&[rz Hrz]); [by rewrite Hpar|].
  rewrite Hrz. simpl.
  assert (forall g fr', alter with_closed_resizer f (alter without_parent f (frames w)) !! g
                        = Some fr' -> parentNode fr' = None) as Hnone.
  { intros g fr'. destruct (decide (f = g)) as [<-|Hne].
    - rewrite !lookup_alter_eq, Hf. simpl. intros; by simplify_eq.
    - rewrite !lookup_alter_ne by done.
      intros Hg. destruct (parentNode fr') eqn:Hp; [|done].
      destruct (Hlive g fr' Hg) as (_&?&_); [by rewrite Hp | congruence]. }
  split; [done|].
  assert (frames (close_resizer f (removeChild f w1))
          = alter with_closed_resizer f (alter without_parent f (frames w))) as Hf2.
  { simpl. by rewrite Hf1. }
  split_and!; [|by unfold none_live; rewrite Hf2|done].
  unfold Inv. rewrite Hf2. simpl next_frame. rewrite Hn1. split.
  - intros g fr' Hg [c Hc]. rewrite (Hnone g fr' Hg) in Hc. done.
  - intros g Hg. apply Hfresh. destruct (decide (f = g)) as [<-|Hne].
    + by rewrite Hf.
    + by rewrite !lookup_alter_ne in Hg by done.
Qed.

Lemma run_at_most_one ops : forall w, Inv w -> at_most_one_live (run page ops w).
Proof.
  induction ops as [|[env|] ops IH]; intros w HI; simpl.
  - by apply Inv_at_most_one.
  - destruct (attach_inv env w HI) as [Hnext Hone].
    destruct (attach page env w) as [[e|[g|e|]] w']; simpl in *;
      try (apply IH, Hnext; done). done.
  - by apply IH, detach_inv.
Qed.

End OneFrame.

(** *** The iframe creator *)

Section Creator.

Variable page : Page.

Lemma on_frame_message_idle f o e w :
  decisive o e = false -> on_frame_message f o e w = (None, w).
Proof.
  intros Hd. destruct (on_frame_message_cases f o e w) as [[H _]|[H _]]; [done|congruence].
Qed.

(** Messages that do not concern the frame only pass through the other
    handlers of the window. *)
Lemma toResizableFrame_quiet f o T pre rest : forall w,
  quiet o T pre ->
  _toResizableFrame page f o T (pre ++ rest) w
  = _toResizableFrame page f o T rest (foldl (fun w te => deliver page te.2 w) w pre).
Proof.
  induction pre as [|[t e] pre IH]; intros w Hq; [done|].
  apply Forall_cons in Hq as [[Ht Hd] Hq]. simpl in *.
  destruct (Z.leb_spec T t); [lia|].
  rewrite on_frame_message_idle by done. by apply IH.
Qed.




Lemma createFrame_outcome u cid arrivals w :
  cid ∈ elements page ->
  (createFrame page u cid arrivals w).1
  = Returned (_toResizableFrame page (next_frame w) (origin u) (timeout_ms page) arrivals
                (set_next_frame (S (next_frame w))
                   (set_frames (<[next_frame w := new_frame u cid]> (frames w)) w))).1.
Proof.
  intros Hc. unfold createFrame. rewrite bool_decide_true by done.
  by destruct (_toResizableFrame _ _ _ _ _ _) as [[]?].
Qed.

End Creator.

(** *** Dispatch *)

Lemma type_name_inj t t' : type_name t = type_name t' -> t = t'.
Proof. destruct t, t'; simpl; intros H; by simplify_eq. Qed.

Lemma recognized_spec s : recognized (Some s) = true <-> exists t, s = type_name t.
Proof.
  unfold recognized, all_types. rewrite bool_decide_eq_true. simpl.
  rewrite !elem_of_cons, elem_of_nil. split.
  - intros [->|[->|[->|[->|[->|[->|[]]]]]]];
      [by exists CheckoutComplete | by exists CheckoutError | by exists CheckoutLoaded
      | by exists FrameError | by exists FrameLoaded | by exists SignedOut].
  - intros [[] ->]; simpl; tauto.
Qed.

Lemma undefined_not_a_type t : property_key None <> type_name t.
Proof. by destruct t. Qed.

Section Dispatch.

Variable page : Page.

Lemma listeners_apply_op_other w op k :
  (forall t, k <> type_name t) ->
  _listeners (apply_op w op) !! k = _listeners w !! k.
Proof.
  intros Hk. destruct op as [t l|t l]; simpl.
  - unfold addListener. simpl. by rewrite lookup_insert_ne.
  - unfold removeListener. case_match; simpl; [|done]. by rewrite lookup_insert_ne.
Qed.

Lemma listeners_apply_op w op t :
  default [] (_listeners (apply_op w op) !! type_name t)
  = registered_step t (default [] (_listeners w !! type_name t)) op.
Proof.
  destruct op as [t' l|t' l]; simpl.
  - unfold addListener. simpl. case_decide as Ht.
    + subst. by rewrite lookup_insert_eq.
    + rewrite lookup_insert_ne; [done|]. intros Heq. by apply type_name_inj in Heq.
  - unfold removeListener. case_decide as Ht.
    + subst. destruct (_listeners w !! type_name t) eqn:Hl; simpl.
      * by rewrite lookup_insert_eq.
      * by rewrite Hl.
    + case_match; simpl; [|done].
      rewrite lookup_insert_ne; [done|]. intros Heq. by apply type_name_inj in Heq.
Qed.

Lemma foldl_registered_step t ops : forall acc w0,
  default [] (_listeners w0 !! type_name t) = acc ->
  default [] (_listeners (foldl apply_op w0 ops) !! type_name t)
  = foldl (registered_step t) acc ops.
Proof.
  induction ops as [|op ops IH]; intros acc w0 H0; [done|].
  simpl. apply IH. by rewrite listeners_apply_op, H0.
Qed.

(** The table of [IframeEventListener] holds, for each type, the listeners
    registered for it, in the order of registration. *)
Lemma listeners_registered w0 ops t :
  _listeners w0 = ∅ ->
  default [] (_listeners (foldl apply_op w0 ops) !! type_name t) = registered t ops.
Proof.
  intros H0. apply foldl_registered_step. by rewrite H0, lookup_empty.
Qed.

Lemma listeners_unrecognized w0 ops k :
  _listeners w0 = ∅ -> (forall t, k <> type_name t) ->
  _listeners (foldl apply_op w0 ops) !! k = None.
Proof.
  intros H0 Hk. revert w0 H0.
  assert (forall w, _listeners w !! k = None ->
            _listeners (foldl apply_op w ops) !! k = None) as Hgen.
  { induction ops as [|op ops IH]; intros w Hw; [done|].
    simpl. apply IH. by rewrite listeners_apply_op_other. }
  intros w0 H0. apply Hgen. by rewrite H0, lookup_empty.
Qed.

Lemma handleMessage_other_origin e w :
  msg_origin e <> _sourceOrigin page -> _handleMessage page e w = w.
Proof.
  intros Ho. unfold _handleMessage.
  destruct (String.eqb_spec (msg_origin e) (_sourceOrigin page)); [done|reflexivity].
Qed.

Lemma trigger_unrecognized w0 ops d :
  _listeners w0 = ∅ -> recognized (data_type d) = false ->
  trigger page d (foldl apply_op w0 ops) = foldl apply_op w0 ops.
Proof.
  intros H0 Hr. unfold trigger.
  rewrite (listeners_unrecognized w0 ops); [done|done|].
  intros t Ht. destruct (data_type d) as [s|] eqn:Hd.
  - simpl in Ht. subst s.
    assert (recognized (Some (type_name t)) = true) by (apply recognized_spec; eauto).
    congruence.
  - by apply undefined_not_a_type in Ht.
Qed.

Lemma handleMessage_recognized w0 ops e t :
  _listeners w0 = ∅ ->
  msg_origin e = _sourceOrigin page ->
  data_type (msg_data e) = Some (type_name t) ->
  _handleMessage page e (foldl apply_op w0 ops)
  = foldl (call_listener page (msg_data e)) (foldl apply_op w0 ops) (registered t ops).
Proof.
  intros H0 Ho Hd. unfold _handleMessage, isIframeEvent.
  rewrite Ho, String.eqb_refl, bool_decide_true by done. simpl.
  unfold trigger. rewrite Hd. simpl.
  rewrite <- (listeners_registered w0 ops t H0).
  by destruct (_listeners (foldl apply_op w0 ops) !! type_name t).
Qed.

Lemma foldl_host_callbacks d ids : forall w,
  effects (foldl (call_listener page d) w (HostCallback <$> ids))
  = effects w ++ ((fun id => Invoked id d) <$> ids).
Proof.
  induction ids as [|id ids IH]; intros w; simpl; [by rewrite app_nil_r|].
  rewrite IH. simpl. by rewrite <- app_assoc.
Qed.

Lemma construct_registrations storage :
  construct page storage
  = foldl apply_op (mkWorld false None false ∅ None storage ∅ 0 false [])
      (constructor_ops page).
Proof.
  unfold construct, constructor_ops, add_option_listener.
  by destruct (onComplete _), (onError _), (onLoad _), (onFrameLoad _), (onSignOut _).
Qed.

End Dispatch.

(** *** Failures of [attach] *)

Section Failures.

Variable page : Page.

Lemma getItem_set_isAttached k b w :
  (getItem k (set_isAttached b w)).1 = (getItem k w).1.
Proof. unfold getItem. simpl. by repeat case_match. Qed.

Lemma getItem_same_storage k w w' :
  localStorage w' = localStorage w -> (getItem k w').1 = (getItem k w).1.
Proof. intros H. unfold getItem. rewrite H. by repeat case_match. Qed.

(** What the handler of [catch] does with a failure [e]: with the retry flag
    truthy and [e] a missing-content error it runs the cookie redirect again,
    which never settles; otherwise it triggers the frame-error event with [e]
    as payload, hides the indicator and rejects with [e]. Either way the
    controller is detached. *)
Lemma on_attach_failure_cases e w :
  let r := on_attach_failure page e w in
  let retry := truthy_item (getItem "canRetryAllowCookie" w).1 && is_missing_content e in
  _isAttached r.2 = false
  /\ (retry = true ->
        r.1 = Pending
        /\ effects r.2 = effects w ++ [LocationReplaced (allow_cookie_url page)])
  /\ (retry = false ->
        r = (Rejected e,
             hide (trigger page (FrameErrorEvent e)
                     (getItem "canRetryAllowCookie" (set_isAttached false w)).2))).
Proof.
  pose proof (on_attach_failure_view page e w) as [_ Hv].
  split; [unfold view in Hv; by injection Hv|].
  unfold on_attach_failure, catch_.
  destruct (retryAllowCookie_outcome page e (set_isAttached false w))
    as [(Hp&Hc&Hm&He)|[Hr Hc]]; rewrite getItem_set_isAttached in Hc.
  - rewrite Hc, Hm. split; [intros _|done].
    destruct (_retryAllowCookie page e (set_isAttached false w)) as [r w1].
    simpl in *. by subst r.
  - split.
    + intros Hretry. destruct Hc as [Hc|Hc]; rewrite Hc in Hretry; [done|].
      by rewrite andb_false_r in Hretry.
    + intros _. by rewrite Hr.
Qed.

Lemma storage_configureStyles w : localStorage (_configureStyles page w) = localStorage w.
Proof. unfold _configureStyles, post, setTarget. by repeat case_match. Qed.

Lemma storage_foldl_listeners d ls : forall w,
  localStorage (foldl (call_listener page d) w ls) = localStorage w.
Proof.
  induction ls as [|l ls IH]; intros w; [done|].
  simpl. rewrite IH. destruct l; [done | apply storage_configureStyles].
Qed.

Lemma storage_deliver e w : localStorage (deliver page e w) = localStorage w.
Proof.
  unfold deliver, _handleMessage, trigger.
  repeat case_match; try done; apply storage_foldl_listeners.
Qed.

Lemma storage_toResizableFrame f o T arrivals : forall w,
  localStorage (_toResizableFrame page f o T arrivals w).2 = localStorage w.
Proof.
  induction arrivals as [|[t e] rest IH]; intros w; simpl; [done|].
  case_match; [done|].
  destruct (on_frame_message_cases f o e (deliver page e w))
    as [[-> _]|[_ [(r'&->&_)|(c&->)]]]; simpl;
    rewrite ?IH; apply storage_deliver.
Qed.

Lemma storage_createFrame u cid arrivals w :
  localStorage (createFrame page u cid arrivals w).2 = localStorage w.
Proof.
  unfold createFrame. case_bool_decide; [|done].
  match goal with |- context [_toResizableFrame page ?f ?o ?T arrivals ?w1] =>
    pose proof (storage_toResizableFrame f o T arrivals w1) as Hs;
    destruct (_toResizableFrame page f o T arrivals w1) as [[g|e|] w2]
  end; done.
Qed.

Lemma storage_attemptLogin l w : localStorage (_attemptLogin page l w).2 = localStorage w.
Proof. unfold _attemptLogin. by repeat case_match. Qed.

(** When the cookie check resolves, it has armed the retry flag. *)
Lemma allowCookie_settles w :
  let r := _allowCookie page w in
  r.1 = Pending
  \/ (r.1 = Resolved tt /\ (getItem "canRetryAllowCookie" r.2).1 = Some (JsonBool true)).
Proof.
  destruct (truthy_item (getItem "isCookieAllowed" w).1) eqn:Hset.
  - right. destruct (allowCookie_set page w Hset) as (?&?&_). done.
  - left. by destruct (allowCookie_unset page w Hset) as (?&_).
Qed.

(** So a missing-content failure is retried every time: the promise of
    [attach] never rejects with that error. *)
Lemma attach_chain_never_raises_missing_content env w e :
  (attach_chain page env w).1 = Rejected e -> is_missing_content e = false.
Proof.
  unfold attach_chain, then_, catch_, resolve.
  destruct (allowCookie_settles w) as [Hp|[Hr Harmed]];
    destruct (_allowCookie page w) as [[[]|e1|] w1]; simpl in *; try done.
  assert (forall w' e', localStorage w' = localStorage w1 ->
            (let r := on_attach_failure page e' w' in
             match r.1 with
             | Resolved _ => (Resolved (self page), r.2)
             | Rejected e0 => (Rejected e0, r.2)
             | Pending => (Pending, r.2)
             end).1 = Rejected e -> is_missing_content e = false) as Hfail.
  { intros w' e' Hs. simpl.
    destruct (on_attach_failure_cases e' w') as (_ & Hretry & Hraise).
    rewrite (getItem_same_storage _ w1 w' Hs), Harmed in Hretry, Hraise. simpl in *.
    destruct (is_missing_content e') eqn:Hm.
    - destruct (Hretry eq_refl) as [-> _]. done.
    - rewrite (Hraise eq_refl). simpl. intros; by simplify_eq. }
  pose proof (storage_attemptLogin (login_answer env) w1) as Hs2.
  destruct (_attemptLogin page (login_answer env) w1) as [[u|e2|] w2]; simpl in *.
  - pose proof (storage_createFrame u (containerId (options page)) (arrivals env) w2)
      as Hs3.
    destruct (createFrame page u (containerId (options page)) (arrivals env) w2)
      as [[e3|[g|e3|]] w3]; simpl in *; try done.
    + intros H. apply (Hfail w3 e3); [congruence|].
      simpl. by destruct (on_attach_failure page e3 w3) as [[]?].
    + intros H. apply (Hfail w3 e3); [congruence|].
      simpl. by destruct (on_attach_failure page e3 w3) as [[]?].
  - intros H. apply (Hfail w2 e2); [done|].
    simpl. by destruct (on_attach_failure page _ w2) as [[]?].
  - done.
Qed.

(** When the loading indicator does not find the container, [attach] throws
    before the promise chain exists: nothing reverts the attached flag. *)
Lemma attach_indicator_throws env w :
  _isAttached w = false ->
  truthy_string (containerId (options page)) = true ->
  containerId (options page) ∉ elements page ->
  exists e, attach page env w = (Thrown e, listen (set_isAttached true w))
            /\ _isAttached (attach page env w).2 = true.
Proof.
  intros Ha Hcid Hnot. unfold attach, show. rewrite Ha, Hcid, bool_decide_false by done.
  eexists. split; [reflexivity|]. simpl. unfold listen. by case_match.
Qed.

Lemma attach_never_raises_missing_content env w e :
  (attach page env w).1 = Returned (Rejected e) -> is_missing_content e = false.
Proof.
  unfold attach. destruct (_isAttached w); [done|].
  destruct (show page _ _) as [e0|w1]; [done|].
  pose proof (attach_chain_never_raises_missing_content env w1 e) as H.
  destruct (attach_chain page env w1) as [r w2]. simpl in *.
  intros Hr. apply H. congruence.
Qed.

End Failures.

End EmbeddedCheckoutFacts.

(** * The claims *)

(** ** The payment strategies *)

Module PaymentStrategies.
Import Samples.

(** C1, as amended. [SquareV2PaymentStrategy.execute] with no payment in the
    request rejects with the argument-invalid error for "payment" and calls
    nothing. [WepayPaymentStrategy.execute] always calls the risk client
    first; when that throws, execute throws and nothing else is called;
    otherwise it hands the request, merged with the risk token under
    payment.paymentData.extraData.riskToken, to the parent's execute, whose
    calls follow the call of the risk client: what validation there is, is
    the parent's, after the vendor call. *)
Theorem execute_without_payment :
  (forall hosted vaulted env h req,
     SquareV2.payment req = None ->
     SquareV2.execute hosted vaulted req env h
     = (Rejected (SquareV2.PaymentArgumentInvalidError ["payment"]), []))
  /\ (forall super payload options env h,
        (Wepay.execute super payload options env h).2 !! 0%nat = Some Wepay.GetRiskToken
        /\ (forall e, Wepay.getRiskToken_answer env h = inl e ->
              Wepay.execute super payload options env h
              = (Wepay.Thrown e, [Wepay.GetRiskToken]))
        /\ (forall token, Wepay.getRiskToken_answer env h = inr token ->
              Wepay.execute super payload options env h
              = (let r := super (Wepay.merge payload (Wepay.riskTokenPatch token)) options
                            env (h ++ [Wepay.GetRiskToken]) in
                 (r.1, Wepay.GetRiskToken :: r.2))
              /\ forall props, payload = Wepay.JObject props ->
                   Wepay.prop "riskToken"
                     (Wepay.prop "extraData"
                        (Wepay.prop "paymentData"
                           (Wepay.prop "payment"
                              (Wepay.merge payload (Wepay.riskTokenPatch token)))))
                   = Wepay.JString token)).
Proof.
  split; [apply SquareV2Facts.square_execute_without_payment|].
  intros super payload options env h. split_and!.
  - apply WepayFacts.execute_trace_head.
  - intros e He. unfold Wepay.execute. by rewrite He.
  - intros token Ht. split.
    + unfold Wepay.execute. rewrite Ht. by destruct (super _ _ _ _).
    + intros props ->. apply WepayFacts.merge_riskToken.
Qed.

Lemma execute_without_payment_witness :
  SquareV2.payment square_request_without_payment = None
  /\ SquareV2.execute isHostedInstrumentLike isVaultedInstrument
       square_request_without_payment (square_env None) []
     = (Rejected (SquareV2.PaymentArgumentInvalidError ["payment"]), []).
Proof.
  split; [reflexivity|].
  apply (proj1 execute_without_payment); reflexivity.
Defined.

(** C1 as stated fails for Wepay: on a request without a payment the risk
    client has been called before the parent's execute, whatever that does,
    gets to look at the request. *)
Lemma wepay_calls_before_validation :
  Wepay.get_prop "payment" wepay_payload_without_payment = None
  /\ ~ exists super,
        AsSpecified.wepay_rejects_before_any_call super wepay_env []
          wepay_payload_without_payment.
Proof.
  split; [reflexivity|].
  intros [super [Htrace _]].
  pose proof (WepayFacts.execute_trace_head super
                (Wepay.JObject wepay_payload_without_payment) None wepay_env []) as Hhead.
  rewrite Htrace in Hhead. discriminate.
Qed.

(** A defect, and no part of the amended claim: [merge] makes a payment
    object for a request that has none ([WepayFacts.merge_absent_payment]),
    so the check of the parent for a missing payment cannot fire on what it
    is given. With the parent as the specification describes it, that
    request is not rejected at all: the order and the payment are
    submitted. *)
Lemma wepay_without_payment_is_submitted :
  let r := Wepay.execute Wepay.CreditCardPaymentStrategy_execute
             (Wepay.JObject wepay_payload_without_payment) None wepay_env [] in
  r.1 = Wepay.Returned (Resolved tt)
  /\ exists order payment,
       r.2 = [Wepay.GetRiskToken; Wepay.SubmitOrder order; Wepay.SubmitPayment payment].
Proof. vm_compute. split; [reflexivity | by eexists _, _]. Qed.

(** C7. When the payment data is a vaulted instrument, execute never calls
    the tokenizer; every payment it submits is a bigpay_token payload for
    that instrument, and a run that resolves ended with that submission.
    With verification switched off, the order submission is followed at once
    by the submission of that payload. With verification switched on, the
    call after the order submission is the lookup by payment method and
    instrument id; when the method it returns has no initialization data, or
    initialization data with no card id or an empty one, execute rejects
    with the argument-invalid error for "cardId" and submits nothing; when
    the initialization data hold a card id, the buyer is verified for that
    card id with intent CHARGE and the payload is submitted with the
    verification token as its three_d_secure token. *)
Theorem vaulted_instrument_path hosted vaulted env h req p d :
  SquareV2.payment req = Some p ->
  SquareV2.paymentData p = Some d ->
  vaulted d = true ->
  let r := SquareV2.execute hosted vaulted req env h in
  let save :=
    default false (if hosted (Some d) then SquareV2.shouldSaveInstrument d else Some false) in
  let set_default :=
    default false
      (if hosted (Some d) then SquareV2.shouldSetAsDefaultInstrument d else Some false) in
  let lookup :=
    SquareV2.LoadPaymentMethod (SquareV2.methodId p) (SquareV2.methodId p)
      (SquareV2.instrumentId d) in
  Forall (fun c => SquareV2.is_tokenize c = false) r.2
  /\ (forall sp, SquareV2.SubmitPayment sp ∈ r.2 ->
        SquareV2.sp_methodId sp = SquareV2.methodId p
        /\ SquareV2.sp_gatewayId sp = SquareV2.gatewayId p
        /\ exists three_d_secure vault set_default,
             SquareV2.sp_formattedPayload sp
             = SquareV2.bigpay_token (SquareV2.instrumentId d) three_d_secure vault
                 set_default)
  /\ (r.1 = Resolved tt -> exists sp, last r.2 = Some (SquareV2.SubmitPayment sp))
  /\ (forall features,
        SquareV2.submitOrder_answer env h = Resolved tt ->
        SquareV2.storeFeatures env = Some features ->
        truthy_opt_bool (features !! SquareV2.feature_3ds) = false ->
        let sp :=
          {| SquareV2.sp_methodId := SquareV2.methodId p;
             SquareV2.sp_gatewayId := SquareV2.gatewayId p;
             SquareV2.sp_formattedPayload :=
               SquareV2.bigpay_token (SquareV2.instrumentId d) None save set_default |} in
        r = (SquareV2.submitPayment_answer env (h ++ [SquareV2.SubmitOrder]) sp,
             [SquareV2.SubmitOrder; SquareV2.SubmitPayment sp]))
  /\ (forall features,
        SquareV2.submitOrder_answer env h = Resolved tt ->
        SquareV2.storeFeatures env = Some features ->
        features !! SquareV2.feature_3ds = Some true ->
        (exists rest,
           r.2 = SquareV2.SubmitOrder :: lookup :: rest
           /\ Forall (fun c => match c with
                               | SquareV2.VerifyBuyer _ _ | SquareV2.SubmitPayment _ => True
                               | _ => False
                               end) rest)
        /\ (forall state method,
              SquareV2.loadPaymentMethod_answer env (h ++ [SquareV2.SubmitOrder])
                (SquareV2.methodId p) (SquareV2.instrumentId d) = Resolved state ->
              SquareV2.getPaymentMethodOrThrow state (SquareV2.methodId p) = inr method ->
              (SquareV2.initializationData method = None
               \/ (exists data,
                     SquareV2.initializationData method = Some data
                     /\ truthy_opt_string (SquareV2.cardId data) = false) ->
               r = (Rejected (SquareV2.PaymentArgumentInvalidError ["cardId"]),
                    [SquareV2.SubmitOrder; lookup]))
              /\ (forall data card token,
                    SquareV2.initializationData method = Some data ->
                    SquareV2.cardId data = Some card ->
                    truthy_string card = true ->
                    let verify := SquareV2.VerifyBuyer card SquareV2.CHARGE in
                    SquareV2.verifyBuyer_answer env (h ++ [SquareV2.SubmitOrder; lookup])
                      card SquareV2.CHARGE
                    = Resolved token ->
                    let sp :=
                      {| SquareV2.sp_methodId := SquareV2.methodId p;
                         SquareV2.sp_gatewayId := SquareV2.gatewayId p;
                         SquareV2.sp_formattedPayload :=
                           SquareV2.bigpay_token (SquareV2.instrumentId d)
                             (if truthy_string token then Some token else None)
                             save set_default |} in
                    r = (SquareV2.submitPayment_answer env
                           (h ++ [SquareV2.SubmitOrder; lookup; verify]) sp,
                         [SquareV2.SubmitOrder; lookup; verify; SquareV2.SubmitPayment sp])))).
Proof.
  intros Hp Hd Hv r save set_default lookup. subst r. split_and!.
  - by eapply SquareV2Facts.vaulted_no_tokenize.
  - intros sp. by eapply SquareV2Facts.vaulted_submits_bigpay.
  - by eapply SquareV2Facts.vaulted_resolved_submitted.
  - intros features Ho Hs Hf.
    by apply (SquareV2Facts.vaulted_without_verification hosted vaulted env h req p d
                Hp Hd Hv features).
  - intros features Ho Hs Hf. split.
    + by eapply SquareV2Facts.vaulted_lookup_first.
    + intros state method Hl Hg. split.
      * intros Hnone.
        apply (SquareV2Facts.vaulted_without_cardId hosted vaulted env h req p d
                 Hp Hd Hv features state method); try done.
        unfold SquareV2.cardId_of. by destruct Hnone as [->|(data & -> & Hc)].
      * intros data card token Hdata Hcard Hc verify Hvb.
        assert (SquareV2.cardId_of method = Some card) as Hid.
        { unfold SquareV2.cardId_of. by rewrite Hdata. }
        pose proof (SquareV2Facts.vaulted_with_verification hosted vaulted env h req p d
                      Hp Hd Hv features state method token Ho Hs Hf Hl Hg) as Hrun.
        rewrite Hid in Hrun. by apply Hrun.
Qed.

Lemma vaulted_instrument_path_witness :
  SquareV2.payment (square_request vaulted_data) = Some (square_payment vaulted_data)
  /\ isVaultedInstrument vaulted_data = true
  /\ vaulted_run
     = (Resolved tt,
        [SquareV2.SubmitOrder;
         SquareV2.LoadPaymentMethod "squarev2" "squarev2" (Some "bigpay-123");
         SquareV2.VerifyBuyer "ccof:card-on-file" SquareV2.CHARGE;
         SquareV2.SubmitPayment
           {| SquareV2.sp_methodId := "squarev2"; SquareV2.sp_gatewayId := None;
              SquareV2.sp_formattedPayload :=
                SquareV2.bigpay_token (Some "bigpay-123") (Some "verf:token")
                  false false |}])
  /\ SquareV2.execute isHostedInstrumentLike isVaultedInstrument
       (square_request vaulted_data) (square_env None) []
     = (Rejected (SquareV2.PaymentArgumentInvalidError ["cardId"]),
        [SquareV2.SubmitOrder;
         SquareV2.LoadPaymentMethod "squarev2" "squarev2" (Some "bigpay-123")]).
Proof.
  split; [reflexivity|]. split; [reflexivity|]. split.
  - refine (proj2 (proj2 (proj2 (proj2 (proj2 (proj2
      (vaulted_instrument_path isHostedInstrumentLike isVaultedInstrument
         (square_env (Some "ccof:card-on-file")) [] (square_request vaulted_data)
         (square_payment vaulted_data) vaulted_data eq_refl eq_refl eq_refl))))
         {[ SquareV2.feature_3ds := true ]} eq_refl eq_refl _)
         (square_selectors (Some "ccof:card-on-file")) _ eq_refl eq_refl)
         {| SquareV2.cardId := Some "ccof:card-on-file" |} "ccof:card-on-file"
         "verf:token" eq_refl eq_refl eq_refl eq_refl);
      reflexivity.
  - refine (proj1 (proj2 (proj2 (proj2 (proj2 (proj2
      (vaulted_instrument_path isHostedInstrumentLike isVaultedInstrument
         (square_env None) [] (square_request vaulted_data) (square_payment vaulted_data)
         vaulted_data eq_refl eq_refl eq_refl)))) {[ SquareV2.feature_3ds := true ]}
         eq_refl eq_refl _) (square_selectors None) _ eq_refl eq_refl) _);
      try reflexivity.
    right. eexists. split; reflexivity.
Defined.

(** C8. In [SquareV2PaymentStrategy.execute] every call of the tokenizer or
    of buyer verification comes after the order submission, which is the
    first call of the run and has resolved. *)
Theorem order_submitted_before_vendor_calls hosted vaulted env h req i c :
  (SquareV2.execute hosted vaulted req env h).2 !! i = Some c ->
  SquareV2.is_vendor_call c = true ->
  (SquareV2.execute hosted vaulted req env h).2 !! 0%nat = Some SquareV2.SubmitOrder
  /\ (0 < i)%nat
  /\ SquareV2.submitOrder_answer env h = Resolved tt.
Proof. apply SquareV2Facts.execute_vendor_after_order. Qed.

Lemma order_submitted_before_vendor_calls_witness :
  (SquareV2.execute isHostedInstrumentLike isVaultedInstrument (square_request card_data)
     (square_env None) []).2 !! 3%nat
  = Some (SquareV2.VerifyBuyer "cnon:card-nonce-ok" SquareV2.CHARGE)
  /\ (SquareV2.execute isHostedInstrumentLike isVaultedInstrument (square_request card_data)
        (square_env None) []).2 !! 0%nat = Some SquareV2.SubmitOrder
  /\ (0 < 3)%nat
  /\ SquareV2.submitOrder_answer (square_env None) [] = Resolved tt.
Proof.
  split; [reflexivity|].
  apply (order_submitted_before_vendor_calls isHostedInstrumentLike isVaultedInstrument
           (square_env None) [] (square_request card_data) 3
           (SquareV2.VerifyBuyer "cnon:card-nonce-ok" SquareV2.CHARGE));
    reflexivity.
Defined.

(** C9. [finalize] rejects with the finalization-not-required error and
    calls nothing, whatever the collaborators and the calls made before: for
    [SquareV2PaymentStrategy], and for [WepayPaymentStrategy], which inherits
    the method. *)
Theorem finalize_always_rejects :
  (forall env h,
     SquareV2.finalize env h = (Rejected SquareV2.OrderFinalizationNotRequiredError, []))
  /\ (forall env h,
        Wepay.finalize env h
        = (Wepay.Returned (Rejected Wepay.OrderFinalizationNotRequiredError), [])).
Proof. split; reflexivity. Qed.

End PaymentStrategies.

(** ** The embedded checkout *)

Module EmbeddedCheckoutClaims.
Import EmbeddedCheckout EmbeddedCheckoutFacts Samples.

(** C2, as amended. When [getItem("isCookieAllowed")] is not truthy,
    [_allowCookie] removes the retry flag, sets the allowed flag, hides the
    body, replaces the location of the host page by the allow-cookie URL of
    the checkout origin with the page's address as return URL, and returns a
    promise that never settles. When it is truthy, [_allowCookie] sets the
    retry flag and resolves; it does not navigate. *)
Theorem allowCookie_branches page w :
  (truthy_item (getItem "isCookieAllowed" w).1 = false ->
     let r := _allowCookie page w in
     r.1 = Pending
     /\ (getItem "canRetryAllowCookie" r.2).1 = None
     /\ (getItem "isCookieAllowed" r.2).1 = Some (JsonBool true)
     /\ body_hidden r.2 = true
     /\ effects r.2 = effects w ++ [LocationReplaced
          (origin (url (options page)) +:+ "/embedded-checkout/allow-cookie?returnUrl="
             +:+ encodeURIComponent page (location_href page))]
     /\ frames r.2 = frames w /\ _isAttached r.2 = _isAttached w)
  /\ (truthy_item (getItem "isCookieAllowed" w).1 = true ->
        let r := _allowCookie page w in
        r.1 = Resolved tt
        /\ (getItem "canRetryAllowCookie" r.2).1 = Some (JsonBool true)
        /\ truthy_item (getItem "isCookieAllowed" r.2).1 = true
        /\ body_hidden r.2 = body_hidden w
        /\ effects r.2 = effects w
        /\ frames r.2 = frames w /\ _isAttached r.2 = _isAttached w).
Proof. split; [apply allowCookie_unset | apply allowCookie_set]. Qed.

Lemma allowCookie_branches_witness :
  truthy_item (getItem "isCookieAllowed" (construct host_page ∅)).1 = false
  /\ (_allowCookie host_page (construct host_page ∅)).1 = Pending
  /\ (getItem "canRetryAllowCookie" (_allowCookie host_page (construct host_page ∅)).2).1
     = None.
Proof.
  assert (truthy_item (getItem "isCookieAllowed" (construct host_page ∅)).1 = false)
    as Hunset by (by vm_compute).
  split; [exact Hunset|].
  pose proof (proj1 (allowCookie_branches host_page (construct host_page ∅)) Hunset) as H.
  split; [exact (proj1 H) | exact (proj1 (proj2 H))].
Defined.

(** C2 as stated fails: on a first visit, where nothing is stored, the retry
    flag is not armed after the check. *)
Lemma allowCookie_unset_does_not_arm_retry :
  ~ AsSpecified.allowCookie_as_specified host_page (construct host_page ∅).
Proof.
  unfold AsSpecified.allowCookie_as_specified.
  intros H. vm_compute in H. destruct H as (_ & H & _). discriminate.
Qed.

(** C3, the code at the failing input. The page is loaded after the cookie
    redirect and the frame reports missing content: [attach] retries the
    redirect. The storage it leaves is the storage it found, so the next
    load, failing in the same way, retries again: the second failure is not
    raised to the caller and the indicator stays; the listener for frame
    errors sees the message of the frame, and no event that carries the
    failure. *)
Theorem second_missing_content_failure_is_retried :
  let first := attach host_page misses_content (with_error_listener cookie_allowed) in
  let second :=
    attach host_page misses_content (with_error_listener (localStorage first.2)) in
  let redirect :=
    LocationReplaced
      "https://store.example/embedded-checkout/allow-cookie?returnUrl=https://host.example/cart" in
  first.1 = Returned Pending
  /\ effects first.2
     = [IndicatorShown; Invoked 9 (FrameErrorEvent (ForeignError "The cart is empty"));
        redirect]
  /\ map_to_list (localStorage first.2) = map_to_list cookie_allowed
  /\ second.1 = Returned Pending
  /\ effects second.2 = effects first.2
  /\ _isAttached second.2 = false.
Proof. cbv zeta. split_and!; vm_compute; reflexivity. Qed.

(** C4. Calling [attach] on an attached controller resolves with the
    controller and changes nothing, so no iframe is created; and whatever
    calls of [attach] and [detach] follow the constructor, each made when
    the one before has settled, at most one iframe of the controller is in
    the document. *)
Theorem attach_idempotent_one_frame page :
  (forall env w,
     _isAttached w = true -> attach page env w = (Returned (Resolved (self page)), w))
  /\ (forall storage ops,
        (size (live_frames (run page ops (construct page storage))) <= 1)%nat).
Proof.
  split.
  - intros env w Ha. unfold attach. by rewrite Ha.
  - intros storage ops. apply size_live_frames, run_at_most_one, Inv_construct.
Qed.

Lemma attach_idempotent_one_frame_witness :
  _isAttached (attach host_page loads (construct host_page cookie_allowed)).2 = true
  /\ attach host_page never_loads (attach host_page loads (construct host_page cookie_allowed)).2
     = (Returned (Resolved 7), (attach host_page loads (construct host_page cookie_allowed)).2).
Proof.
  split; [by vm_compute|].
  apply (proj1 (attach_idempotent_one_frame host_page)). by vm_compute.
Defined.



(** C6. With the listeners registered through [addListener] and
    [removeListener], [_handleMessage] calls no listener for a message from
    another origin, nor for data whose type is none of the six event types;
    a message from the source origin with one of these types is passed to
    the listeners registered for that type, oldest registration first. *)
Theorem handleMessage_dispatch page w0 ops e :
  _listeners w0 = ∅ ->
  let w := foldl apply_op w0 ops in
  (msg_origin e <> _sourceOrigin page -> _handleMessage page e w = w)
  /\ (recognized (data_type (msg_data e)) = false -> _handleMessage page e w = w)
  /\ (forall t,
        msg_origin e = _sourceOrigin page ->
        data_type (msg_data e) = Some (type_name t) ->
        _handleMessage page e w
        = foldl (call_listener page (msg_data e)) w (registered t ops)
        /\ forall ids, registered t ops = HostCallback <$> ids ->
             effects (_handleMessage page e w)
             = effects w ++ ((fun id => Invoked id (msg_data e)) <$> ids)).
Proof.
  intros H0 w. split_and!.
  - apply handleMessage_other_origin.
  - intros Hr. unfold _handleMessage. case_match; [|done].
    by apply trigger_unrecognized.
  - intros t Ho Hd.
    pose proof (handleMessage_recognized page w0 ops e t H0 Ho Hd) as Hh.
    split; [done|]. intros ids Hids. fold w in Hh. rewrite Hh, Hids.
    apply foldl_host_callbacks.
Qed.

Lemma handleMessage_dispatch_witness :
  _listeners bare_world = ∅
  /\ effects (_handleMessage host_page frame_loaded
                (foldl apply_op bare_world sample_registrations))
     = [Invoked 6 (FrameLoadedEvent None); Invoked 8 (FrameLoadedEvent None)]
  /\ _handleMessage host_page stranger (foldl apply_op bare_world sample_registrations)
     = foldl apply_op bare_world sample_registrations.
Proof.
  split; [reflexivity|]. split.
  - refine (proj2 (proj2 (proj2
      (handleMessage_dispatch host_page bare_world sample_registrations frame_loaded
         eq_refl)) FrameLoaded eq_refl eq_refl) [6; 8] eq_refl).
  - refine (proj1
      (handleMessage_dispatch host_page bare_world sample_registrations stranger eq_refl)
      _).
    discriminate.
Defined.

(** C10. On a controller that is not attached [detach] does nothing and
    throws nothing. On an attached one it clears the attached flag and stops
    the listener, and when the controller's iframe is in the document it
    takes it out and closes its resizer. After an [embedCheckout] that
    resolved this is the case: [detach] does not throw, no iframe is left in
    the document, and the listener is stopped. *)
Theorem detach_behaviour :
  (forall w, _isAttached w = false -> detach w = (None, w))
  /\ (forall w,
        _isAttached w = true ->
        _isAttached (detach w).2 = false
        /\ _isListening (detach w).2 = false
        /\ forall f fr c rz,
             _iframe w = Some f -> frames w !! f = Some fr ->
             parentNode fr = Some c -> iFrameResizer fr = Some rz ->
             (detach w).1 = None
             /\ frames (detach w).2
                = <[f := with_closed_resizer (without_parent fr)]> (frames w)
             /\ parentNode (with_closed_resizer (without_parent fr)) = None
             /\ iFrameResizer (with_closed_resizer (without_parent fr))
                = Some {| heightCalculationMethod := heightCalculationMethod rz;
                          closed := true |})
  /\ (forall page storage env,
        (embedCheckout page storage env).1 = Returned (Resolved (self page)) ->
        let w := (embedCheckout page storage env).2 in
        _isAttached w = true
        /\ (detach w).1 = None
        /\ live_frames (detach w).2 = ∅
        /\ _isListening (detach w).2 = false).
Proof.
  split_and!.
  - intros w Ha. unfold detach. by rewrite Ha.
  - intros w Ha. unfold detach. rewrite Ha. cbv zeta.
    assert (_isListening (stopListen (set_isAttached false w)) = false
            /\ _isAttached (stopListen (set_isAttached false w)) = false
            /\ frames (stopListen (set_isAttached false w)) = frames w
            /\ _iframe (stopListen (set_isAttached false w)) = _iframe w)
      as (Hl & Ha1 & Hf & Hi).
    { unfold stopListen. simpl. destruct (_isListening w) eqn:E; simpl; by rewrite ?E. }
    generalize dependent (stopListen (set_isAttached false w)). intros w1 Hl Ha1 Hf Hi.
    rewrite Hf, Hi. split_and!.
    + by repeat case_match.
    + by repeat case_match.
    + intros f fr c rz Hif Hfr Hp Hr. rewrite Hif, Hfr, Hp, Hr. simpl.
      split_and!; [done| |done|by rewrite Hr].
      rewrite Hf. apply map_eq. intros g.
      destruct (decide (f = g)) as [<-|Hne].
      * rewrite !lookup_alter_eq, lookup_insert_eq.
        by rewrite Hfr.
      * by rewrite !lookup_alter_ne, lookup_insert_ne.
  - intros page storage env Hres w.
    pose proof (attach_inv page env (construct page storage) (Inv_construct page storage))
      as [HI _].
    fold (embedCheckout page storage env) in HI. fold w in HI.
    assert (Inv w) as Hinv by (apply HI; unfold w; by rewrite Hres).
    destruct (detach_inv w Hinv) as (Hthrow & _ & Hnone & _).
    assert (_isAttached w = true) as Ha.
    { unfold w, embedCheckout, attach in *.
      destruct (_isAttached (construct page storage)) eqn:E; [done|].
      destruct (show page _ _) as [e|w1] eqn:Hshow; [done|].
      assert (_isAttached w1 = true) as Ha1.
      { unfold show, listen in Hshow. repeat case_match; by simplify_eq. }
      destruct (attach_chain_view page env w1)
        as [[Hr Hv]|[[Hr Hv]|[(Hr&u&Hv)|[(Hr&u&Hv)|(Hr&u&c&Hv)]]]];
        destruct (attach_chain page env w1) as [r w2]; simpl in *; simplify_eq/=.
      unfold view in Hv. injection Hv as -> _ _ _. done. }
    split_and!; [done | done | by apply none_live_empty |].
    unfold detach. rewrite Ha. cbv zeta.
    assert (_isListening (stopListen (set_isAttached false w)) = false) as Hl.
    { unfold stopListen. simpl. destruct (_isListening w) eqn:E; simpl; by rewrite ?E. }
    by repeat case_match.
Qed.

Lemma detach_behaviour_witness :
  _isAttached bare_world = false /\ detach bare_world = (None, bare_world).
Proof.
  split; [reflexivity|]. apply (proj1 detach_behaviour). reflexivity.
Defined.

End EmbeddedCheckoutClaims.

(** * Further properties *)

(** ** SquareV2PaymentStrategy *)

Module SquareV2Properties.
Import SquareV2 SquareV2Facts Samples.

(** X1. In any run of [execute] the order submission is the first call and
    is made once, and a payment submission is the last call: nothing is
    called after the payment has been handed over, and it is handed over at
    most once. *)
Theorem execute_order_first_payment_last hosted vaulted env h req i c :
  (execute hosted vaulted req env h).2 !! i = Some c ->
  (c = SubmitOrder <-> i = 0%nat)
  /\ (forall sp, c = SubmitPayment sp ->
        S i = length (execute hosted vaulted req env h).2).
Proof.
  unfold_async. intros Hi.
  split_async;
    repeat (destruct i as [|i]; simplify_eq/=); try done;
    no_unit; split; (split || intros) ; (done || lia || congruence).
Qed.

Lemma execute_order_first_payment_last_witness :
  saved_card_run.2 !! 5%nat = Some (SubmitPayment saved_card_payment)
  /\ 6%nat = length saved_card_run.2.
Proof.
  assert (saved_card_run.2 !! 5%nat = Some (SubmitPayment saved_card_payment)) as H
    by (by vm_compute).
  split; [exact H|].
  exact (proj2 (execute_order_first_payment_last _ _ _ _ _ _ _ H) _ eq_refl).
Defined.

(** X2. [execute] resolves only when the payment has been submitted and
    accepted: the last call of a run that resolved is a payment submission
    that resolved, and the order submission had resolved. The early return
    of [_processWithVaultedInstrument] is never taken from [execute]. *)
Theorem execute_resolved_payment_accepted hosted vaulted env h req :
  (execute hosted vaulted req env h).1 = Resolved tt ->
  let calls := (execute hosted vaulted req env h).2 in
  exists sp,
    last calls = Some (SubmitPayment sp)
    /\ submitPayment_answer env (h ++ removelast calls) sp = Resolved tt
    /\ submitOrder_answer env h = Resolved tt.
Proof.
  unfold_async. intros Hr.
  split_async; no_unit; rewrite ?app_nil_r, <- ?app_assoc in *; simpl in *;
    try match goal with
        | H : ?x = true, H' : negb ?x = true |- _ => rewrite H in H'; done
        end;
    eexists; split_and!; try reflexivity; try done.
Qed.

Lemma execute_resolved_payment_accepted_witness :
  saved_card_run.1 = Resolved tt
  /\ exists sp,
       last saved_card_run.2 = Some (SubmitPayment sp)
       /\ submitPayment_answer (square_env None) ([] ++ removelast saved_card_run.2) sp
          = Resolved tt
       /\ submitOrder_answer (square_env None) [] = Resolved tt.
Proof.
  assert (saved_card_run.1 = Resolved tt) as H by (by vm_compute).
  split; [exact H|].
  exact (execute_resolved_payment_accepted _ _ _ _ _ H).
Defined.

(** X3. On the card path (the payment data is no vaulted instrument) the
    token of a submitted payment is built from the nonce that the first
    tokenization returned. With the 3DS feature on, the buyer has been
    verified for that nonce with intent CHARGE and the token carries the
    nonce and the token that this verification returned; when it carries a
    second nonce, that is the nonce the second tokenization returned, it was
    verified with intent STORE after the first, and the token carries what
    that verification returned as well. With the feature off or absent, the
    token is the plain nonce and buyer verification is never called. *)
Theorem card_token_verified_iff_enabled hosted vaulted env h req p features sp :
  payment req = Some p ->
  match paymentData p with Some d => vaulted d | None => false end = false ->
  storeFeatures env = Some features ->
  SubmitPayment sp ∈ (execute hosted vaulted req env h).2 ->
  exists nonce,
    tokenize_answer env (h ++ [SubmitOrder]) = Resolved nonce
    /\ if truthy_opt_bool (features !! feature_3ds) then
         VerifyBuyer nonce CHARGE ∈ (execute hosted vaulted req env h).2
         /\ ((exists token,
                verifyBuyer_answer env (h ++ [SubmitOrder; Tokenize]) nonce CHARGE
                = Resolved token
                /\ card_token (sp_formattedPayload sp) = Some (VerifiedNonce nonce token))
             \/ (exists store_nonce token store_token,
                   tokenize_answer env (h ++ [SubmitOrder; Tokenize])
                   = Resolved store_nonce
                   /\ verifyBuyer_answer env (h ++ [SubmitOrder; Tokenize; Tokenize])
                        nonce CHARGE
                      = Resolved token
                   /\ verifyBuyer_answer env
                        (h ++ [SubmitOrder; Tokenize; Tokenize; VerifyBuyer nonce CHARGE])
                        store_nonce STORE
                      = Resolved store_token
                   /\ card_token (sp_formattedPayload sp)
                      = Some (VerifiedStoreNonce nonce store_nonce token store_token)
                   /\ VerifyBuyer store_nonce STORE
                        ∈ (execute hosted vaulted req env h).2))
       else
         card_token (sp_formattedPayload sp) = Some (PlainNonce nonce)
         /\ forall n intent, VerifyBuyer n intent ∉ (execute hosted vaulted req env h).2.
Proof.
  unfold_async. intros Hp Hv Hs.
  rewrite Hp. simpl. rewrite ?Hv.
  split_async; intros Hin;
    repeat (apply elem_of_cons in Hin as [Hin|Hin]; simplify_eq/=);
    try (by apply elem_of_nil in Hin);
    rewrite ?app_nil_r, <- ?app_assoc in *; simpl in *; simplify_eq/=;
    (eexists; split; [done|]); simpl.
  all: try (split; [set_solver|];
            (left; eexists; split; [eassumption | reflexivity])
            || (right; eexists _, _, _; split_and!;
                [eassumption | eassumption | eassumption | reflexivity | set_solver])).
  all: try (split; [done|]; intros n intent Hc;
    repeat (apply elem_of_cons in Hc as [Hc|Hc]; simplify_eq/=); by apply elem_of_nil in Hc).
Qed.

Lemma card_token_verified_iff_enabled_witness :
  SubmitPayment saved_card_payment ∈ saved_card_run.2
  /\ exists nonce,
       tokenize_answer (square_env None) ([] ++ [SubmitOrder]) = Resolved nonce
       /\ VerifyBuyer nonce CHARGE ∈ saved_card_run.2
       /\ ((exists token,
              verifyBuyer_answer (square_env None) ([] ++ [SubmitOrder; Tokenize])
                nonce CHARGE = Resolved token
              /\ card_token (sp_formattedPayload saved_card_payment)
                 = Some (VerifiedNonce nonce token))
           \/ (exists store_nonce token store_token,
                 tokenize_answer (square_env None) ([] ++ [SubmitOrder; Tokenize])
                 = Resolved store_nonce
                 /\ verifyBuyer_answer (square_env None)
                      ([] ++ [SubmitOrder; Tokenize; Tokenize]) nonce CHARGE
                    = Resolved token
                 /\ verifyBuyer_answer (square_env None)
                      ([] ++ [SubmitOrder; Tokenize; Tokenize; VerifyBuyer nonce CHARGE])
                      store_nonce STORE
                    = Resolved store_token
                 /\ card_token (sp_formattedPayload saved_card_payment)
                    = Some (VerifiedStoreNonce nonce store_nonce token store_token)
                 /\ VerifyBuyer store_nonce STORE ∈ saved_card_run.2)).
Proof.
  assert (SubmitPayment saved_card_payment ∈ saved_card_run.2) as H
    by (apply (list_elem_of_lookup_2 _ 5%nat); by vm_compute).
  split; [exact H|].
  exact (card_token_verified_iff_enabled isHostedInstrumentLike isVaultedInstrument
           (square_env None) [] (square_request card_data) (square_payment card_data)
           {[ feature_3ds := true ]} saved_card_payment eq_refl eq_refl eq_refl H).
Defined.

(** X4. A buyer verification with intent STORE is made only when the
    payment data is hosted-instrument-like and asks to save the instrument;
    it is the fifth call, after the order submission, two tokenizations and
    the CHARGE verification of the first nonce, and it verifies the second
    nonce. *)
Theorem store_verification_only_when_saving hosted vaulted env h req i n :
  (execute hosted vaulted req env h).2 !! i = Some (VerifyBuyer n STORE) ->
  exists p d charged,
    payment req = Some p /\ paymentData p = Some d
    /\ hosted (Some d) = true /\ shouldSaveInstrument d = Some true
    /\ take i (execute hosted vaulted req env h).2
       = [SubmitOrder; Tokenize; Tokenize; VerifyBuyer charged CHARGE]
    /\ tokenize_answer env (h ++ [SubmitOrder]) = Resolved charged
    /\ tokenize_answer env (h ++ [SubmitOrder; Tokenize]) = Resolved n.
Proof.
  unfold_async. intros Hi.
  split_async;
    repeat (destruct i as [|i]; simplify_eq/=); try done;
    no_unit; rewrite ?app_nil_r, <- ?app_assoc in *; simpl in *;
    eexists _, _, _; split_and!; try reflexivity; try done;
    by destruct (shouldSaveInstrument _) as [[]|].
Qed.

Lemma store_verification_only_when_saving_witness :
  saved_card_run.2 !! 4%nat = Some (VerifyBuyer "cnon:card-nonce-ok" STORE)
  /\ exists p d charged,
       payment (square_request card_data) = Some p /\ paymentData p = Some d
       /\ isHostedInstrumentLike (Some d) = true /\ shouldSaveInstrument d = Some true
       /\ take 4 saved_card_run.2
          = [SubmitOrder; Tokenize; Tokenize; VerifyBuyer charged CHARGE]
       /\ tokenize_answer (square_env None) ([] ++ [SubmitOrder]) = Resolved charged
       /\ tokenize_answer (square_env None) ([] ++ [SubmitOrder; Tokenize])
          = Resolved "cnon:card-nonce-ok".
Proof.
  assert (saved_card_run.2 !! 4%nat = Some (VerifyBuyer "cnon:card-nonce-ok" STORE)) as H
    by (by vm_compute).
  split; [exact H|].
  exact (store_verification_only_when_saving _ _ _ _ _ _ _ H).
Defined.

(** X5. Every payment that [execute] submits goes out under the method and
    gateway of the request. Its two vault flags are the truthiness of
    [shouldSaveInstrument] and [shouldSetAsDefaultInstrument] when the
    payment data is hosted-instrument-like, and false otherwise, whatever
    the payment data says. *)
Theorem submitted_payment_flags hosted vaulted env h req p sp :
  payment req = Some p ->
  SubmitPayment sp ∈ (execute hosted vaulted req env h).2 ->
  sp_methodId sp = methodId p /\ sp_gatewayId sp = gatewayId p
  /\ vault_flags (sp_formattedPayload sp)
     = if hosted (paymentData p)
       then (truthy_opt_bool (paymentData p ≫= shouldSaveInstrument),
             truthy_opt_bool (paymentData p ≫= shouldSetAsDefaultInstrument))
       else (false, false).
Proof.
  unfold_async. intros Hp. rewrite Hp. simpl.
  split_async; intros Hin;
    repeat (apply elem_of_cons in Hin as [Hin|Hin]; simplify_eq/=);
    try (by apply elem_of_nil in Hin);
    split_and!; try done.
Qed.

Lemma submitted_payment_flags_witness :
  SubmitPayment saved_card_payment ∈ saved_card_run.2
  /\ vault_flags (sp_formattedPayload saved_card_payment) = (true, false).
Proof.
  assert (SubmitPayment saved_card_payment ∈ saved_card_run.2) as H
    by (apply (list_elem_of_lookup_2 _ 5%nat); by vm_compute).
  split; [exact H|].
  exact (proj2 (proj2 (submitted_payment_flags isHostedInstrumentLike isVaultedInstrument
                         (square_env None) [] (square_request card_data)
                         (square_payment card_data) saved_card_payment eq_refl H))).
Defined.

(** X6. The payment method is reloaded only for a vaulted instrument with
    the 3DS feature on; it is then the second call, right after the order
    submission, made for the method of the request with the instrument id as
    the bigpay token. *)
Theorem payment_method_loaded_for_vaulted_verification hosted vaulted env h req i m m' b :
  (execute hosted vaulted req env h).2 !! i = Some (LoadPaymentMethod m m' b) ->
  exists p d features,
    payment req = Some p /\ paymentData p = Some d /\ vaulted d = true
    /\ storeFeatures env = Some features /\ features !! feature_3ds = Some true
    /\ i = 1%nat /\ m = methodId p /\ m' = methodId p /\ b = instrumentId d.
Proof.
  unfold_async. intros Hi.
  split_async;
    repeat (destruct i as [|i]; simplify_eq/=); try done;
    eexists _, _, _; split_and!; try reflexivity; try done;
    by destruct (_ !! feature_3ds) as [[]|].
Qed.

Lemma payment_method_loaded_for_vaulted_verification_witness :
  vaulted_run.2 !! 1%nat = Some (LoadPaymentMethod "squarev2" "squarev2" (Some "bigpay-123"))
  /\ exists p d features,
       payment (square_request vaulted_data) = Some p /\ paymentData p = Some d
       /\ isVaultedInstrument d = true
       /\ storeFeatures (square_env (Some "ccof:card-on-file")) = Some features
       /\ features !! feature_3ds = Some true
       /\ 1%nat = 1%nat /\ "squarev2" = methodId p /\ "squarev2" = methodId p
       /\ Some "bigpay-123" = instrumentId d.
Proof.
  assert (vaulted_run.2 !! 1%nat
          = Some (LoadPaymentMethod "squarev2" "squarev2" (Some "bigpay-123"))) as H
    by (by vm_compute).
  split; [exact H|].
  exact (payment_method_loaded_for_vaulted_verification _ _ _ _ _ _ _ _ _ H).
Defined.

(** X7. When the store configuration is missing, [execute] never submits a
    payment and never resolves; and when it rejects with the missing-data
    error, the order had already been submitted: the configuration is read
    after the order submission. *)
Theorem missing_store_config_after_order hosted vaulted env h req :
  storeFeatures env = None ->
  let r := execute hosted vaulted req env h in
  (forall sp, SubmitPayment sp ∉ r.2)
  /\ r.1 <> Resolved tt
  /\ (r.1 = Rejected MissingDataError ->
      (r.2 !! 0%nat = Some SubmitOrder /\ submitOrder_answer env h = Resolved tt)
      \/ submitOrder_answer env h = Rejected MissingDataError).
Proof.
  unfold_async. intros Hs. cbv zeta.
  split_async; no_unit; rewrite ?app_nil_r in *;
    try match goal with
        | H : ?x = true, H' : negb ?x = true |- _ => rewrite H in H'; done
        end;
    (split_and!;
     [ intros sp Hin;
       repeat (apply elem_of_cons in Hin as [Hin|Hin]; simplify_eq/=);
       by apply elem_of_nil in Hin
     | done
     | intros; simplify_eq/=; auto ]).
Qed.

Lemma missing_store_config_after_order_witness :
  storeFeatures square_env_without_config = None
  /\ (execute isHostedInstrumentLike isVaultedInstrument (square_request card_data)
        square_env_without_config []).1 <> Resolved tt.
Proof.
  split; [reflexivity|].
  exact (proj1 (proj2 (missing_store_config_after_order isHostedInstrumentLike
                         isVaultedInstrument square_env_without_config []
                         (square_request card_data) eq_refl))).
Defined.

End SquareV2Properties.

Module SquareV2InitializationProperties.
Import SquareV2Initialization Samples.

(** X8. [initialize] reaches the payment processor only with validated
    input: any call it makes means that the options carry a container id, the
    payment method was found and has a non-empty application id; the first
    call is the processor's [initialize] with that application id, the
    location id and the test mode of the method, and the card is initialised
    second, after that call has resolved. [initialize] resolves only when
    both calls were made and the card initialisation resolved, and a run that
    called nothing was rejected. *)
Theorem initialize_validates_before_processor options env h :
  let r := initialize options env h in
  (forall i c, r.2 !! i = Some c ->
     exists o sq m app,
       options = Some o /\ squarev2 o = Some sq
       /\ truthy_opt_string (containerId sq) = true
       /\ getPaymentMethodOrThrow env (methodId o) = inr m
       /\ initializationData m ≫= applicationId = Some app
       /\ truthy_string app = true
       /\ r.2 !! 0%nat
          = Some (ProcessorInitialize app (initializationData m ≫= locationId)
                    (testMode (config m)))
       /\ (i = 0%nat
           \/ (i = 1%nat /\ c = InitializeCard sq
               /\ initialize_answer env h app (initializationData m ≫= locationId)
                    (testMode (config m)) = Resolved tt)))
  /\ (r.1 = Resolved tt ->
      exists first sq,
        r.2 = [first; InitializeCard sq]
        /\ initializeCard_answer env (h ++ [first]) sq = Resolved tt)
  /\ (r.2 = [] -> exists e, r.1 = Rejected e).
Proof.
  unfold initialize, given_containerId. cbv zeta.
  destruct options as [o|]; simpl; [|split_and!; [done | done | eauto]].
  destruct (squarev2 o) as [sq|] eqn:Hsq; simpl; [|split_and!; [done | done | eauto]].
  destruct (truthy_opt_string (containerId sq)) eqn:Hc; simpl;
    [|split_and!; [done | done | eauto]].
  destruct (getPaymentMethodOrThrow env (methodId o)) as [e|m] eqn:Hm; simpl;
    [split_and!; [done | done | eauto]|].
  destruct (initializationData m ≫= applicationId) as [app|] eqn:Ha; simpl;
    [|split_and!; [done | done | eauto]].
  destruct (truthy_string app) eqn:Ht; simpl; [|split_and!; [done | done | eauto]].
  destruct (initialize_answer env h app _ _) as [[]|e|] eqn:Hi; simpl.
  - split_and!; [|eauto|done].
    intros i c Hl. exists o, sq, m, app. split_and!; try done.
    destruct i as [|[|i]]; simplify_eq/=; auto.
  - split_and!; [|done|done].
    intros i c Hl. exists o, sq, m, app. split_and!; try done.
    destruct i as [|i]; simplify_eq/=; auto.
  - split_and!; [|done|done].
    intros i c Hl. exists o, sq, m, app. split_and!; try done.
    destruct i as [|i]; simplify_eq/=; auto.
Qed.

Lemma initialize_validates_before_processor_witness :
  (initialize (Some square_init_options) square_init_env []).1 = Resolved tt
  /\ exists first sq,
       (initialize (Some square_init_options) square_init_env []).2
       = [first; InitializeCard sq]
       /\ initializeCard_answer square_init_env ([] ++ [first]) sq = Resolved tt.
Proof.
  split; [reflexivity|].
  apply (proj1 (proj2 (initialize_validates_before_processor
                         (Some square_init_options) square_init_env []))).
  reflexivity.
Defined.

End SquareV2InitializationProperties.

(** ** WepayPaymentStrategy *)

Module WepayProperties.
Import Wepay WepayFacts Samples.

Lemma set_prop_absent k v props :
  get_prop k props = None -> set_prop k v props = props ++ [(k, v)].
Proof.
  induction props as [|[k' v'] rest IH]; simpl; [done|].
  destruct (String.eqb k k'); [done|]. intros H. by rewrite IH.
Qed.

Lemma get_prop_app k props more :
  get_prop k (props ++ more)
  = match get_prop k props with Some v => Some v | None => get_prop k more end.
Proof.
  induction props as [|[k' v'] rest IH]; simpl; [done|].
  by destruct (String.eqb k k').
Qed.

Lemma unique_keys_cons k x rest :
  unique_keys (JObject ((k, x) :: rest)) = true ->
  get_prop k rest = None /\ unique_keys x = true /\ unique_keys (JObject rest) = true.
Proof.
  simpl. destruct (get_prop k rest); [done|].
  intros H. apply andb_true_iff in H as [H1 H2]. done.
Qed.

Lemma JsVal_size_cons k x rest :
  JsVal_size (JObject ((k, x) :: rest)) = (JsVal_size x + JsVal_size (JObject rest))%nat.
Proof. simpl. lia. Qed.

(** Merging a well-formed object into the empty object copies it. *)
Lemma merge_props_copy_sized n : forall v props,
  (JsVal_size v <= n)%nat -> v = JObject props -> unique_keys v = true ->
  forall object,
    (forall k, is_Some (get_prop k props) -> get_prop k object = None) ->
    merge_props object v = object ++ props.
Proof.
  induction n as [|n IH]; intros v props Hn -> Hu object Hd.
  { simpl in Hn. lia. }
  revert object Hd. induction props as [|[k x] rest IHp]; intros object Hd.
  - simpl. by rewrite app_nil_r.
  - apply unique_keys_cons in Hu as (Hk & Hx & Hrest).
    rewrite JsVal_size_cons in Hn.
    rewrite merge_props_cons.
    assert (get_prop k object = None) as Hko.
    { apply Hd. simpl. rewrite String.eqb_refl. by eexists. }
    assert (merge_step object k x = object ++ [(k, x)]) as ->.
    { destruct x as [| | | | |o]; unfold merge_step; rewrite ?Hko;
        try by apply set_prop_absent.
      rewrite (IH (JObject o) o); [by apply set_prop_absent| simpl in *; lia|done|done|done]. }
    rewrite IHp; [by rewrite <- app_assoc | | done |].
    + assert (1 <= JsVal_size x)%nat by (destruct x; simpl; lia).
      simpl in *. lia.
    + intros k' Hk'. rewrite get_prop_app.
      rewrite Hd.
      * simpl. destruct (String.eqb_spec k' k) as [->|]; [|done].
        rewrite Hk in Hk'. by destruct Hk'.
      * simpl. destruct (String.eqb k' k); [by eexists | done].
Qed.

Lemma merge_props_copy props :
  unique_keys (JObject props) = true -> merge_props [] (JObject props) = props.
Proof.
  intros Hu.
  by rewrite (merge_props_copy_sized _ (JObject props) props (le_n _) eq_refl Hu []).
Qed.

Lemma get_path_cons k path v : get_path (k :: path) v = get_path path (prop k v).
Proof. reflexivity. Qed.

Lemma get_path_undefined path : get_path path JUndefined = JUndefined.
Proof. induction path as [|k path IH]; [done|]. by rewrite get_path_cons. Qed.

Lemma chain_cons k path leaf : chain (k :: path) leaf = JObject [(k, chain path leaf)].
Proof. reflexivity. Qed.

(** Merging a chain leaves every path that branches off the chain as it
    was. *)
Lemma merge_chain_off_path leaf pre : forall key post k rest object,
  k <> key ->
  get_path (pre ++ k :: rest)
    (JObject (merge_props object (chain (pre ++ key :: post) leaf)))
  = get_path (pre ++ k :: rest) (JObject object).
Proof.
  induction pre as [|key0 pre IH]; intros key post k rest object Hne.
  - simpl app. rewrite chain_cons, merge_props_cons, merge_props_nil, !get_path_cons.
    unfold prop. by rewrite get_merge_step_ne.
  - simpl app. rewrite chain_cons, merge_props_cons, merge_props_nil, !get_path_cons.
    assert (exists sub, chain (pre ++ key :: post) leaf = JObject sub) as [sub Hsub].
    { destruct pre; simpl; eauto. }
    rewrite Hsub. unfold merge_step. rewrite prop_set_prop, <- Hsub, IH by done.
    unfold prop.
    destruct (get_prop key0 object) as [[| | | | |o]|]; simpl; try done;
      by destruct pre.
Qed.

Lemma riskTokenPatch_chain token : riskTokenPatch token = chain riskToken_path (JString token).
Proof. reflexivity. Qed.

(** X9. For a payload whose objects hold each key once, the request that
    [execute] hands to the parent differs from the payload in the risk token
    only: payment.paymentData.extraData.riskToken reads the token, and every
    path that leaves the token path at some key reads in the merged request
    what it reads in the payload. *)
Theorem merge_changes_only_the_risk_token props token :
  unique_keys (JObject props) = true ->
  let merged := merge (JObject props) (riskTokenPatch token) in
  get_path riskToken_path merged = JString token
  /\ forall pre key post k rest,
       riskToken_path = pre ++ key :: post -> k <> key ->
       get_path (pre ++ k :: rest) merged = get_path (pre ++ k :: rest) (JObject props).
Proof.
  intros Hu merged. split.
  - apply merge_riskToken.
  - intros pre key post k rest Hpath Hne. unfold merged, merge.
    rewrite merge_props_copy by done.
    rewrite riskTokenPatch_chain, Hpath. by apply merge_chain_off_path.
Qed.

Lemma merge_changes_only_the_risk_token_witness :
  unique_keys (JObject wepay_payload) = true
  /\ get_path (["payment"] ++ "methodId" :: [])
       (merge (JObject wepay_payload) (riskTokenPatch "risk-token-1"))
     = get_path (["payment"] ++ "methodId" :: []) (JObject wepay_payload).
Proof.
  assert (unique_keys (JObject wepay_payload) = true) as H by reflexivity.
  split; [exact H|].
  refine (proj2 (merge_changes_only_the_risk_token wepay_payload "risk-token-1" H)
            ["payment"] "paymentData" ["extraData"; "riskToken"] "methodId" [] eq_refl _).
  discriminate.
Defined.

End WepayProperties.

(** ** The embedded checkout *)

Module BrowserStorageProperties.
Import EmbeddedCheckout EmbeddedCheckoutFacts Samples.

Lemma withNamespace_inj k k' : withNamespace k = withNamespace k' -> k = k'.
Proof. unfold withNamespace, namespace. simpl. intros H. by simplify_eq. Qed.

Lemma length_append (p s : string) :
  String.length (p +:+ s) = (String.length p + String.length s)%nat.
Proof. induction p as [|a p IH]; simpl; [done | by rewrite IH]. Qed.

Lemma withNamespace_longer k : withNamespace k <> k.
Proof.
  intros H. apply (f_equal String.length) in H.
  unfold withNamespace in H. rewrite !length_append in H. simpl in H. lia.
Qed.

(** X10. [BrowserStorage]: an item that was set reads back, an item that
    was removed reads null, and setting or removing one item leaves what the
    items of every other name read. *)
Theorem storage_items_are_independent k v w :
  (getItem k (setItem k v w)).1 = Some v
  /\ (getItem k (removeItem k w)).1 = None
  /\ forall k', k' <> k ->
       (getItem k' (setItem k v w)).1 = (getItem k' w).1
       /\ (getItem k' (removeItem k w)).1 = (getItem k' w).1.
Proof.
  split_and!.
  - unfold getItem, setItem. simpl. by rewrite lookup_insert_eq.
  - apply getItem_after_removeItem.
  - intros k' Hne.
    assert (withNamespace k <> withNamespace k') as Hn
      by (intros H; by apply withNamespace_inj in H).
    unfold getItem, setItem, removeItem. simpl.
    rewrite lookup_insert_ne, lookup_delete_ne by done.
    split; by repeat case_match.
Qed.

Lemma storage_items_are_independent_witness :
  "canRetryAllowCookie" <> "isCookieAllowed"
  /\ (getItem "canRetryAllowCookie"
        (setItem "isCookieAllowed" (JsonBool true) bare_world)).1
     = (getItem "canRetryAllowCookie" bare_world).1.
Proof.
  assert ("canRetryAllowCookie" <> "isCookieAllowed") as H by discriminate.
  split; [exact H|].
  exact (proj1 (proj2 (proj2 (storage_items_are_independent "isCookieAllowed"
                                (JsonBool true) bare_world)) _ H)).
Defined.

(** X11. Reading an item whose stored string does not parse gives null, and
    the entry is still there afterwards: the removal in the catch clause is
    given a key that already carries the namespace, so what it deletes is the
    entry of the item that has the namespaced key as its name. Every later
    read of the item gives null again. *)
Theorem getItem_unparsable_entry_stays k w :
  localStorage w !! withNamespace k = Some Unparsable ->
  let w' := (getItem k w).2 in
  (getItem k w).1 = None
  /\ localStorage w' = delete (withNamespace (withNamespace k)) (localStorage w)
  /\ localStorage w' !! withNamespace k = Some Unparsable
  /\ (getItem k w').1 = None
  /\ (getItem (withNamespace k) w').1 = None.
Proof.
  intros Hk. unfold getItem at 1 2 3 4. rewrite Hk. simpl.
  assert (withNamespace (withNamespace k) <> withNamespace k) as Hn.
  { intros H. apply withNamespace_inj in H. by apply withNamespace_longer in H. }
  split_and!; try done.
  - by rewrite lookup_delete_ne.
  - unfold getItem. simpl. rewrite lookup_delete_ne, Hk by done. done.
  - unfold getItem. simpl. by rewrite lookup_delete_eq.
Qed.

(** X12. [getItemOnce] returns what [getItem] returns and leaves no entry
    for the item, so a second [getItemOnce] gives null; the entries of the
    other items stay, but for the item named by the namespaced key. *)
Theorem getItemOnce_reads_once k w :
  (getItemOnce k w).1 = (getItem k w).1
  /\ localStorage (getItemOnce k w).2 !! withNamespace k = None
  /\ (getItemOnce k (getItemOnce k w).2).1 = None
  /\ forall k', k' <> k -> k' <> withNamespace k ->
       localStorage (getItemOnce k w).2 !! withNamespace k'
       = localStorage w !! withNamespace k'.
Proof.
  unfold getItemOnce.
  assert (forall w0, localStorage (removeItem k w0) !! withNamespace k = None) as Hrm.
  { intros w0. unfold removeItem. simpl. by rewrite lookup_delete_eq. }
  split_and!.
  - by destruct (getItem k w).
  - destruct (getItem k w) as [e w1]. apply Hrm.
  - destruct (getItem k w) as [e w1]. simpl.
    unfold getItem. by rewrite Hrm.
  - intros k' Hne Hne'.
    assert (withNamespace k <> withNamespace k') as Hn
      by (intros H; by apply withNamespace_inj in H).
    assert (withNamespace (withNamespace k) <> withNamespace k') as Hn'
      by (intros H; by apply withNamespace_inj in H).
    unfold getItem, removeItem.
    repeat case_match; simplify_eq/=; rewrite ?lookup_delete_ne by done; done.
Qed.

Lemma getItem_unparsable_entry_stays_witness :
  localStorage corrupted_world !! withNamespace "isCookieAllowed" = Some Unparsable
  /\ (getItem "isCookieAllowed" corrupted_world).1 = None
  /\ localStorage (getItem "isCookieAllowed" corrupted_world).2
       !! withNamespace "isCookieAllowed" = Some Unparsable.
Proof.
  assert (localStorage corrupted_world !! withNamespace "isCookieAllowed"
          = Some Unparsable) as H by (by vm_compute).
  split; [exact H|].
  pose proof (getItem_unparsable_entry_stays "isCookieAllowed" corrupted_world H) as Hg.
  split; [exact (proj1 Hg) | exact (proj1 (proj2 (proj2 Hg)))].
Defined.

Lemma getItemOnce_reads_once_witness :
  "canRetryAllowCookie" <> "isCookieAllowed"
  /\ "canRetryAllowCookie" <> withNamespace "isCookieAllowed"
  /\ localStorage (getItemOnce "isCookieAllowed" corrupted_world).2
       !! withNamespace "canRetryAllowCookie"
     = localStorage corrupted_world !! withNamespace "canRetryAllowCookie".
Proof.
  assert ("canRetryAllowCookie" <> "isCookieAllowed") as H by discriminate.
  assert ("canRetryAllowCookie" <> withNamespace "isCookieAllowed") as H'
    by discriminate.
  split; [exact H|]. split; [exact H'|].
  exact (proj2 (proj2 (proj2 (getItemOnce_reads_once "isCookieAllowed" corrupted_world)))
           _ H H').
Defined.

End BrowserStorageProperties.

Module IframeEventListenerProperties.
Import EmbeddedCheckout EmbeddedCheckoutFacts Samples.

Lemma remove_first_app_present l ls more :
  l ∈ ls -> remove_first l (ls ++ more) = remove_first l ls ++ more.
Proof.
  induction ls as [|x ls IH]; simpl; [by intros H%elem_of_nil|].
  intros Hin. case_decide; [done|].
  apply elem_of_cons in Hin as [->|Hin]; [done|]. by rewrite IH.
Qed.

Lemma remove_first_snoc_absent l ls : l ∉ ls -> remove_first l (ls ++ [l]) = ls.
Proof.
  induction ls as [|x ls IH]; simpl; [by rewrite decide_True|].
  intros Hn. apply not_elem_of_cons in Hn as [Hne Hn].
  case_decide; [by subst | by rewrite IH].
Qed.

Lemma remove_first_count l ls :
  length (filter (l =.) (remove_first l ls)) = pred (length (filter (l =.) ls)).
Proof.
  induction ls as [|x ls IH]; simpl; [done|].
  case_decide as Hx.
  - subst. by rewrite filter_cons_True.
  - rewrite !filter_cons_False by (intros ?; by subst). exact IH.
Qed.

Lemma remove_first_others l ls :
  filter (l ≠.) (remove_first l ls) = filter (l ≠.) ls.
Proof.
  induction ls as [|x ls IH]; simpl; [done|].
  case_decide as Hx.
  - subst. by rewrite filter_cons_False by (intros H; by apply H).
  - rewrite !filter_cons_True by (intros ?; by subst). by rewrite IH.
Qed.

(** X13. [removeListener] takes out one registration of the listener, the
    oldest: the listener is registered once less (a listener added twice is
    still registered), the other listeners of the type keep their order, and
    the other types are untouched. Adding a listener and removing it again
    gives back the registrations there were, unless the listener was
    registered before: then its oldest registration is gone and it is called
    last. *)
Theorem removeListener_removes_oldest_registration t l w :
  let before := default [] (_listeners w !! t) in
  let after := default [] (_listeners (removeListener t l w) !! t) in
  length (filter (l =.) after) = pred (length (filter (l =.) before))
  /\ filter (l ≠.) after = filter (l ≠.) before
  /\ (forall t', t' <> t ->
        _listeners (removeListener t l w) !! t' = _listeners w !! t')
  /\ default [] (_listeners (removeListener t l (addListener t l w)) !! t)
     = if decide (l ∈ before) then remove_first l before ++ [l] else before.
Proof.
  cbv zeta. unfold removeListener, addListener. simpl.
  rewrite lookup_insert_eq. simpl. rewrite lookup_insert_eq. simpl.
  split_and!.
  - destruct (_listeners w !! t) as [ls|] eqn:Hl; simpl; [|by rewrite Hl].
    rewrite lookup_insert_eq. simpl. apply remove_first_count.
  - destruct (_listeners w !! t) as [ls|] eqn:Hl; simpl; [|by rewrite Hl].
    rewrite lookup_insert_eq. simpl. apply remove_first_others.
  - intros t' Hne. destruct (_listeners w !! t) as [ls|] eqn:Hl; simpl; [|done].
    by rewrite lookup_insert_ne.
  - case_decide as Hin.
    + by apply remove_first_app_present.
    + by apply remove_first_snoc_absent.
Qed.

Section Dispatch.

Variable page : Page.

Lemma trigger_default d w :
  trigger page d w
  = foldl (call_listener page d) w
      (default [] (_listeners w !! property_key (data_type d))).
Proof. unfold trigger. by destruct (_listeners w !! _). Qed.

Lemma constructor_registered t :
  registered t (constructor_ops page)
  = match callback_for (options page) t with
    | Some id => [HostCallback id]
    | None => []
    end ++ match t with FrameLoaded => [ConfigureStyles] | _ => [] end.
Proof.
  unfold registered, constructor_ops, callback_for.
  destruct (onComplete _), (onError _), (onLoad _), (onFrameLoad _), (onSignOut _), t;
    reflexivity.
Qed.

Lemma construct_listeners storage t :
  default [] (_listeners (construct page storage) !! type_name t)
  = registered t (constructor_ops page).
Proof. rewrite construct_registrations. by apply listeners_registered. Qed.

Lemma deliver_constructed storage w e t :
  _listeners w = _listeners (construct page storage) ->
  _isListening w = true ->
  msg_origin e = _sourceOrigin page ->
  data_type (msg_data e) = Some (type_name t) ->
  let called :=
    match callback_for (options page) t with
    | Some id => emit (Invoked id (msg_data e)) w
    | None => w
    end in
  deliver page e w
  = match t with FrameLoaded => _configureStyles page called | _ => called end.
Proof.
  intros Hl Hon Ho Hd. cbv zeta.
  unfold deliver, _handleMessage, isIframeEvent.
  rewrite Hon, Ho, String.eqb_refl, bool_decide_true by done. cbn [andb].
  rewrite trigger_default, Hd, Hl.
  change (property_key (Some (type_name t))) with (type_name t).
  rewrite construct_listeners, constructor_registered.
  by destruct (callback_for (options page) t), t.
Qed.

(** X14. The controller that the constructor wires up, while it listens:
    a message from the checkout origin with one of the six event types calls
    the callback that the options give for that type, if any, with the data
    of the message; for FRAME_LOADED it then configures the styles. There is
    no callback for FRAME_ERROR. *)
Theorem constructed_controller_dispatch storage w e t :
  _listeners w = _listeners (construct page storage) ->
  _isListening w = true ->
  msg_origin e = _sourceOrigin page ->
  data_type (msg_data e) = Some (type_name t) ->
  let called :=
    match callback_for (options page) t with
    | Some id => emit (Invoked id (msg_data e)) w
    | None => w
    end in
  deliver page e w
  = match t with FrameLoaded => _configureStyles page called | _ => called end.
Proof. apply deliver_constructed. Qed.

(** X15. While the controller's iframe is in the document, each
    FRAME_LOADED message from the checkout origin makes the controller post
    the styles of the options to that iframe, for the checkout origin, after
    the host's [onFrameLoad] callback has run; without styles in the options
    nothing is posted. *)
Theorem styles_posted_on_frame_loaded storage w e f fr c :
  _listeners w = _listeners (construct page storage) ->
  _isListening w = true ->
  msg_origin e = _sourceOrigin page ->
  data_type (msg_data e) = Some (type_name FrameLoaded) ->
  _iframe w = Some f -> frames w !! f = Some fr -> parentNode fr = Some c ->
  effects (deliver page e w)
  = effects w
    ++ match onFrameLoad (options page) with
       | Some id => [Invoked id (msg_data e)]
       | None => []
       end
    ++ match styles (options page) with
       | Some st => [Posted f (origin (url (options page))) st]
       | None => []
       end.
Proof.
  intros Hl Hon Ho Hd Hi Hf Hp.
  rewrite (deliver_constructed storage w e FrameLoaded Hl Hon Ho Hd).
  unfold _configureStyles, contentWindow, post, setTarget, callback_for, _sourceOrigin.
  destruct (onFrameLoad (options page)); simpl; rewrite Hi, Hf, Hp;
    destruct (styles (options page)); simpl; by rewrite ?app_nil_r, <- ?app_assoc.
Qed.

End Dispatch.

Lemma removeListener_removes_oldest_registration_witness :
  "CHECKOUT_COMPLETE" <> "FRAME_LOADED"
  /\ _listeners (removeListener "FRAME_LOADED" ConfigureStyles (construct host_page ∅))
       !! "CHECKOUT_COMPLETE"
     = _listeners (construct host_page ∅) !! "CHECKOUT_COMPLETE".
Proof.
  assert ("CHECKOUT_COMPLETE" <> "FRAME_LOADED") as H by discriminate.
  split; [exact H|].
  exact (proj1 (proj2 (proj2 (removeListener_removes_oldest_registration "FRAME_LOADED"
                                ConfigureStyles (construct host_page ∅)))) _ H).
Defined.

Lemma constructed_controller_dispatch_witness :
  _isListening (listen (construct host_page ∅)) = true
  /\ deliver host_page checkout_complete (listen (construct host_page ∅))
     = emit (Invoked 1 CheckoutCompleteEvent) (listen (construct host_page ∅)).
Proof.
  assert (_isListening (listen (construct host_page ∅)) = true) as H by reflexivity.
  assert (_listeners (listen (construct host_page ∅))
          = _listeners (construct host_page ∅)) as Hl by reflexivity.
  split; [exact H|].
  pose proof (constructed_controller_dispatch host_page ∅ (listen (construct host_page ∅))
                checkout_complete CheckoutComplete Hl H eq_refl eq_refl) as Hd.
  exact Hd.
Defined.

End IframeEventListenerProperties.

Module EmbeddedCheckoutProperties.
Import EmbeddedCheckout EmbeddedCheckoutFacts IframeEventListenerProperties Samples.

Section Effects.

Variable page : Page.

Lemma acts_fields w w' :
  _isListening w' = _isListening w -> _listeners w' = _listeners w ->
  effects w' = effects w -> acts page w w'.
Proof.
  intros Hl Hs He. split_and!; [done | done |].
  exists []. by rewrite app_nil_r.
Qed.

Lemma acts_refl w : acts page w w.
Proof. by apply acts_fields. Qed.

Lemma acts_trans w1 w2 w3 : acts page w1 w2 -> acts page w2 w3 -> acts page w1 w3.
Proof.
  intros (Hl1 & Hs1 & l1 & He1 & Hp1) (Hl2 & Hs2 & l2 & He2 & Hp2).
  split_and!; [congruence | congruence |].
  exists (l1 ++ l2). rewrite He2, He1, <- app_assoc. split; [done|].
  rewrite forallb_app, Hp1. by rewrite Hs1 in Hp2.
Qed.

Lemma acts_emit e w : permitted page (_listeners w) e = true -> acts page w (emit e w).
Proof.
  intros Hp. split_and!; [done | done |].
  exists [e]. split; [done|]. simpl. by rewrite Hp.
Qed.

Lemma acts_getItem k w : acts page w (getItem k w).2.
Proof. destruct (getItem_fields k w) as (?&?&?&?&?&?&?&?&?). by apply acts_fields. Qed.

Lemma acts_configureStyles w : acts page w (_configureStyles page w).
Proof.
  unfold _configureStyles, post, setTarget.
  repeat case_match; try apply acts_refl; simplify_eq/=.
  eapply acts_trans; [|apply acts_emit]; [by apply acts_fields|].
  simpl. unfold _sourceOrigin. by rewrite !bool_decide_true.
Qed.

Lemma acts_foldl_listeners d ls : forall w,
  (forall l, l ∈ ls -> l ∈ default [] (_listeners w !! property_key (data_type d))) ->
  acts page w (foldl (call_listener page d) w ls).
Proof.
  induction ls as [|l ls IH]; intros w Hin; [apply acts_refl|].
  simpl.
  assert (acts page w (call_listener page d w l)) as Hstep.
  { destruct l as [id|]; simpl; [|apply acts_configureStyles].
    apply acts_emit. simpl. apply bool_decide_eq_true. apply Hin. by left. }
  eapply acts_trans; [exact Hstep|].
  apply IH. intros l' Hl'. destruct Hstep as (_ & -> & _). apply Hin. by right.
Qed.

Lemma acts_trigger d w : acts page w (trigger page d w).
Proof.
  unfold trigger. destruct (_listeners w !! _) as [ls|] eqn:Hl; [|apply acts_refl].
  apply acts_foldl_listeners. by rewrite Hl.
Qed.

Lemma acts_deliver e w : acts page w (deliver page e w).
Proof.
  unfold deliver, _handleMessage.
  repeat case_match; try apply acts_refl. apply acts_trigger.
Qed.

Lemma acts_hide w : acts page w (hide w).
Proof. by apply acts_emit. Qed.

Lemma acts_toResizableFrame f o T arrivals : forall w,
  acts page w (_toResizableFrame page f o T arrivals w).2.
Proof.
  induction arrivals as [|[t e] rest IH]; intros w; simpl; [apply acts_refl|].
  case_match; [apply acts_refl|].
  destruct (on_frame_message_cases f o e (deliver page e w))
    as [[-> _]|[_ [(r'&->&_)|(c&->)]]]; simpl.
  - eapply acts_trans; [apply acts_deliver | apply IH].
  - apply acts_deliver.
  - eapply acts_trans; [apply acts_deliver | by apply acts_fields].
Qed.

Lemma acts_createFrame u cid arrivals w : acts page w (createFrame page u cid arrivals w).2.
Proof.
  unfold createFrame. case_bool_decide; [|apply acts_refl].
  match goal with |- context [_toResizableFrame page ?f ?o ?T arrivals ?w1] =>
    pose proof (acts_toResizableFrame f o T arrivals w1) as Ha;
    destruct (_toResizableFrame page f o T arrivals w1) as [[g|e|] w2]
  end; simpl in *;
    (eapply acts_trans; [by apply acts_fields|]);
    (eapply acts_trans; [exact Ha|]); by apply acts_fields.
Qed.

Lemma acts_attemptLogin l w : acts page w (_attemptLogin page l w).2.
Proof.
  unfold _attemptLogin. destruct (String.prefix _ _) eqn:Hp; [|apply acts_refl].
  assert (acts page w (emit (HttpPost (href (url (options page)))) w)) as Ha.
  { apply acts_emit. simpl. by rewrite bool_decide_true, Hp. }
  by destruct l.
Qed.

Lemma acts_allowCookie w : acts page w (_allowCookie page w).2.
Proof.
  unfold _allowCookie. pose proof (acts_getItem "isCookieAllowed" w) as Hg.
  destruct (getItem "isCookieAllowed" w) as [allowed w0]. simpl in Hg.
  eapply acts_trans; [exact Hg|].
  case_match; simpl; [by apply acts_fields|].
  eapply acts_trans; [|apply acts_emit]; [by apply acts_fields|].
  simpl. by rewrite bool_decide_true.
Qed.

Lemma acts_retryAllowCookie e w : acts page w (_retryAllowCookie page e w).2.
Proof.
  unfold _retryAllowCookie. pose proof (acts_getItem "canRetryAllowCookie" w) as Hg.
  destruct (getItem "canRetryAllowCookie" w) as [c w0]. simpl in Hg.
  eapply acts_trans; [exact Hg|].
  case_match; [|apply acts_refl].
  eapply acts_trans; [|apply acts_allowCookie]. by apply acts_fields.
Qed.

Lemma acts_on_attach_failure e w : acts page w (on_attach_failure page e w).2.
Proof.
  unfold on_attach_failure, catch_.
  pose proof (acts_retryAllowCookie e (set_isAttached false w)) as Hr.
  eapply acts_trans; [apply (acts_fields w (set_isAttached false w)); done|].
  destruct (_retryAllowCookie page e (set_isAttached false w)) as [[[]|e'|] w1];
    simpl in *; try done.
  eapply acts_trans; [exact Hr|].
  eapply acts_trans; [apply acts_trigger | apply acts_hide].
Qed.

Lemma acts_attach_chain env w : acts page w (attach_chain page env w).2.
Proof.
  unfold attach_chain, then_, catch_, resolve.
  pose proof (acts_allowCookie w) as H1.
  destruct (_allowCookie page w) as [[[]|e1|] w1]; simpl in H1.
  2:{ pose proof (acts_on_attach_failure e1 w1) as Hf.
      destruct (on_attach_failure page e1 w1) as [[[]|e'|] w']; simpl in *;
        by eapply acts_trans. }
  2:{ done. }
  pose proof (acts_attemptLogin (login_answer env) w1) as H2.
  destruct (_attemptLogin page (login_answer env) w1) as [[u|e2|] w2]; simpl in H2.
  2:{ pose proof (acts_on_attach_failure e2 w2) as Hf.
      destruct (on_attach_failure page e2 w2) as [[[]|e'|] w']; simpl in *;
        eapply acts_trans; try exact Hf; by eapply acts_trans. }
  2:{ simpl. by eapply acts_trans. }
  pose proof (acts_createFrame u (containerId (options page)) (arrivals env) w2) as H3.
  assert (acts page w w2) as H12 by (by eapply acts_trans).
  destruct (createFrame page u (containerId (options page)) (arrivals env) w2)
    as [[e3|[f|e3|]] w3]; simpl in *.
  - pose proof (acts_on_attach_failure e3 w3) as Hf.
    destruct (on_attach_failure page e3 w3) as [[[]|e'|] w']; simpl in *;
      eapply acts_trans; try exact Hf; by eapply acts_trans.
  - eapply acts_trans; [by eapply acts_trans|].
    eapply acts_trans; [|apply acts_hide].
    eapply acts_trans; [|apply acts_configureStyles]. by apply acts_fields.
  - pose proof (acts_on_attach_failure e3 w3) as Hf.
    destruct (on_attach_failure page e3 w3) as [[[]|e'|] w']; simpl in *;
      eapply acts_trans; try exact Hf; by eapply acts_trans.
  - by eapply acts_trans.
Qed.

Lemma acts_show cid w w1 : show page cid w = inr w1 -> acts page w w1.
Proof.
  unfold show. intros H. repeat case_match; simplify_eq; by apply acts_emit.
Qed.

(** What [attach] does after it has set its flag and started to listen. *)
Lemma acts_attach env w :
  _isAttached w = false ->
  acts page (listen (set_isAttached true w)) (attach page env w).2.
Proof.
  intros Ha. unfold attach. rewrite Ha.
  destruct (show page _ _) as [e|w1] eqn:Hs; simpl; [apply acts_refl|].
  pose proof (acts_attach_chain env w1) as Hc.
  destruct (attach_chain page env w1) as [r w2]. simpl in *.
  eapply acts_trans; [by eapply acts_show | exact Hc].
Qed.

Lemma listen_fields w :
  _isListening (listen w) = true /\ _listeners (listen w) = _listeners w
  /\ effects (listen w) = effects w /\ view (listen w) = view w
  /\ localStorage (listen w) = localStorage w.
Proof. unfold listen. by destruct (_isListening w) eqn:E. Qed.

Lemma attach_listeners env w : _listeners (attach page env w).2 = _listeners w.
Proof.
  destruct (_isAttached w) eqn:Ha.
  - unfold attach. by rewrite Ha.
  - destruct (acts_attach env w Ha) as (_ & Hl & _).
    destruct (listen_fields (set_isAttached true w)) as (_ & Hl0 & _).
    by rewrite Hl, Hl0.
Qed.

(** X22. What the controller does to the page. In an [attach], and when a
    message is delivered, every effect is a permitted one: a host callback is
    called only with an event under whose type it is registered; styles are
    posted only for the origin of the checkout and are the styles of the
    options; the page is sent nowhere but to the allow-cookie address; a
    request is sent only to the checkout URL and only when its path starts
    with /login/token. The registrations stay as they are. [detach] has no
    such effect at all. *)
Theorem controller_effects_are_permitted env e w :
  let effects_permitted w' :=
    _listeners w' = _listeners w
    /\ exists l, effects w' = effects w ++ l
                 /\ forallb (permitted page (_listeners w)) l = true in
  effects_permitted (attach page env w).2
  /\ effects_permitted (deliver page e w)
  /\ effects (detach w).2 = effects w /\ _listeners (detach w).2 = _listeners w.
Proof.
  cbv zeta. split; [|split; [|split]].
  - destruct (_isAttached w) eqn:Ha.
    + unfold attach. rewrite Ha. simpl. split; [done|]. exists []. by rewrite app_nil_r.
    + destruct (acts_attach env w Ha) as (_ & Hl & l & He & Hp).
      destruct (listen_fields (set_isAttached true w)) as (_ & Hl0 & He0 & _).
      rewrite Hl, He, Hl0, He0 in *. simpl in *. split; [done|]. by exists l.
  - destruct (acts_deliver e w) as (_ & Hl & l & He & Hp). split; [done|]. by exists l.
  - unfold detach, stopListen, close_resizer, removeChild. by repeat case_match.
  - unfold detach, stopListen, close_resizer, removeChild. by repeat case_match.
Qed.

End Effects.

Section Frames.

Variable page : Page.

Lemma view_foldl_deliver pre : forall w,
  view (foldl (fun w (te : Z * MessageEvent) => deliver page te.2 w) w pre) = view w.
Proof.
  induction pre as [|te pre IH]; intros w; [done|].
  simpl. by rewrite IH, view_deliver.
Qed.

Lemma storage_foldl_deliver pre : forall w,
  localStorage (foldl (fun w (te : Z * MessageEvent) => deliver page te.2 w) w pre)
  = localStorage w.
Proof.
  induction pre as [|te pre IH]; intros w; [done|].
  simpl. by rewrite IH, storage_deliver.
Qed.

Lemma toResizableFrame_frame_loaded f o T pre t e post w :
  quiet o T pre -> (t < T)%Z -> msg_origin e = o ->
  data_type (msg_data e) = Some (type_name FrameLoaded) ->
  _toResizableFrame page f o T (pre ++ (t, e) :: post) w
  = (Resolved f,
     install_resizer f (match msg_data e with FrameLoadedEvent c => c | _ => None end)
       (deliver page e
          (foldl (fun w (te : Z * MessageEvent) => deliver page te.2 w) w pre))).
Proof.
  intros Hq Ht Ho Hd. rewrite toResizableFrame_quiet by done. simpl.
  destruct (Z.leb_spec T t); [lia|].
  unfold on_frame_message, isIframeEvent. rewrite Ho, String.eqb_refl, Hd.
  rewrite bool_decide_false by discriminate. by rewrite bool_decide_true.
Qed.

Lemma createFrame_loaded u cid pre t e post w :
  cid ∈ elements page ->
  quiet (origin u) (timeout_ms page) pre -> (t < timeout_ms page)%Z ->
  msg_origin e = origin u ->
  data_type (msg_data e) = Some (type_name FrameLoaded) ->
  let r := createFrame page u cid (pre ++ (t, e) :: post) w in
  let n := next_frame w in
  let contentId := match msg_data e with FrameLoadedEvent c => c | _ => None end in
  r.1 = Returned (Resolved n)
  /\ frames r.2
     = <[n := {| src := u; display_none := false; parentNode := Some cid;
                 iFrameResizer := Some {|
                   heightCalculationMethod :=
                     if truthy_opt_string contentId then "taggedElement"
                     else "lowestElement";
                   closed := false |} |}]> (frames w)
  /\ next_frame r.2 = S n
  /\ _isAttached r.2 = _isAttached w /\ _iframe r.2 = _iframe w
  /\ localStorage r.2 = localStorage w
  /\ acts page w r.2.
Proof.
  intros Hc Hq Ht Ho Hd r n contentId.
  pose proof (acts_createFrame page u cid (pre ++ (t, e) :: post) w) as Hacts.
  pose proof (storage_createFrame page u cid (pre ++ (t, e) :: post) w) as Hst.
  fold r in Hacts, Hst.
  assert (r = (Returned (Resolved n),
               install_resizer n contentId
                 (deliver page e
                    (foldl (fun w (te : Z * MessageEvent) => deliver page te.2 w)
                       (set_next_frame (S n)
                          (set_frames (<[n := new_frame u cid]> (frames w)) w)) pre))))
    as Hr.
  { unfold r, createFrame. rewrite bool_decide_true by done.
    by rewrite toResizableFrame_frame_loaded. }
  set (w1 := set_next_frame (S n) (set_frames (<[n := new_frame u cid]> (frames w)) w))
    in Hr.
  pose proof (view_deliver page e
                (foldl (fun w (te : Z * MessageEvent) => deliver page te.2 w) w1 pre))
    as Hv.
  rewrite view_foldl_deliver in Hv. unfold view in Hv. injection Hv as Ha Hi Hn Hf.
  rewrite Hr in *. simpl. rewrite Ha, Hi, Hn, Hf. simpl.
  split_and!; try done.
  by rewrite alter_insert_eq.
Qed.

(** X16. [createFrame] with the container in the document: when the first
    message that the frame's handler acts on arrives before the timer fires
    and is a frame-loaded event from the origin of the frame, the promise
    resolves with the new element. The element is under the container, is
    displayed, and has a resizer whose height calculation is by tagged
    element when the event names a content id and by lowest element
    otherwise. The elements in the document are those there were and the new
    one; the storage and the controller's flags are as before, and the
    messages that passed had permitted effects only. *)
Theorem createFrame_resolves_when_loaded u cid pre t e post w :
  cid ∈ elements page ->
  quiet (origin u) (timeout_ms page) pre -> (t < timeout_ms page)%Z ->
  msg_origin e = origin u ->
  data_type (msg_data e) = Some (type_name FrameLoaded) ->
  let r := createFrame page u cid (pre ++ (t, e) :: post) w in
  let n := next_frame w in
  let contentId := match msg_data e with FrameLoadedEvent c => c | _ => None end in
  let element :=
    {| src := u; display_none := false; parentNode := Some cid;
       iFrameResizer := Some {|
         heightCalculationMethod :=
           if truthy_opt_string contentId then "taggedElement" else "lowestElement";
         closed := false |} |} in
  r.1 = Returned (Resolved n)
  /\ frames r.2 !! n = Some element
  /\ live_frames r.2 = <[n := element]> (live_frames w)
  /\ next_frame r.2 = S n
  /\ _isAttached r.2 = _isAttached w /\ _iframe r.2 = _iframe w
  /\ localStorage r.2 = localStorage w
  /\ acts page w r.2.
Proof.
  intros Hc Hq Ht Ho Hd r n contentId element.
  destruct (createFrame_loaded u cid pre t e post w Hc Hq Ht Ho Hd)
    as (Hr & Hf & Hrest).
  fold r n contentId element in Hr, Hf, Hrest.
  split_and!; [done | | | apply Hrest..].
  - rewrite Hf. apply lookup_insert_eq.
  - unfold live_frames. rewrite Hf. apply map_filter_insert_True. simpl. by eexists.
Qed.

(** X25. Only the origin of the frame can settle the creation of the frame:
    when every message that arrives comes from another origin, whatever its
    type and payload, [createFrame] rejects with the error that the content
    could not be loaded, as it does when no message arrives at all. *)
Theorem createFrame_ignores_other_origins u cid arrivals w :
  cid ∈ elements page ->
  Forall (fun te : Z * MessageEvent => msg_origin te.2 <> origin u) arrivals ->
  (createFrame page u cid arrivals w).1 = Returned (Rejected (content_not_loaded)).
Proof.
  intros Hc Hall. rewrite createFrame_outcome by done. f_equal.
  generalize (set_next_frame (S (next_frame w))
                (set_frames (<[next_frame w := new_frame u cid]> (frames w)) w)).
  induction Hall as [|[t e] rest Ho _ IH]; intros w1; simpl; [done|].
  case_match; [done|].
  rewrite on_frame_message_idle; [apply IH|].
  unfold decisive. simpl in Ho.
  by destruct (String.eqb_spec (msg_origin e) (origin u)).
Qed.

End Frames.

Section Attach.

Variable page : Page.

(** The indicator is shown when the container is there. *)
Lemma show_container w :
  containerId (options page) ∈ elements page ->
  show page (containerId (options page)) w = inr (emit IndicatorShown w).
Proof.
  intros Hc. unfold show. destruct (truthy_string (containerId (options page))); [|done].
  by rewrite bool_decide_true.
Qed.

Lemma attemptLogin_frame_url env u w :
  (if String.prefix "/login/token" (pathname (url (options page)))
   then login_answer env = Resolved u else u = url (options page)) ->
  (_attemptLogin page (login_answer env) w).1 = Resolved u.
Proof.
  unfold _attemptLogin. destruct (String.prefix _ _); [intros -> | intros ->]; done.
Qed.

(** X17. [attach] on a detached controller, with the container in the
    document and cookies allowed: when the frame URL is there (the checkout
    URL, or the redirect URL of the login request for a login-token URL) and
    the frame reports that it has loaded before the timer fires, [attach]
    resolves with the controller. The controller is attached and listening,
    its iframe is the new element, shown under the container with its
    resizer; the elements in the document are those there were and the new
    one; the retry flag is armed, and the effects are: the indicator is
    shown first; last, the styles of the options, if any, are posted to the
    new frame for the checkout origin, and the indicator is hidden. *)
Theorem attach_resolves_when_frame_loads env w u pre t e post :
  _isAttached w = false ->
  containerId (options page) ∈ elements page ->
  truthy_item (getItem "isCookieAllowed" w).1 = true ->
  (if String.prefix "/login/token" (pathname (url (options page)))
   then login_answer env = Resolved u else u = url (options page)) ->
  arrivals env = pre ++ (t, e) :: post ->
  quiet (origin u) (timeout_ms page) pre -> (t < timeout_ms page)%Z ->
  msg_origin e = origin u ->
  data_type (msg_data e) = Some (type_name FrameLoaded) ->
  let r := attach page env w in
  let n := next_frame w in
  let contentId := match msg_data e with FrameLoadedEvent c => c | _ => None end in
  let element :=
    {| src := u; display_none := false; parentNode := Some (containerId (options page));
       iFrameResizer := Some {|
         heightCalculationMethod :=
           if truthy_opt_string contentId then "taggedElement" else "lowestElement";
         closed := false |} |} in
  r.1 = Returned (Resolved (self page))
  /\ _isAttached r.2 = true /\ _isListening r.2 = true
  /\ _iframe r.2 = Some n
  /\ frames r.2 !! n = Some element
  /\ live_frames r.2 = <[n := element]> (live_frames w)
  /\ (getItem "canRetryAllowCookie" r.2).1 = Some (JsonBool true)
  /\ exists before,
       effects r.2
       = effects w ++ [IndicatorShown] ++ before
         ++ match styles (options page) with
            | Some st => [Posted n (origin (url (options page))) st]
            | None => []
            end
         ++ [IndicatorHidden].
Proof.
  intros Ha Hc Hcookie Hurl Harr Hq Ht Ho Hd r n contentId element.
  unfold r, attach. rewrite Ha. rewrite show_container by done.
  set (w0 := listen (set_isAttached true w)).
  destruct (listen_fields (set_isAttached true w)) as (Hl0 & _ & He0 & Hv0 & Hs0).
  fold w0 in Hl0, He0, Hv0, Hs0.
  set (w1 := emit IndicatorShown w0).
  assert (truthy_item (getItem "isCookieAllowed" w1).1 = true) as Hcookie1.
  { by rewrite (getItem_same_storage _ w w1). }
  unfold attach_chain, then_, catch_, resolve.
  destruct (allowCookie_set page w1 Hcookie1) as (Hr2 & Hretry2 & _ & _ & He2 & _ & _).
  pose proof (view_allowCookie page w1) as Hv2.
  pose proof (acts_allowCookie page w1) as (Hl2 & _).
  destruct (_allowCookie page w1) as [r2 w2]. simpl in *. subst r2.
  pose proof (attemptLogin_frame_url env u w2 Hurl) as Hr3.
  pose proof (view_attemptLogin page (login_answer env) w2) as Hv3.
  pose proof (storage_attemptLogin page (login_answer env) w2) as Hs3.
  pose proof (acts_attemptLogin page (login_answer env) w2) as (Hl3 & _ & l3 & He3 & _).
  destruct (_attemptLogin page (login_answer env) w2) as [r3 w3]. simpl in *. subst r3.
  rewrite Harr.
  destruct (createFrame_loaded page u (containerId (options page)) pre t e post w3
              Hc Hq Ht Ho Hd)
    as (Hr4 & Hf4 & Hn4 & Ha4 & Hi4 & Hs4 & Hl4 & _ & l4 & He4 & _).
  destruct (createFrame page u (containerId (options page)) (pre ++ (t, e) :: post) w3)
    as [r4 w4].
  simpl in *. subst r4. simpl.
  unfold view in Hv0, Hv2, Hv3. simpl in Hv0.
  injection Hv0 as Ha0 Hi0 Hn0 Hf0.
  injection Hv2 as Ha2' Hi2 Hn2 Hf2. injection Hv3 as Ha3 Hi3 Hn3 Hf3.
  assert (next_frame w3 = n) as Hn by (unfold n; congruence).
  rewrite Hn in *.
  assert (frames w4 !! n
          = Some (with_resizer contentId (new_frame u (containerId (options page)))))
    as Hfn.
  { rewrite Hf4. apply lookup_insert_eq. }
  assert (forall w', frames w' = frames w4 -> live_frames w' = <[n := element]> (live_frames w))
    as Hlive.
  { intros w' Hw'. unfold live_frames. rewrite Hw', Hf4, Hf3, Hf2, Hf0.
    apply map_filter_insert_True. simpl. by eexists. }
  split_and!.
  - done.
  - unfold _configureStyles. simpl.
    unfold contentWindow, EmbeddedCheckout.post, setTarget. simpl.
    rewrite Hfn. simpl. destruct (styles (options page)); simpl; congruence.
  - unfold _configureStyles. simpl.
    unfold contentWindow, EmbeddedCheckout.post, setTarget. simpl.
    rewrite Hfn. simpl. destruct (styles (options page)); simpl; congruence.
  - unfold _configureStyles. simpl.
    unfold contentWindow, EmbeddedCheckout.post, setTarget. simpl.
    rewrite Hfn. simpl. by destruct (styles (options page)).
  - unfold _configureStyles. simpl.
    unfold contentWindow, EmbeddedCheckout.post, setTarget. simpl.
    rewrite Hfn. simpl. by destruct (styles (options page)).
  - apply Hlive. unfold _configureStyles. simpl.
    unfold contentWindow, EmbeddedCheckout.post, setTarget. simpl.
    rewrite Hfn. simpl. by destruct (styles (options page)).
  - rewrite <- Hretry2. apply getItem_same_storage.
    unfold hide. simpl. rewrite storage_configureStyles. simpl. congruence.
  - exists (l3 ++ l4).
    unfold _configureStyles. simpl.
    unfold contentWindow, EmbeddedCheckout.post, setTarget. simpl.
    rewrite Hfn. simpl. unfold _sourceOrigin.
    destruct (styles (options page)); simpl; rewrite He4, He3, He2; simpl;
      rewrite He0; simpl; by rewrite <- !app_assoc.
Qed.



Lemma on_attach_failure_rejected e' e w :
  (on_attach_failure page e' w).1 = Rejected e ->
  e = e'
  /\ (on_attach_failure page e' w).2
     = hide (trigger page (FrameErrorEvent e)
               (getItem "canRetryAllowCookie" (set_isAttached false w)).2).
Proof.
  destruct (on_attach_failure_cases page e' w) as (_ & Hretry & Hraise).
  destruct (truthy_item (getItem "canRetryAllowCookie" w).1 && is_missing_content e').
  - destruct (Hretry eq_refl) as [-> _]. done.
  - rewrite (Hraise eq_refl). simpl. intros; by simplify_eq.
Qed.

Lemma attach_chain_rejected env w e :
  (attach_chain page env w).1 = Rejected e ->
  exists w0, (attach_chain page env w).2 = hide (trigger page (FrameErrorEvent e) w0)
             /\ _isAttached w0 = false.
Proof.
  assert (forall e' w',
            (let r := on_attach_failure page e' w' in
             match r.1 with
             | Resolved _ => (Resolved (self page), r.2)
             | Rejected e0 => (Rejected e0, r.2)
             | Pending => (Pending, r.2)
             end).1 = Rejected e ->
            exists w0, (on_attach_failure page e' w').2
                       = hide (trigger page (FrameErrorEvent e) w0)
                       /\ _isAttached w0 = false) as Hfail.
  { intros e' w'. simpl.
    pose proof (on_attach_failure_rejected e' e w') as H.
    destruct (on_attach_failure page e' w') as [[[]|e0|] w2]; simpl in *; try done.
    intros Heq. simplify_eq. destruct (H eq_refl) as [-> ->].
    eexists. split; [reflexivity|].
    by destruct (getItem_fields "canRetryAllowCookie" (set_isAttached false w'))
      as (-> & _). }
  unfold attach_chain, then_, catch_, resolve.
  destruct (_allowCookie page w) as [[[]|e1|] w1]; simpl.
  2:{ intros H. destruct (Hfail e1 w1) as (w0 & Hw & Ha).
      - simpl. by destruct (on_attach_failure page e1 w1) as [[[]|?|] ?].
      - exists w0. split; [|done]. rewrite <- Hw.
        by destruct (on_attach_failure page e1 w1) as [[[]|?|] ?]. }
  2:{ done. }
  destruct (_attemptLogin page (login_answer env) w1) as [[u|e2|] w2]; simpl.
  2:{ intros H. destruct (Hfail e2 w2) as (w0 & Hw & Ha).
      - simpl. by destruct (on_attach_failure page e2 w2) as [[[]|?|] ?].
      - exists w0. split; [|done]. rewrite <- Hw.
        by destruct (on_attach_failure page e2 w2) as [[[]|?|] ?]. }
  2:{ done. }
  destruct (createFrame page u (containerId (options page)) (arrivals env) w2)
    as [[e3|[f|e3|]] w3]; simpl; try done.
  - intros H. destruct (Hfail e3 w3) as (w0 & Hw & Ha).
    + simpl. by destruct (on_attach_failure page e3 w3) as [[[]|?|] ?].
    + exists w0. split; [|done]. rewrite <- Hw.
      by destruct (on_attach_failure page e3 w3) as [[[]|?|] ?].
  - intros H. destruct (Hfail e3 w3) as (w0 & Hw & Ha).
    + simpl. by destruct (on_attach_failure page e3 w3) as [[[]|?|] ?].
    + exists w0. split; [|done]. rewrite <- Hw.
      by destruct (on_attach_failure page e3 w3) as [[[]|?|] ?].
Qed.

(** X19. When [attach] rejects, the controller was detached before and is
    detached again, the frame-error event with the error as payload has been
    triggered and then the indicator hidden. The message listener stays
    registered: [detach] is then a no-op that does not stop it, and messages
    are still dispatched. *)
Theorem rejected_attach_keeps_listening env w e :
  (attach page env w).1 = Returned (Rejected e) ->
  let w' := (attach page env w).2 in
  _isAttached w = false
  /\ _isAttached w' = false /\ _isListening w' = true
  /\ detach w' = (None, w')
  /\ (exists w0, w' = hide (trigger page (FrameErrorEvent e) w0))
  /\ forall m, deliver page m w' = _handleMessage page m w'.
Proof.
  intros Hr. cbv zeta.
  destruct (_isAttached w) eqn:Ha.
  { unfold attach in Hr. by rewrite Ha in Hr. }
  destruct (acts_attach page env w Ha) as (Hl & _).
  destruct (listen_fields (set_isAttached true w)) as (Hl0 & _).
  rewrite Hl0 in Hl.
  assert (exists w0, (attach page env w).2 = hide (trigger page (FrameErrorEvent e) w0)
                     /\ _isAttached w0 = false) as (w0 & Hw & Ha0).
  { unfold attach in *. rewrite Ha in *.
    destruct (show page _ _) as [e0|w1]; [done|].
    pose proof (attach_chain_rejected env w1 e) as Hc.
    destruct (attach_chain page env w1) as [r w2]. simpl in *.
    apply Hc. congruence. }
  assert (_isAttached (attach page env w).2 = false) as Ha'.
  { rewrite Hw.
    pose proof (view_trigger page (FrameErrorEvent e) w0) as Hv.
    unfold view in Hv. injection Hv as Hv _ _ _. simpl. congruence. }
  split_and!; try done.
  - unfold detach. by rewrite Ha'.
  - by exists w0.
  - intros m. unfold deliver. by rewrite Hl.
Qed.

(** X18. A login-token URL whose login request fails, on a detached
    controller with cookies allowed and the indicator's parent in place:
    [attach] rejects with the invalid-login-token error, whose message is
    the title of the response or, when that is empty, "An unexpected error
    has occurred.". No iframe element is created, the controller is
    detached, and, with no listener for frame errors, the page has seen the
    indicator, one request to the checkout URL, and the indicator hidden. *)
Theorem attach_rejects_invalid_login_token env w title :
  _isAttached w = false ->
  truthy_string (containerId (options page)) = false
  \/ containerId (options page) ∈ elements page ->
  truthy_item (getItem "isCookieAllowed" w).1 = true ->
  String.prefix "/login/token" (pathname (url (options page))) = true ->
  login_answer env = Rejected title ->
  default [] (_listeners w !! type_name FrameError) = [] ->
  let r := attach page env w in
  r.1 = Returned (Rejected (InvalidLoginTokenError
          (if truthy_string title then title else "An unexpected error has occurred.")))
  /\ frames r.2 = frames w /\ next_frame r.2 = next_frame w
  /\ _isAttached r.2 = false
  /\ effects r.2
     = effects w ++ [IndicatorShown; HttpPost (href (url (options page))); IndicatorHidden].
Proof.
  intros Ha Hc Hcookie Hlogin Hanswer Hnone r.
  unfold r, attach. rewrite Ha.
  assert (forall w0, show page (containerId (options page)) w0
                     = inr (emit IndicatorShown w0)) as ->.
  { intros w0. unfold show. destruct Hc as [->|Hc]; [done|].
    rewrite bool_decide_true by done. by destruct (truthy_string _). }
  set (w0 := listen (set_isAttached true w)).
  destruct (listen_fields (set_isAttached true w)) as (Hl0 & Hls0 & He0 & Hv0 & Hs0).
  fold w0 in Hl0, Hls0, He0, Hv0, Hs0.
  set (w1 := emit IndicatorShown w0).
  assert (truthy_item (getItem "isCookieAllowed" w1).1 = true) as Hcookie1.
  { by rewrite (getItem_same_storage _ w w1). }
  unfold attach_chain, then_, catch_, resolve.
  destruct (allowCookie_set page w1 Hcookie1) as (Hr2 & Hretry2 & _ & _ & He2 & _ & _).
  pose proof (view_allowCookie page w1) as Hv2.
  pose proof (acts_allowCookie page w1) as (_ & Hls2 & _).
  destruct (_allowCookie page w1) as [r2 w2]. simpl in *. subst r2.
  unfold _attemptLogin. rewrite Hlogin, Hanswer. simpl.
  set (e := new_InvalidLoginTokenError title).
  set (w3 := emit (HttpPost (href (url (options page)))) w2).
  destruct (on_attach_failure_cases page e w3) as (_ & _ & Hraise).
  rewrite (getItem_same_storage _ w2 w3 eq_refl), Hretry2 in Hraise.
  rewrite (Hraise eq_refl). simpl.
  destruct (getItem_fields "canRetryAllowCookie" (set_isAttached false w3))
    as (Ha4 & Hi4 & Hl4 & Hls4 & _ & Hf4 & Hn4 & _ & He4).
  set (w4 := (getItem "canRetryAllowCookie" (set_isAttached false w3)).2) in *.
  assert (trigger page (FrameErrorEvent e) w4 = w4) as ->.
  { rewrite trigger_default. simpl in *.
    change (property_key (Some "FRAME_ERROR")) with (type_name FrameError).
    rewrite Hls4, Hls2, Hls0. simpl. by rewrite Hnone. }
  unfold view in Hv0, Hv2. simpl in *.
  injection Hv0 as _ _ Hn0 Hf0. injection Hv2 as _ _ Hn2 Hf2.
  split_and!; try done; try congruence.
  rewrite He4, He2, He0. by rewrite <- !app_assoc.
Qed.

(** X20. With a container id that names no element, [attach] throws the
    error of the loading indicator before any promise exists. Nothing has
    been shown or created, but the attached flag stays set and the listener
    registered: the next [attach] resolves with the controller at once,
    although nothing is embedded. *)
Theorem attach_without_container_stays_attached env env' w :
  _isAttached w = false ->
  truthy_string (containerId (options page)) = true ->
  containerId (options page) ∉ elements page ->
  let first := attach page env w in
  first.1 = Thrown (StandardError
              "Unable to attach the loading indicator because the parent ID is not valid.")
  /\ _isAttached first.2 = true /\ _isListening first.2 = true
  /\ frames first.2 = frames w /\ effects first.2 = effects w
  /\ attach page env' first.2 = (Returned (Resolved (self page)), first.2).
Proof.
  intros Ha Ht Hc. cbv zeta.
  destruct (listen_fields (set_isAttached true w)) as (Hl0 & _ & He0 & Hv0 & _).
  unfold view in Hv0. simpl in Hv0. injection Hv0 as Ha0 _ _ Hf0.
  assert (attach page env w
          = (Thrown (StandardError
               "Unable to attach the loading indicator because the parent ID is not valid."),
             listen (set_isAttached true w))) as ->.
  { unfold attach, show. by rewrite Ha, Ht, bool_decide_false. }
  simpl. split_and!; try done.
  unfold attach. by rewrite Ha0.
Qed.

Lemma add_option_listener_fields t c w :
  let w' := add_option_listener t c w in
  _isAttached w' = _isAttached w /\ _isListening w' = _isListening w
  /\ frames w' = frames w /\ effects w' = effects w
  /\ localStorage w' = localStorage w /\ next_frame w' = next_frame w
  /\ _iframe w' = _iframe w.
Proof. by destruct c. Qed.

Lemma construct_fields storage :
  let w := construct page storage in
  _isAttached w = false /\ _isListening w = false /\ frames w = ∅
  /\ effects w = [] /\ localStorage w = storage /\ next_frame w = 0%nat
  /\ _iframe w = None.
Proof.
  unfold construct. cbv zeta.
  set (w0 := mkWorld false None false ∅ None storage ∅ 0 false []).
  destruct (add_option_listener_fields CheckoutComplete (onComplete (options page)) w0)
    as (A1&L1&F1&E1&S1&N1&I1).
  set (w1 := add_option_listener CheckoutComplete _ w0) in *.
  destruct (add_option_listener_fields CheckoutError (onError (options page)) w1)
    as (A2&L2&F2&E2&S2&N2&I2).
  set (w2 := add_option_listener CheckoutError _ w1) in *.
  destruct (add_option_listener_fields CheckoutLoaded (onLoad (options page)) w2)
    as (A3&L3&F3&E3&S3&N3&I3).
  set (w3 := add_option_listener CheckoutLoaded _ w2) in *.
  destruct (add_option_listener_fields FrameLoaded (onFrameLoad (options page)) w3)
    as (A4&L4&F4&E4&S4&N4&I4).
  set (w4 := add_option_listener FrameLoaded _ w3) in *.
  destruct (add_option_listener_fields SignedOut (onSignOut (options page)) w4)
    as (A5&L5&F5&E5&S5&N5&I5).
  set (w5 := add_option_listener SignedOut _ w4) in *.
  unfold addListener. cbn [set_listeners _isAttached _isListening frames effects
                           localStorage next_frame _iframe].
  rewrite A5, A4, A3, A2, A1, L5, L4, L3, L2, L1, F5, F4, F3, F2, F1,
    E5, E4, E3, E2, E1, S5, S4, S3, S2, S1, N5, N4, N3, N2, N1, I5, I4, I3, I2, I1.
  by repeat split.
Qed.

(** X21. [embedCheckout] on a page where the cookie flag is not set: the
    promise never settles and no iframe is created; the indicator has been
    shown, the body hidden and the page sent to the allow-cookie address, and
    the storage holds the cookie flag and no retry flag. *)
Theorem embedCheckout_first_visit_redirects storage env :
  truthy_item (getItem "isCookieAllowed" (construct page storage)).1 = false ->
  truthy_string (containerId (options page)) = false
  \/ containerId (options page) ∈ elements page ->
  let r := embedCheckout page storage env in
  r.1 = Returned Pending
  /\ frames r.2 = ∅ /\ body_hidden r.2 = true
  /\ effects r.2 = [IndicatorShown; LocationReplaced (allow_cookie_url page)]
  /\ (getItem "isCookieAllowed" r.2).1 = Some (JsonBool true)
  /\ (getItem "canRetryAllowCookie" r.2).1 = None.
Proof.
  intros Hcookie Hc r.
  destruct (construct_fields storage) as (Ha & _ & Hf & He & _).
  unfold r, embedCheckout, attach. rewrite Ha.
  assert (forall w0, show page (containerId (options page)) w0
                     = inr (emit IndicatorShown w0)) as ->.
  { intros w0. unfold show. destruct Hc as [->|Hc]; [done|].
    rewrite bool_decide_true by done. by destruct (truthy_string _). }
  set (w0 := listen (set_isAttached true (construct page storage))).
  destruct (listen_fields (set_isAttached true (construct page storage)))
    as (_ & _ & He0 & Hv0 & Hs0).
  fold w0 in He0, Hv0, Hs0.
  set (w1 := emit IndicatorShown w0).
  assert (truthy_item (getItem "isCookieAllowed" w1).1 = false) as Hcookie1.
  { by rewrite (getItem_same_storage _ (construct page storage) w1). }
  unfold attach_chain, then_, catch_, resolve.
  destruct (allowCookie_unset page w1 Hcookie1)
    as (Hr2 & Hretry2 & Hallowed2 & Hb2 & He2 & Hf2 & _).
  destruct (_allowCookie page w1) as [r2 w2]. simpl in *. subst r2. simpl.
  unfold view in Hv0. simpl in Hv0. injection Hv0 as _ _ _ Hf0.
  split_and!; try done.
  - congruence.
  - rewrite He2, He0, He. done.
Qed.

Lemma iframe_ready_view w w' :
  iframe_ready w -> _iframe w' = _iframe w -> next_frame w' = next_frame w ->
  frames w' = frames w -> iframe_ready w'.
Proof. unfold iframe_ready. intros H -> -> ->. exact H. Qed.

Lemma iframe_ready_new_element w w' x :
  iframe_ready w -> _iframe w' = _iframe w -> next_frame w' = S (next_frame w) ->
  frames w' = <[next_frame w := x]> (frames w) -> iframe_ready w'.
Proof.
  unfold iframe_ready. intros H -> -> -> f Hf. destruct (H f Hf) as [Hlt Hres].
  split; [lia|]. intros fr. rewrite lookup_insert_ne by lia. apply Hres.
Qed.

Lemma attach_iframe_ready env w :
  iframe_ready w -> iframe_ready (attach page env w).2.
Proof.
  intros Hw. unfold attach. destruct (_isAttached w); [done|].
  destruct (listen_fields (set_isAttached true w)) as (_ & _ & _ & Hv0 & _).
  set (w0 := listen (set_isAttached true w)) in *.
  unfold view in Hv0. simpl in Hv0. injection Hv0 as _ Hi0 Hn0 Hf0.
  destruct (show page _ w0) as [e|w1] eqn:Hshow; simpl.
  { by apply (iframe_ready_view w). }
  assert (view w1 = view w0) as Hv1.
  { unfold show in Hshow. repeat case_match; by simplify_eq. }
  unfold view in Hv1. injection Hv1 as _ Hi1 Hn1 Hf1.
  assert (iframe_ready w1) as Hw1.
  { apply (iframe_ready_view w); [done | congruence..]. }
  destruct (attach_chain_view page env w1)
    as [[_ Hv]|[[_ Hv]|[(_&u&Hv)|[(_&u&Hv)|(_&u&c&Hv)]]]];
    destruct (attach_chain page env w1) as [r w2]; simpl in *;
    unfold view in Hv; injection Hv as _ Hi2 Hn2 Hf2.
  - by apply (iframe_ready_view w1).
  - by apply (iframe_ready_view w1).
  - by eapply (iframe_ready_new_element w1 w2).
  - by eapply (iframe_ready_new_element w1 w2).
  - intros f Hf. rewrite Hi2 in Hf. simplify_eq. rewrite Hn2, Hf2.
    split; [lia|]. intros fr. rewrite lookup_insert_eq. intros; simplify_eq.
    by eexists.
Qed.

Lemma detach_iframe_ready w :
  iframe_ready w -> (detach w).1 = None /\ iframe_ready (detach w).2.
Proof.
  intros Hw. unfold detach. destruct (_isAttached w); [|done].
  assert (view (stopListen (set_isAttached false w))
          = (false, _iframe w, next_frame w, frames w)) as Hv
    by (by rewrite view_stopListen).
  set (w1 := stopListen (set_isAttached false w)) in *.
  unfold view in Hv. injection Hv as _ Hi Hn Hf.
  assert (iframe_ready w1) as Hw1 by (by apply (iframe_ready_view w)).
  rewrite Hi, Hf. destruct (_iframe w) as [f|] eqn:Hif; [|done].
  destruct (Hw f Hif) as [Hlt Hres].
  destruct (frames w !! f) as [fr|] eqn:Hfr; [|done].
  destruct (parentNode fr) as [c|] eqn:Hp; [|done].
  destruct (Hres fr eq_refl) as [rz Hrz]; [by rewrite Hp|].
  rewrite Hrz. simpl. split; [done|].
  intros g Hg. simpl in *. rewrite Hi in Hg. simplify_eq. rewrite Hn, Hf.
  split; [done|]. intros fr'. rewrite !lookup_alter_eq, Hfr. simpl.
  intros ? [? ?]; by simplify_eq.
Qed.

Lemma run_iframe_ready ops : forall w, iframe_ready w -> iframe_ready (run page ops w).
Proof.
  induction ops as [|[env|] ops IH]; intros w Hw; simpl; [done| |].
  - pose proof (attach_iframe_ready env w Hw) as Ha.
    destruct (attach page env w) as [[e|[g|e|]] w']; simpl in *; auto.
  - by apply IH, detach_iframe_ready.
Qed.

(** X23. [detach] never throws on a controller made by the constructor,
    whatever calls of [attach] and [detach] came before, each made when the
    one before had settled: when the controller's iframe is in the document,
    it has the resizer that [detach] closes. *)
Theorem detach_never_throws storage ops :
  (detach (run page ops (construct page storage))).1 = None.
Proof.
  apply detach_iframe_ready, run_iframe_ready.
  intros f Hf. exfalso.
  destruct (construct_fields storage) as (_ & _ & _ & _ & _ & _ & Hnone).
  congruence.
Qed.

End Attach.

Lemma createFrame_ignores_other_origins_witness :
  "checkout" ∈ elements host_page
  /\ (createFrame host_page checkout_url "checkout" [(40%Z, stranger)] bare_world).1
     = Returned (Rejected content_not_loaded).
Proof.
  assert ("checkout" ∈ elements host_page) as Hc by (by vm_compute).
  split; [exact Hc|].
  apply (createFrame_ignores_other_origins host_page checkout_url "checkout" [(40%Z, stranger)]
           bare_world Hc).
  constructor; [discriminate | constructor].
Defined.

Lemma createFrame_resolves_when_loaded_witness :
  "checkout" ∈ elements host_page
  /\ (createFrame host_page checkout_url "checkout"
        ([(40%Z, resizer_chatter)] ++ (120%Z, frame_loaded) :: []) bare_world).1
     = Returned (Resolved (next_frame bare_world)).
Proof.
  assert ("checkout" ∈ elements host_page) as Hc by (by vm_compute).
  assert (quiet (origin checkout_url) (timeout_ms host_page) [(40%Z, resizer_chatter)])
    as Hq by (constructor; [split; reflexivity | constructor]).
  assert (120 < timeout_ms host_page)%Z as Ht by reflexivity.
  split; [exact Hc|].
  exact (proj1 (createFrame_resolves_when_loaded host_page checkout_url "checkout"
                  [(40%Z, resizer_chatter)] 120%Z frame_loaded [] bare_world
                  Hc Hq Ht eq_refl eq_refl)).
Defined.

Lemma attach_resolves_when_frame_loads_witness :
  _isAttached (construct host_page cookie_allowed) = false
  /\ truthy_item (getItem "isCookieAllowed" (construct host_page cookie_allowed)).1 = true
  /\ (attach host_page loads (construct host_page cookie_allowed)).1
     = Returned (Resolved (self host_page))
  /\ _isAttached attached_world = true.
Proof.
  assert (_isAttached (construct host_page cookie_allowed) = false) as Ha by reflexivity.
  assert ("checkout" ∈ elements host_page) as Hc by (by vm_compute).
  assert (truthy_item (getItem "isCookieAllowed" (construct host_page cookie_allowed)).1
          = true) as Hk by (by vm_compute).
  assert (quiet (origin checkout_url) (timeout_ms host_page) [(40%Z, resizer_chatter)])
    as Hq by (constructor; [split; reflexivity | constructor]).
  assert (120 < timeout_ms host_page)%Z as Ht by reflexivity.
  split; [exact Ha|]. split; [exact Hk|].
  pose proof (attach_resolves_when_frame_loads host_page loads
                (construct host_page cookie_allowed) checkout_url
                [(40%Z, resizer_chatter)] 120%Z frame_loaded []
                Ha Hc Hk eq_refl eq_refl Hq Ht eq_refl eq_refl) as H.
  split; [exact (proj1 H) | exact (proj1 (proj2 H))].
Defined.


Lemma attach_rejects_invalid_login_token_witness :
  _isAttached (construct login_page cookie_allowed) = false
  /\ login_answer login_rejected = Rejected "The login token is not valid"
  /\ (attach login_page login_rejected (construct login_page cookie_allowed)).1
     = Returned (Rejected (InvalidLoginTokenError "The login token is not valid")).
Proof.
  assert (_isAttached (construct login_page cookie_allowed) = false) as Ha by reflexivity.
  assert ("checkout" ∈ elements login_page) as Hc by (by vm_compute).
  assert (truthy_item (getItem "isCookieAllowed" (construct login_page cookie_allowed)).1
          = true) as Hk by (by vm_compute).
  assert (default [] (_listeners (construct login_page cookie_allowed)
                        !! type_name FrameError) = []) as Hn by (by vm_compute).
  split; [exact Ha|]. split; [reflexivity|].
  exact (proj1 (attach_rejects_invalid_login_token login_page login_rejected
                  (construct login_page cookie_allowed) "The login token is not valid"
                  Ha (or_intror Hc) Hk eq_refl eq_refl Hn)).
Defined.

Lemma rejected_attach_keeps_listening_witness :
  (attach host_page never_loads (construct host_page cookie_allowed)).1
  = Returned (Rejected content_not_loaded)
  /\ _isListening (attach host_page never_loads (construct host_page cookie_allowed)).2
     = true.
Proof.
  assert ((attach host_page never_loads (construct host_page cookie_allowed)).1
          = Returned (Rejected content_not_loaded)) as H by (by vm_compute).
  split; [exact H|].
  exact (proj1 (proj2 (proj2 (rejected_attach_keeps_listening host_page never_loads
                                (construct host_page cookie_allowed) _ H)))).
Defined.

Lemma attach_without_container_stays_attached_witness :
  (containerId (options page_without_container) ∉ elements page_without_container)
  /\ attach page_without_container loads
       (attach page_without_container loads
          (construct page_without_container cookie_allowed)).2
     = (Returned (Resolved (self page_without_container)),
        (attach page_without_container loads
           (construct page_without_container cookie_allowed)).2).
Proof.
  assert (containerId (options page_without_container) ∉ elements page_without_container)
    as Hc by (by vm_compute).
  split; [exact Hc|].
  exact (proj2 (proj2 (proj2 (proj2 (proj2
    (attach_without_container_stays_attached page_without_container loads loads
       (construct page_without_container cookie_allowed) eq_refl eq_refl Hc)))))).
Defined.

Lemma embedCheckout_first_visit_redirects_witness :
  truthy_item (getItem "isCookieAllowed" (construct host_page ∅)).1 = false
  /\ (embedCheckout host_page ∅ loads).1 = Returned Pending
  /\ frames (embedCheckout host_page ∅ loads).2 = ∅.
Proof.
  assert (truthy_item (getItem "isCookieAllowed" (construct host_page ∅)).1 = false)
    as Hk by (by vm_compute).
  assert ("checkout" ∈ elements host_page) as Hc by (by vm_compute).
  split; [exact Hk|].
  pose proof (embedCheckout_first_visit_redirects host_page ∅ loads Hk (or_intror Hc))
    as H.
  split; [exact (proj1 H) | exact (proj1 (proj2 H))].
Defined.

Lemma styles_posted_on_frame_loaded_witness :
  _isListening attached_world = true
  /\ _iframe attached_world = Some 0%nat
  /\ effects (deliver host_page frame_loaded attached_world)
     = effects attached_world
       ++ [Invoked 4 (FrameLoadedEvent None)]
       ++ [Posted 0 "https://store.example" "body{}"].
Proof.
  assert (_listeners attached_world = _listeners (construct host_page cookie_allowed))
    as Hl by apply attach_listeners.
  assert (_isListening attached_world = true) as Hon by (by vm_compute).
  assert (_iframe attached_world = Some 0%nat) as Hi by (by vm_compute).
  assert (frames attached_world !! 0%nat
          = Some (with_resizer None (new_frame checkout_url "checkout"))) as Hf
    by (by vm_compute).
  split; [exact Hon|]. split; [exact Hi|].
  pose proof (styles_posted_on_frame_loaded host_page cookie_allowed attached_world
                frame_loaded 0%nat _ "checkout" Hl Hon eq_refl eq_refl Hi Hf eq_refl)
    as H.
  exact H.
Defined.

End EmbeddedCheckoutProperties.
